(** * Verification of scripts/pipeline.py

    A shallow embedding of the incremental upsert pipeline: the identity
    deriver ([country_id_from_name]), the frame normaliser
    ([normalize_columns], alias unification, numeric coercion), the batch
    assembler ([read_olympics_files]), the upsert store ([upsert_parquet])
    and the denormalisation join of [run_pipeline].

    Text is modelled as ASCII strings (Python [str] restricted to code
    points below 128); a pandas DataFrame is a list of column labels and a
    list of rows of cells. *)

From Stdlib Require Import ZArith QArith Ascii String List Bool Lia.
From stdpp Require Import base decidable option list strings numbers sorting.

Local Open Scope string_scope.
Local Open Scope list_scope.
Local Open Scope Z_scope.

(** ** hashlib.md5 (RFC 1321), on 32-bit words held in [Z] *)

Module Hashlib.

Definition mask32 (x : Z) : Z := Z.land x 0xffffffff.
Definition add32 (x y : Z) : Z := mask32 (x + y).
Definition not32 (x : Z) : Z := Z.lxor (mask32 x) 0xffffffff.
Definition rotl32 (x n : Z) : Z :=
  mask32 (Z.lor (Z.shiftl x n) (Z.shiftr (mask32 x) (32 - n))).

Definition shifts : list Z :=
  [7; 12; 17; 22; 7; 12; 17; 22; 7; 12; 17; 22; 7; 12; 17; 22;
   5; 9; 14; 20; 5; 9; 14; 20; 5; 9; 14; 20; 5; 9; 14; 20;
   4; 11; 16; 23; 4; 11; 16; 23; 4; 11; 16; 23; 4; 11; 16; 23;
   6; 10; 15; 21; 6; 10; 15; 21; 6; 10; 15; 21; 6; 10; 15; 21].

(** K[i] = floor (2^32 * |sin (i + 1)|) *)
Definition sines : list Z :=
  [0xd76aa478; 0xe8c7b756; 0x242070db; 0xc1bdceee;
   0xf57c0faf; 0x4787c62a; 0xa8304613; 0xfd469501;
   0x698098d8; 0x8b44f7af; 0xffff5bb1; 0x895cd7be;
   0x6b901122; 0xfd987193; 0xa679438e; 0x49b40821;
   0xf61e2562; 0xc040b340; 0x265e5a51; 0xe9b6c7aa;
   0xd62f105d; 0x02441453; 0xd8a1e681; 0xe7d3fbc8;
   0x21e1cde6; 0xc33707d6; 0xf4d50d87; 0x455a14ed;
   0xa9e3e905; 0xfcefa3f8; 0x676f02d9; 0x8d2a4c8a;
   0xfffa3942; 0x8771f681; 0x6d9d6122; 0xfde5380c;
   0xa4beea44; 0x4bdecfa9; 0xf6bb4b60; 0xbebfbc70;
   0x289b7ec6; 0xeaa127fa; 0xd4ef3085; 0x04881d05;
   0xd9d4d039; 0xe6db99e5; 0x1fa27cf8; 0xc4ac5665;
   0xf4292244; 0x432aff97; 0xab9423a7; 0xfc93a039;
   0x655b59c3; 0x8f0ccc92; 0xffeff47d; 0x85845dd1;
   0x6fa87e4f; 0xfe2ce6e0; 0xa3014314; 0x4e0811a1;
   0xf7537e82; 0xbd3af235; 0x2ad7d2bb; 0xeb86d391].

(** The message followed by 0x80, zero bytes up to 56 modulo 64, and the
    bit length as eight little-endian bytes. *)
Definition le_bytes (n : nat) (x : Z) : list Z :=
  map (fun i => Z.land (Z.shiftr x (8 * Z.of_nat i)) 0xff) (seq 0 n).

Definition pad (msg : list Z) : list Z :=
  let len := Z.of_nat (length msg) in
  let zeros := Z.to_nat ((55 - len) mod 64) in
  msg ++ 0x80 :: repeat 0 zeros ++ le_bytes 8 (Z.land (8 * len) 0xffffffffffffffff).

Fixpoint word_le (bs : list Z) : Z :=
  match bs with
  | [] => 0
  | b :: bs' => Z.lor b (Z.shiftl (word_le bs') 8)
  end.

Fixpoint words (n : nat) (bs : list Z) : list Z :=
  match n with
  | O => []
  | S n' => word_le (firstn 4 bs) :: words n' (skipn 4 bs)
  end.

Fixpoint blocks (n : nat) (bs : list Z) : list (list Z) :=
  match n with
  | O => []
  | S n' => words 16 (firstn 64 bs) :: blocks n' (skipn 64 bs)
  end.

Record state := St { sa : Z; sb : Z; sc : Z; sd : Z }.

Definition init : state :=
  St 0x67452301 0xefcdab89 0x98badcfe 0x10325476.

Definition round (m : list Z) (s : state) (i : nat) : state :=
  let '(St a b c d) := s in
  let iz := Z.of_nat i in
  let '(f, g) :=
    if iz <? 16 then (Z.lor (Z.land b c) (Z.land (not32 b) d), iz)
    else if iz <? 32 then (Z.lor (Z.land d b) (Z.land (not32 d) c), (5 * iz + 1) mod 16)
    else if iz <? 48 then (Z.lxor (Z.lxor b c) d, (3 * iz + 5) mod 16)
    else (Z.lxor c (Z.lor b (not32 d)), (7 * iz) mod 16) in
  let f' := add32 (add32 (add32 f a) (nth i sines 0)) (nth (Z.to_nat g) m 0) in
  St d (add32 b (rotl32 f' (nth i shifts 0))) b c.

Definition compress (s : state) (m : list Z) : state :=
  let '(St a b c d) := fold_left (round m) (seq 0 64) s in
  St (add32 (sa s) a) (add32 (sb s) b) (add32 (sc s) c) (add32 (sd s) d).

Definition hex_digit (n : Z) : ascii :=
  if n <? 10 then ascii_of_nat (Z.to_nat (48 + n))
  else ascii_of_nat (Z.to_nat (87 + n)).

Definition hex_byte (b : Z) : list ascii :=
  [hex_digit (Z.shiftr b 4); hex_digit (Z.land b 0xf)].

Definition digest (msg : list Z) : list Z :=
  let p := pad msg in
  let '(St a b c d) := fold_left compress (blocks (length p / 64) p) init in
  le_bytes 4 a ++ le_bytes 4 b ++ le_bytes 4 c ++ le_bytes 4 d.

(** [hashlib.md5(key.encode('utf-8')).hexdigest()] on ASCII text. *)
Definition md5 (s : string) : string :=
  string_of_list_ascii
    (concat (map hex_byte
               (digest (map (fun c => Z.of_nat (nat_of_ascii c))
                            (list_ascii_of_string s))))).

End Hashlib.


(** ** Python text operations, on ASCII strings *)

(** [str.isspace] and the regex class [\s] below code point 128. *)
Definition isspace (c : ascii) : bool :=
  let n := nat_of_ascii c in
  ((9 <=? n)%nat && (n <=? 13)%nat) || ((28 <=? n)%nat && (n <=? 32)%nat).

(** The regex class [0-9]. *)
Definition isdigit (c : ascii) : bool :=
  let n := nat_of_ascii c in (48 <=? n)%nat && (n <=? 57)%nat.

Definition lower_char (c : ascii) : ascii :=
  let n := nat_of_ascii c in
  if (65 <=? n)%nat && (n <=? 90)%nat then ascii_of_nat (n + 32) else c.

(** [s.lower()] *)
Fixpoint lower (s : string) : string :=
  match s with
  | EmptyString => EmptyString
  | String c s' => String (lower_char c) (lower s')
  end.

Fixpoint lstrip (s : string) : string :=
  match s with
  | EmptyString => EmptyString
  | String c s' => if isspace c then lstrip s' else s
  end.

Fixpoint rstrip (s : string) : string :=
  match s with
  | EmptyString => EmptyString
  | String c s' =>
      match rstrip s' with
      | EmptyString => if isspace c then EmptyString else String c EmptyString
      | t => String c t
      end
  end.

(** [s.strip()] *)
Definition strip (s : string) : string := rstrip (lstrip s).

(** [re.sub(r'\s+', rep, s)]: every maximal run of whitespace becomes one
    [rep]; [in_run] records that the previous character was whitespace. *)
Fixpoint sub_ws_from (rep : string) (in_run : bool) (s : string) : string :=
  match s with
  | EmptyString => EmptyString
  | String c s' =>
      if isspace c
      then (if in_run then sub_ws_from rep true s'
            else String.append rep (sub_ws_from rep true s'))
      else String c (sub_ws_from rep false s')
  end.

Definition re_sub_ws (rep s : string) : string := sub_ws_from rep false s.

(** [s.startswith(p)] *)
Fixpoint startswith (p s : string) : bool :=
  match p, s with
  | EmptyString, _ => true
  | String a p', String b s' => if ascii_dec a b then startswith p' s' else false
  | String _ _, EmptyString => false
  end.

(** [p in s] *)
Fixpoint contains (p s : string) : bool :=
  startswith p s ||
  match s with
  | EmptyString => false
  | String _ s' => contains p s'
  end.

(** [re.search(r'(\d{4})', s)]: the leftmost four consecutive digits. *)
Definition match_d4 (s : string) : option string :=
  match s with
  | String a (String b (String c (String d _))) =>
      if isdigit a && isdigit b && isdigit c && isdigit d
      then Some (String a (String b (String c (String d EmptyString))))
      else None
  | _ => None
  end.

Fixpoint re_search_d4 (s : string) : option string :=
  match match_d4 s with
  | Some m => Some m
  | None =>
      match s with
      | EmptyString => None
      | String _ s' => re_search_d4 s'
      end
  end.

Definition digit_value (c : ascii) : Z := Z.of_nat (nat_of_ascii c) - 48.

(** [int(s)] on a string of digits. *)
Definition int_of_digits (s : string) : Z :=
  fold_left (fun acc c => 10 * acc + digit_value c) (list_ascii_of_string s) 0.

(** [str.replace(r'[^0-9.-]', '', regex=True)] on one string. *)
Definition numeric_char (c : ascii) : bool :=
  isdigit c || (if ascii_dec c "."%char then true else false)
            || (if ascii_dec c "-"%char then true else false).

Fixpoint strip_non_numeric (s : string) : string :=
  match s with
  | EmptyString => EmptyString
  | String c s' =>
      if numeric_char c then String c (strip_non_numeric s') else strip_non_numeric s'
  end.

(** ** Cells *)

(** A cell of a frame: [None], [nan], an integer, a float, or text. A
    float is carried as the decimal [m * 10^-e] that [repr] prints for it
    (the shortest decimal that reads back as the same binary64), so a float
    is told from the others by value; rounding the result of a parse to
    binary64 (beyond 15 significant digits) is outside the model. *)
Inductive value : Type :=
| VNone
| VNaN
| VInt (z : Z)
| VFloat (m : Z) (e : nat)
| VStr (s : string).

Global Instance value_eq_dec : EqDecision value.
Proof. solve_decision. Defined.

(** [pd.isna] on a scalar. *)
Definition isna (v : value) : bool :=
  match v with
  | VNone | VNaN => true
  | _ => false
  end.

(** Decimal numerals. *)
Fixpoint digits_of (fuel : nat) (n : Z) (acc : string) : string :=
  match fuel with
  | O => acc
  | S fuel' =>
      let acc' := String (ascii_of_nat (Z.to_nat (48 + n mod 10))) acc in
      if n / 10 =? 0 then acc' else digits_of fuel' (n / 10) acc'
  end.

Definition str_nat (n : Z) : string := digits_of (S (Z.to_nat (Z.log2 n))) n EmptyString.

Definition str_int (z : Z) : string :=
  if z <? 0 then String "-"%char (str_nat (- z)) else str_nat z.

(** A decimal without trailing zeros in its fraction. *)
Fixpoint dec_norm (m : Z) (e : nat) : Z * nat :=
  match e with
  | O => (m, O)
  | S e' => if m mod 10 =? 0 then dec_norm (m / 10) e' else (m, e)
  end.

(** [s] padded on the left with zeros to [n] characters. *)
Definition pad_zeros (n : nat) (s : string) : string :=
  String.append (string_of_list_ascii (repeat "0"%char (n - String.length s))) s.

(** A numeral without its trailing zeros. *)
Fixpoint rstrip_zeros (s : string) : string :=
  match s with
  | EmptyString => EmptyString
  | String c s' =>
      match rstrip_zeros s' with
      | EmptyString => if ascii_dec c "0"%char then EmptyString else String c EmptyString
      | t => String c t
      end
  end.

(** [repr] of a float (format code ['r']). With [decpt] the number of
    digits before the decimal point (negative for zeros after it), the
    notation is positional when [-4 < decpt <= 16], with at least one digit
    on each side of the point, and otherwise the exponent notation
    [d.ddde+XX], the exponent written with two digits at least. *)
Definition str_float (m : Z) (e : nat) : string :=
  let '(m', e') := dec_norm m e in
  let a := Z.abs m' in
  let sign := if m' <? 0 then "-" else EmptyString in
  let ds := str_nat a in
  let decpt := Z.of_nat (String.length ds) - Z.of_nat e' in
  let body :=
    if a =? 0 then "0.0"
    else if (-4 <? decpt) && (decpt <=? 16) then
      let p := 10 ^ Z.of_nat e' in
      let frac := if (e' =? 0)%nat then "0" else pad_zeros e' (str_nat (a mod p)) in
      String.append (str_nat (a / p)) (String "."%char frac)
    else
      match rstrip_zeros ds with
      | EmptyString => "0.0"
      | String c rest =>
          let x := decpt - 1 in
          let point := match rest with
                       | EmptyString => EmptyString
                       | String _ _ => String "."%char rest
                       end in
          String c
            (String.append point
               (String "e"%char
                  (String.append (if x <? 0 then "-" else "+")
                     (pad_zeros 2 (str_nat (Z.abs x))))))
      end in
  String.append sign body.

(** [str(v)], which is also what [Series.astype(str)] applies to each
    cell (pandas 1 and 2: missing values become the texts ['None'] and
    ['nan']). *)
Definition py_str (v : value) : string :=
  match v with
  | VNone => "None"
  | VNaN => "nan"
  | VInt z => str_int z
  | VFloat m e => str_float m e
  | VStr s => s
  end.

(** What [drop_duplicates] and [merge] compare: missing values are all
    equal to one another, and an integer equals the float of the same
    value. *)
Inductive key_code : Type :=
| KNull
| KNum (m : Z) (e : nat)
| KStr (s : string).

Global Instance key_code_eq_dec : EqDecision key_code.
Proof. solve_decision. Defined.

Definition code_of (v : value) : key_code :=
  match v with
  | VNone | VNaN => KNull
  | VInt z => KNum z O
  | VFloat m e => let '(m', e') := dec_norm m e in KNum m' e'
  | VStr s => KStr s
  end.

(** ** pd.to_numeric(..., errors='coerce') on stripped text *)

(** The float parser reads an optional minus sign, digits, and optionally
    a point and more digits; it needs one digit at least and must consume
    the whole string. [scan_digits] returns the digits read, their value
    appended to [acc], and the rest. *)
Fixpoint scan_digits (s : string) (acc : Z) (n : nat) : Z * nat * string :=
  match s with
  | String c s' =>
      if isdigit c then scan_digits s' (10 * acc + digit_value c) (S n)
      else (acc, n, s)
  | EmptyString => (acc, n, s)
  end.

Definition parse_unsigned (s : string) : option value :=
  let '(ip, ni, rest) := scan_digits s 0 O in
  match rest with
  | EmptyString => if (ni =? 0)%nat then None else Some (VInt ip)
  | String c rest' =>
      if ascii_dec c "."%char then
        let '(m, nf, rest'') := scan_digits rest' ip O in
        match rest'' with
        | EmptyString => if (ni + nf =? 0)%nat then None else Some (VFloat m nf)
        | String _ _ => None
        end
      else None
  end.

Definition negate (v : value) : value :=
  match v with
  | VInt z => VInt (- z)
  | VFloat m e => VFloat (- m) e
  | _ => v
  end.

Definition to_numeric (s : string) : value :=
  let r :=
    match s with
    | String c s' =>
        if ascii_dec c "-"%char then negate <$> parse_unsigned s'
        else parse_unsigned s
    | EmptyString => None
    end in
  default VNaN r.

(** [pd.to_numeric(col.astype(str).str.replace(r'[^0-9.-]', '', regex=True),
    errors='coerce')] on one cell. *)
Definition coerce_numeric (v : value) : value :=
  to_numeric (strip_non_numeric (py_str v)).


(** ** Exceptions *)

Inductive exn : Type :=
| KeyError
| ValueError
| AttributeError
| InvalidIndexError
| MergeError
| ArrowInvalid
| ArrowTypeError.

Inductive result (A : Type) : Type :=
| Ok (a : A)
| Raise (e : exn).

Arguments Ok {A} a.
Arguments Raise {A} e.

Definition bind {A B : Type} (m : result A) (k : A -> result B) : result B :=
  match m with
  | Ok a => k a
  | Raise e => Raise e
  end.

Global Instance result_bind : MBind result := fun A B k m => bind m k.

Fixpoint traverse {A B : Type} (f : A -> result B) (l : list A) : result (list B) :=
  match l with
  | [] => Ok []
  | x :: l' => y ← f x; ys ← traverse f l'; Ok (y :: ys)
  end.

(** ** Frames *)

Abbreviation row := (list value).

(** A DataFrame: the column labels, in order and possibly repeated, and
    the rows, each holding one cell per column. The row index is not
    modelled: every use in the pipeline ignores or drops it. *)
Record DataFrame : Type := mkDF { columns : list string; rows : list row }.

Global Instance DataFrame_eq_dec : EqDecision DataFrame.
Proof. solve_decision. Defined.

(** [pd.DataFrame()] *)
Definition empty_frame : DataFrame := mkDF [] [].

(** [df.empty] *)
Definition is_empty (df : DataFrame) : bool :=
  match columns df, rows df with
  | [], _ | _, [] => true
  | _, _ => false
  end.

(** [c in df.columns] *)
Definition has_column (c : string) (df : DataFrame) : bool :=
  bool_decide (c ∈ columns df).

(** How many columns carry the label [c]. *)
Definition label_count (c : string) (df : DataFrame) : nat :=
  length (filter (fun l => l = c) (columns df)).

(** [df.rename(columns=f)] *)
Definition rename (f : string -> string) (df : DataFrame) : DataFrame :=
  mkDF (f <$> columns df) (rows df).

(** The cell of row [r] under the first column labelled [c]; [nan] when no
    column has that label. *)
Fixpoint cell (cols : list string) (r : row) (c : string) : value :=
  match cols, r with
  | l :: cols', v :: r' => if decide (l = c) then v else cell cols' r' c
  | _, _ => VNaN
  end.

(** Row [r] with [v] under every column labelled [c]. *)
Fixpoint set_cells (cols : list string) (r : row) (c : string) (v : value) : row :=
  match cols, r with
  | l :: cols', x :: r' =>
      (if decide (l = c) then v else x) :: set_cells cols' r' c v
  | _, _ => r
  end.

(** [df[c] = series], the series given by its value on each row: an
    existing label is overwritten in place (in every column carrying it), a
    new one is appended as the last column. *)
Definition assign (c : string) (f : row -> value) (df : DataFrame) : DataFrame :=
  if has_column c df
  then mkDF (columns df) ((fun r => set_cells (columns df) r c (f r)) <$> rows df)
  else mkDF (columns df ++ [c]) ((fun r => r ++ [f r]) <$> rows df).

(** Labels in order of first appearance. *)
Fixpoint unique_labels (l : list string) : list string :=
  match l with
  | [] => []
  | c :: l' => c :: filter (fun x => x <> c) (unique_labels l')
  end.

(** [df.reindex(columns=new)] on one row: absent columns become [nan]. *)
Definition reindex (new old : list string) (r : row) : row :=
  cell old r <$> new.

(** [pd.concat(frames, ignore_index=True, sort=False)]. When all frames
    carry the same labels the rows are stacked as they are; otherwise the
    result has the labels of all frames in order of first appearance, and
    each frame whose labels differ from those is reindexed, which pandas
    refuses for a frame with a repeated label. *)
Definition concat_columns (frames : list DataFrame) : list string :=
  match frames with
  | [] => []
  | f0 :: _ =>
      if forallb (fun f => bool_decide (columns f = columns f0)) frames
      then columns f0
      else unique_labels (concat (columns <$> frames))
  end.

Definition concat_rows (target : list string) (f : DataFrame) : result (list row) :=
  if decide (columns f = target) then Ok (rows f)
  else if decide (NoDup (columns f)) then Ok (reindex target (columns f) <$> rows f)
  else Raise InvalidIndexError.

Definition pd_concat (frames : list DataFrame) : result DataFrame :=
  match frames with
  | [] => Raise ValueError
  | _ :: _ =>
      let target := concat_columns frames in
      rs ← traverse (concat_rows target) frames;
      Ok (mkDF target (concat rs))
  end.

(** The key of a row: the codes of its cells under the columns whose label
    is in [subset], in column order. *)
Fixpoint key_of (cols subset : list string) (r : row) : list key_code :=
  match cols, r with
  | l :: cols', v :: r' =>
      if decide (l ∈ subset) then code_of v :: key_of cols' subset r'
      else key_of cols' subset r'
  | _, _ => []
  end.

(** Keep, of the elements sharing a key, the last one; the survivors stay
    in order. *)
Fixpoint keep_last {A K : Type} `{EqDecision K} (key : A -> K) (l : list A) : list A :=
  match l with
  | [] => []
  | x :: l' =>
      if decide (key x ∈ key <$> l') then keep_last key l'
      else x :: keep_last key l'
  end.

(** [df.drop_duplicates(subset=subset, keep='last')]: an empty frame is
    returned as it is, a label of [subset] that is no column is a
    KeyError. *)
Definition drop_duplicates (subset : list string) (df : DataFrame) : result DataFrame :=
  if is_empty df then Ok df
  else if forallb (fun c => has_column c df) subset
  then Ok (mkDF (columns df) (keep_last (key_of (columns df) subset) (rows df)))
  else Raise KeyError.

(** [df.to_parquet(path, index=False)]. The writer refuses repeated column
    names (ValueError), and then converts the columns one after the other.
    A column of numbers and a column of text (each with missing cells) have
    an Arrow type; a column that holds both has none: the conversion takes
    the type of the first cell that is not missing and raises at the first
    cell of the other kind, ArrowInvalid when it expected a number and
    ArrowTypeError when it expected text. What is written is what
    [pd.read_parquet] gives back. *)
Definition is_text (v : value) : bool :=
  match v with
  | VStr _ => true
  | _ => false
  end.

Definition is_number (v : value) : bool :=
  match v with
  | VInt _ | VFloat _ _ => true
  | _ => false
  end.

(** The cells under the label [c], from the first row to the last. *)
Definition column_cells (df : DataFrame) (c : string) : list value :=
  (fun r => cell (columns df) r c) <$> rows df.

Fixpoint arrow_check (cells : list value) : option exn :=
  match cells with
  | [] => None
  | v :: rest =>
      if is_number v then
        if existsb is_text rest then Some ArrowInvalid else None
      else if is_text v then
        if existsb is_number rest then Some ArrowTypeError else None
      else arrow_check rest
  end.

Fixpoint first_error (checks : list (option exn)) : option exn :=
  match checks with
  | [] => None
  | Some e :: _ => Some e
  | None :: rest => first_error rest
  end.

Definition to_parquet (df : DataFrame) : result DataFrame :=
  if decide (NoDup (columns df)) then
    match first_error ((fun c => arrow_check (column_cells df c)) <$> columns df) with
    | Some e => Raise e
    | None => Ok df
    end
  else Raise ValueError.

(** [left.merge(right, on=on, how='left', suffixes=(ls, rs))], for frames
    whose labels are not repeated (both arguments come out of
    [to_parquet]). A non-key label present on both sides gets the suffix of
    its side. Each left row is followed through the right rows with the same
    key, in their order; a left row without a match appears once, with
    [nan] in the right-hand columns. *)
Fixpoint without_label (cols : list string) (r : row) (c : string) : row :=
  match cols, r with
  | l :: cols', v :: r' =>
      if decide (l = c) then without_label cols' r' c
      else v :: without_label cols' r' c
  | _, _ => []
  end.

Definition merge_labels_left (lcols rcols : list string) (on ls : string) : list string :=
  (fun l => if decide (l <> on /\ l ∈ rcols) then String.append l ls else l) <$> lcols.

Definition merge_labels_right (lcols rcols : list string) (on rs : string) : list string :=
  (fun l => if decide (l ∈ lcols) then String.append l rs else l)
    <$> filter (fun l => l <> on) rcols.

Definition merge_row (left right : DataFrame) (on : string) (lr : row) : list row :=
  let k := code_of (cell (columns left) lr on) in
  match filter (fun rr => code_of (cell (columns right) rr on) = k) (rows right) with
  | [] => [lr ++ ((fun _ => VNaN) <$> filter (fun l => l <> on) (columns right))]
  | ms => (fun rr => lr ++ without_label (columns right) rr on) <$> ms
  end.

Definition merge_left (left right : DataFrame) (on ls rs : string) : result DataFrame :=
  if negb (has_column on left && has_column on right) then Raise KeyError
  else
    let ll := merge_labels_left (columns left) (columns right) on ls in
    let rl := merge_labels_right (columns left) (columns right) on rs in
    if decide (NoDup ll /\ NoDup rl)
    then Ok (mkDF (ll ++ rl) (flat_map (merge_row left right on) (rows left)))
    else Raise MergeError.

(** ** The pipeline *)

(** [country_id_from_name] *)
Definition country_id_from_name (name : value) : string :=
  let name := if isna name then VStr EmptyString else name in
  let key := lower (strip (re_sub_ws " " (py_str name))) in
  Hashlib.md5 key.

(** [normalize_columns] *)
Definition normalize_columns (df : DataFrame) : DataFrame :=
  rename (fun c => re_sub_ws "_" (lower (strip c))) df.

(** The loop [for c in aliases: if c in df.columns: df = df.rename(columns=
    {c: 'country'}); break]. *)
Fixpoint rename_first_alias (aliases : list string) (df : DataFrame) : DataFrame :=
  match aliases with
  | [] => df
  | c :: rest =>
      if has_column c df
      then rename (fun l => if decide (l = c) then "country" else l) df
      else rename_first_alias rest df
  end.

(** [if 'country' not in df.columns: df['country'] = None] *)
Definition ensure_country (df : DataFrame) : DataFrame :=
  if has_column "country" df then df else assign "country" (fun _ => VNone) df.

(** [df[c] = pd.to_numeric(df[c].astype(str).str.replace(...), errors=
    'coerce')] for a label [c] of [df]. Under a repeated label [df[c]] is a
    DataFrame, which has no [.str]. *)
Definition coerce_column (c : string) (df : DataFrame) : result DataFrame :=
  if (label_count c df =? 1)%nat
  then Ok (assign c (fun r => coerce_numeric (cell (columns df) r c)) df)
  else Raise AttributeError.

(** [df['country_id'] = df['country'].astype(str).apply(country_id_from_name)].
    The cell is turned into text before the function sees it. Under a
    repeated label the function is applied to whole columns and its test
    [if pd.isna(name)] raises. *)
Definition assign_country_id (df : DataFrame) : result DataFrame :=
  if (label_count "country" df =? 1)%nat
  then Ok (assign "country_id"
             (fun r => VStr (country_id_from_name
                               (VStr (py_str (cell (columns df) r "country")))))
             df)
  else Raise ValueError.

Definition medals : list string := ["gold"; "silver"; "bronze"; "total"; "rank"].

Fixpoint coerce_medals (ms : list string) (df : DataFrame) : result DataFrame :=
  match ms with
  | [] => Ok df
  | m :: rest =>
      if has_column m df
      then df' ← coerce_column m df; coerce_medals rest df'
      else coerce_medals rest df
  end.

(** [int(m.group(1)) if m else None] for [m = re.search(r'(\d{4})', name)] *)
Definition year_of_filename (name : string) : value :=
  match re_search_d4 name with
  | Some g => VInt (int_of_digits g)
  | None => VNone
  end.

(** The body of the loop of [read_olympics_files], on the frame [df] read
    from the file called [name]. *)
Definition olympics_frame (name : string) (df : DataFrame) : result DataFrame :=
  let year := year_of_filename name in
  let df := normalize_columns df in
  let df := assign "source_file" (fun _ => VStr name) df in
  let df := assign "year" (fun _ => year) df in
  let df := rename_first_alias ["nation"; "country"; "team"] df in
  let df := ensure_country df in
  df ← coerce_medals medals df;
  assign_country_id df.

(** [sorted(OLY_DIR.glob('*.csv'))]: the files of one directory, ordered by
    name. *)
Fixpoint insert_file (f : string * DataFrame) (l : list (string * DataFrame))
  : list (string * DataFrame) :=
  match l with
  | [] => [f]
  | g :: l' => if String.leb f.1 g.1 then f :: l else g :: insert_file f l'
  end.

Definition sorted (files : list (string * DataFrame)) : list (string * DataFrame) :=
  foldr insert_file [] files.

(** [read_olympics_files]; the argument is the directory: [None] when it
    does not exist, else its CSV files as [pd.read_csv] parses them. *)
Definition read_olympics_files (dir : option (list (string * DataFrame)))
  : result DataFrame :=
  match dir with
  | None => Ok empty_frame
  | Some files =>
      frames ← traverse (fun f => olympics_frame f.1 f.2) (sorted files);
      match frames with
      | [] => Ok empty_frame
      | _ :: _ => pd_concat frames
      end
  end.

Definition build_olympics_table := read_olympics_files.

(** [re.search(r'(population|area|density|gdp|percapita|index|%|rate)', col)] *)
Definition numeric_like (col : string) : bool :=
  existsb (fun p => contains p col)
    ["population"; "area"; "density"; "gdp"; "percapita"; "index"; "%"; "rate"].

Fixpoint coerce_numeric_like (cols : list string) (df : DataFrame) : result DataFrame :=
  match cols with
  | [] => Ok df
  | c :: rest =>
      if numeric_like c
      then df' ← coerce_column c df; coerce_numeric_like rest df'
      else coerce_numeric_like rest df
  end.

(** [build_countries_table]; the argument is the reference file, [None]
    when it does not exist. *)
Definition build_countries_table (csv : option DataFrame) : result DataFrame :=
  match csv with
  | None => Ok empty_frame
  | Some df =>
      let df := normalize_columns df in
      let df := rename_first_alias ["country"; "name"; "country_name"] df in
      let df := ensure_country df in
      df ← assign_country_id df;
      coerce_numeric_like (columns df) df
  end.

(** [upsert_parquet]; [existing] is the file at [out_path], [None] when
    there is none. The frame returned is also the new content of the
    file. *)
Definition upsert_parquet (existing : option DataFrame) (df : DataFrame)
    (key_cols : list string) : result DataFrame :=
  combined ←
    match existing with
    | Some ex =>
        combined ← pd_concat [ex; df];
        drop_duplicates key_cols combined
    | None => Ok df
    end;
  to_parquet combined.

(** The files the pipeline reads and writes. *)
Record files : Type := mkFiles {
  countries_csv : option DataFrame;
  olympics_dir : option (list (string * DataFrame));
  countries_parquet : option DataFrame;
  olympics_parquet : option DataFrame;
  denormalized_parquet : option DataFrame
}.

Record artifacts : Type := mkArtifacts {
  countries : DataFrame;
  olympics : DataFrame;
  merged : DataFrame
}.

Definition write_countries (d : DataFrame) (fs : files) : files :=
  mkFiles (countries_csv fs) (olympics_dir fs) (Some d) (olympics_parquet fs)
          (denormalized_parquet fs).

Definition write_olympics (d : DataFrame) (fs : files) : files :=
  mkFiles (countries_csv fs) (olympics_dir fs) (countries_parquet fs) (Some d)
          (denormalized_parquet fs).

Definition write_denormalized (d : DataFrame) (fs : files) : files :=
  mkFiles (countries_csv fs) (olympics_dir fs) (countries_parquet fs)
          (olympics_parquet fs) (Some d).

(** [run_pipeline]: the files afterwards and the value returned. A step that
    raises leaves what earlier steps wrote. *)
Definition run_pipeline (fs : files) : files * result artifacts :=
  match c ← build_countries_table (countries_csv fs);
        upsert_parquet (countries_parquet fs) c ["country_id"] with
  | Raise e => (fs, Raise e)
  | Ok countries_written =>
      let fs := write_countries countries_written fs in
      match o ← build_olympics_table (olympics_dir fs);
            upsert_parquet (olympics_parquet fs) o ["country_id"; "year"] with
      | Raise e => (fs, Raise e)
      | Ok olympics_written =>
          let fs := write_olympics olympics_written fs in
          match m ← merge_left olympics_written countries_written
                       "country_id" "_olymp" "_country";
                to_parquet m with
          | Raise e => (fs, Raise e)
          | Ok m =>
              (write_denormalized m fs,
               Ok (mkArtifacts countries_written olympics_written m))
          end
      end
  end.


(** ** Notions used in the statements *)

(** A frame as [pd.read_csv] and the pipeline produce them: every row has
    one cell per column, and a frame without columns has no rows. *)
Definition rectangular (df : DataFrame) : Prop :=
  Forall (fun r => length r = length (columns df)) (rows df).

Definition well_formed (df : DataFrame) : Prop :=
  rectangular df /\ (columns df = [] -> rows df = []).

(** The key of a row as a reader of the table sees it: the codes of its
    cells under the key columns, in the order the key columns are given. *)
Definition row_key (cols keys : list string) (r : row) : list key_code :=
  (fun c => code_of (cell cols r c)) <$> keys.

Global Instance rectangular_dec df : Decision (rectangular df).
Proof. unfold rectangular. apply _. Defined.

Global Instance well_formed_dec df : Decision (well_formed df).
Proof. unfold well_formed. apply _. Defined.

(** File names in the order of [sorted]. *)
Definition file_le (f g : string * DataFrame) : Prop := String.leb f.1 g.1 = true.

(** The rows one frame contributes to a concatenation with labels
    [target]. *)
Definition stacked (target : list string) (f : DataFrame) : list row :=
  if decide (columns f = target) then rows f
  else reindex target (columns f) <$> rows f.

Arguments stacked : simpl never.
Arguments concat_columns : simpl never.

(** The rows of the prior table followed by those of the batch, over the
    labels of the concatenation. *)
Definition combined_rows (S T : DataFrame) : list row :=
  let U := concat_columns [S; T] in
  (reindex U (columns S) <$> rows S) ++ (reindex U (columns T) <$> rows T).

(** Cells that cannot share a column of a parquet file: text in one and a
    number in another. *)
Definition mixed (cells : list value) : Prop :=
  Exists (fun v => is_text v = true) cells
  /\ Exists (fun v => is_number v = true) cells.

(** No column of [df] holds both text and numbers, as in every table
    read back from a parquet file. *)
Definition one_type (df : DataFrame) : Prop :=
  Forall (fun c => ~ mixed (column_cells df c)) (columns df).

(** No label holds both text and numbers, over the rows of [S] and [T]
    together. *)
Definition same_types (S T : DataFrame) : Prop :=
  Forall (fun c => ~ mixed (column_cells S c ++ column_cells T c))
         (columns S ++ columns T).

Global Instance mixed_dec cells : Decision (mixed cells).
Proof. unfold mixed. apply _. Defined.

Global Instance one_type_dec df : Decision (one_type df).
Proof. unfold one_type. apply _. Defined.

Global Instance same_types_dec S T : Decision (same_types S T).
Proof. unfold same_types. apply _. Defined.

(** Every row of [df] holds [v] under the (first) column labelled [c]. *)
Definition column_is (c : string) (v : value) (df : DataFrame) : Prop :=
  c ∈ columns df /\ forall r, r ∈ rows df -> cell (columns df) r c = v.

(** [out] has a row for each row of [df] and the column [c] is left as it
    was. *)
Definition preserves (c : string) (df out : DataFrame) : Prop :=
  rectangular df ->
  rectangular out /\ length (rows out) = length (rows df)
  /\ forall v, column_is c v df -> column_is c v out.

(** [d] is a run of four digits at position [i] of [s]. *)
Definition four_digits_at (s : string) (i : nat) (d : string) : Prop :=
  String.substring i 4 s = d /\ String.length d = 4%nat
  /\ Forall (fun c => isdigit c = true) (list_ascii_of_string d).

(** A decimal digit, by its character code. *)
Definition decimal_digit (c : ascii) : Prop := (48 <= nat_of_ascii c <= 57)%nat.

Global Instance decimal_digit_dec c : Decision (decimal_digit c).
Proof. unfold decimal_digit. apply _. Defined.

(** The number a run of decimal digits writes, by place value. *)
Fixpoint place_value (ds : list ascii) : Z :=
  match ds with
  | [] => 0
  | c :: ds' =>
      (Z.of_nat (nat_of_ascii c) - 48) * 10 ^ Z.of_nat (length ds') + place_value ds'
  end.

(** The characters the coercion keeps: digits, the point and the minus
    sign. *)
Definition numeric_symbol (c : ascii) : Prop :=
  decimal_digit c \/ c = "."%char \/ c = "-"%char.

Global Instance numeric_symbol_dec c : Decision (numeric_symbol c).
Proof. unfold numeric_symbol. apply _. Defined.

(** The numerals that are left to read once only those characters remain,
    and the number each denotes: an optional minus sign followed by digits
    (an integer), or by digits, a point and digits, with a digit on one side
    of the point at least (a float, carried as a decimal). *)
Inductive numeral : string -> value -> Prop :=
| numeral_int (neg : bool) (ds : list ascii) :
    ds <> [] -> Forall decimal_digit ds ->
    numeral (string_of_list_ascii ((if neg then ["-"%char] else []) ++ ds))
            (VInt ((if neg then -1 else 1) * place_value ds))
| numeral_float (neg : bool) (ds fs : list ascii) :
    ds ++ fs <> [] -> Forall decimal_digit ds -> Forall decimal_digit fs ->
    numeral (string_of_list_ascii
               ((if neg then ["-"%char] else []) ++ ds ++ "."%char :: fs))
            (VFloat ((if neg then -1 else 1) * place_value (ds ++ fs)) (length fs)).

(** The reference side of the output row of a fact row. *)
Definition reference_side (left right : DataFrame) (on : string) (lr : row) : row :=
  match filter (fun rr => code_of (cell (columns right) rr on)
                          = code_of (cell (columns left) lr on)) (rows right) with
  | [] => (fun _ => VNaN) <$> filter (fun l => l <> on) (columns right)
  | rr :: _ => without_label (columns right) rr on
  end.

(** ** Concrete runs *)

Definition fact_keys : list string := ["country_id"; "year"].

(** A prior fact table and a batch naming the same key twice. *)
Definition prior_fact : DataFrame :=
  mkDF ["country_id"; "year"; "gold"] [[VStr "fr"; VInt 2000; VInt 1]].

Definition batch_fact : DataFrame :=
  mkDF ["country_id"; "year"; "gold"]
       [[VStr "fr"; VInt 2000; VInt 2]; [VStr "fr"; VInt 2000; VInt 3]].

Definition merged_fact : DataFrame :=
  mkDF ["country_id"; "year"; "gold"] [[VStr "fr"; VInt 2000; VInt 3]].

(** A prior table and a batch whose ['notes'] column holds numbers in the
    one and text in the other. *)
Definition prior_notes : DataFrame :=
  mkDF ["country_id"; "year"; "notes"]
       [[VStr "de"; VInt 2000; VInt 5]; [VStr "fr"; VInt 2000; VInt 1]].

Definition batch_notes : DataFrame :=
  mkDF ["country_id"; "year"; "notes"]
       [[VStr "fr"; VInt 2000; VStr "x"]; [VStr "fr"; VInt 2000; VStr "y"]].

(** A file whose name holds a year. *)
Definition athens_1896 : DataFrame :=
  mkDF ["Nation"; "Gold"] [[VStr "Greece"; VInt 10]; [VStr "France"; VInt 5]].

(** Two files of one year that both list France, and a reference file. *)
Definition medals_2000 : DataFrame :=
  mkDF ["Team"; "Gold"] [[VStr "France"; VInt 13]].

Definition results_2000 : DataFrame :=
  mkDF ["Nation"; "Gold"; "Total"] [[VStr "France"; VInt 13; VStr "38"]].

Definition two_files : list (string * DataFrame) :=
  [("results_2000.csv", results_2000); ("medals_2000.csv", medals_2000)].

Definition reference_csv : DataFrame :=
  mkDF ["Country"; "Population"] [[VStr "France"; VStr "60,000,000"]].

(** A reference file that lists France twice. *)
Definition reference_twice : DataFrame :=
  mkDF ["Country"; "Population"]
       [[VStr "France"; VStr "60,000,000"]; [VStr "France "; VStr "60,876,136"]].

Definition first_run (csv : DataFrame) (dir : list (string * DataFrame)) : files :=
  mkFiles (Some csv) (Some dir) None None None.

Definition ok_or {A : Type} (d : A) (r : result A) : A :=
  match r with
  | Ok a => a
  | Raise _ => d
  end.

Definition two_files_batch : DataFrame :=
  Eval vm_compute in ok_or empty_frame (read_olympics_files (Some two_files)).

Definition medals_frame : DataFrame :=
  Eval vm_compute in ok_or empty_frame (olympics_frame "medals_2000.csv" medals_2000).

Definition results_frame : DataFrame :=
  Eval vm_compute in ok_or empty_frame (olympics_frame "results_2000.csv" results_2000).

Definition athens_frame : DataFrame :=
  Eval vm_compute in ok_or empty_frame (olympics_frame "athens_1896.csv" athens_1896).

Definition earlier_fact : DataFrame :=
  mkDF ["country"; "gold"; "source_file"; "year"; "country_id"]
       [[VStr "France"; VInt 12; VStr "old_2000.csv"; VInt 2000;
         VStr "e165d4f2174b66a7d1a95cb204d296eb"]].

Definition two_files_merged : DataFrame :=
  Eval vm_compute in
    ok_or empty_frame (upsert_parquet (Some earlier_fact) two_files_batch fact_keys).

Definition france_2000 : list key_code :=
  [KStr "e165d4f2174b66a7d1a95cb204d296eb"; KNum 2000 0].

Definition after_first_run : files :=
  Eval vm_compute in (run_pipeline (first_run reference_csv two_files)).1.

(** The same files once the olympics directory has been emptied. *)
Definition directory_emptied (fs : files) : files :=
  mkFiles (countries_csv fs) (Some []) (countries_parquet fs) (olympics_parquet fs)
          (denormalized_parquet fs).

(** A batch with a column the prior table lacks. *)
Definition batch_with_silver : DataFrame :=
  mkDF ["country_id"; "year"; "silver"] [[VStr "es"; VInt 2000; VInt 4]].

Definition merged_with_silver : DataFrame :=
  Eval vm_compute in
    ok_or empty_frame (upsert_parquet (Some prior_fact) batch_with_silver fact_keys).

(** The reference tables built from the two reference files, and the fact
    table joined to the one that lists France twice. *)
Definition reference_table : DataFrame :=
  Eval vm_compute in ok_or empty_frame (build_countries_table (Some reference_csv)).

Definition reference_table_twice : DataFrame :=
  Eval vm_compute in ok_or empty_frame (build_countries_table (Some reference_twice)).

Definition joined_twice : DataFrame :=
  Eval vm_compute in
    ok_or empty_frame
      (merge_left two_files_merged reference_table_twice
                  "country_id" "_olymp" "_country").

(** The files and the artifacts a second run leaves. *)
Definition after_second_run : files :=
  Eval vm_compute in (run_pipeline after_first_run).1.

Definition second_run_artifacts : artifacts :=
  Eval vm_compute in
    ok_or (mkArtifacts empty_frame empty_frame empty_frame)
          (run_pipeline after_first_run).2.

(** A reference file and nothing else. *)
Definition reference_only : files :=
  mkFiles (Some reference_csv) None None None None.

(** ** Notions used in the further properties *)

(** A lower-case hexadecimal digit. *)
Definition is_hex_char (c : ascii) : bool :=
  let n := nat_of_ascii c in
  ((48 <=? n)%nat && (n <=? 57)%nat) || ((97 <=? n)%nat && (n <=? 102)%nat).

(** The [key] of [country_id_from_name] for a name given as text. *)
Definition name_key (s : string) : string := lower (strip (re_sub_ws " " s)).

(** The label [normalize_columns] gives a column. *)
Definition normalized_label (c : string) : string := re_sub_ws "_" (lower (strip c)).

(** No whitespace but single blanks between other characters; [after_ws]
    tells that the character before was whitespace. *)
Fixpoint tidy (after_ws : bool) (s : string) : bool :=
  match s with
  | EmptyString => true
  | String c s' =>
      if isspace c
      then negb after_ws && (if ascii_dec c " "%char then true else false) && tidy true s'
      else tidy false s'
  end.

Definition no_space (s : string) : Prop :=
  Forall (fun c => isspace c = false) (list_ascii_of_string s).

(** A string that does not begin with whitespace. *)
Definition starts_clean (s : string) : Prop :=
  match s with
  | EmptyString => True
  | String c _ => isspace c = false
  end.

Definition only_space (s : string) : Prop :=
  Forall (fun c => isspace c = true) (list_ascii_of_string s).

Definition is_upper (c : ascii) : bool :=
  let n := nat_of_ascii c in (65 <=? n)%nat && (n <=? 90)%nat.

Definition no_upper (s : string) : Prop :=
  Forall (fun c => is_upper c = false) (list_ascii_of_string s).

(** Every row of [df] holds a cell satisfying [P] under the (first) column
    labelled [c]. *)
Definition column_sat (P : value -> Prop) (c : string) (df : DataFrame) : Prop :=
  c ∈ columns df /\ forall r, r ∈ rows df -> P (cell (columns df) r c).

(** A number or [nan]: what a numeric column of a frame holds. *)
Definition number_or_nan (v : value) : Prop :=
  match v with
  | VInt _ | VFloat _ _ | VNaN => True
  | VNone | VStr _ => False
  end.

(** The token [assign_country_id] gives a row whose name cell is [v]. *)
Definition token_of_cell (v : value) : value :=
  VStr (country_id_from_name (VStr (py_str v))).

(** * Properties *)

(** ** The model on known values *)

Example md5_empty : Hashlib.md5 EmptyString = "d41d8cd98f00b204e9800998ecf8427e".
Proof. by vm_compute. Qed.

Example md5_abc : Hashlib.md5 "abc" = "900150983cd24fb0d6963f7d28e17f72".
Proof. by vm_compute. Qed.

Example md5_two_blocks :
  Hashlib.md5 "12345678901234567890123456789012345678901234567890123456789012345678901234567890"
  = "57edf4a22be3c955ac49da2e2107b67a".
Proof. by vm_compute. Qed.

Example country_id_france :
  country_id_from_name (VStr "  FRANCE ") = "e165d4f2174b66a7d1a95cb204d296eb".
Proof. by vm_compute. Qed.

Example normalize_label :
  columns (normalize_columns (mkDF [" GDP  per Capita "] [])) = ["gdp_per_capita"].
Proof. by vm_compute. Qed.

Example year_first_run : year_of_filename "res_12_20004.csv" = VInt 2000.
Proof. by vm_compute. Qed.

Example year_absent : year_of_filename "athens.csv" = VNone.
Proof. by vm_compute. Qed.

Example year_athens : year_of_filename "athens_1896.csv" = VInt 1896.
Proof. by vm_compute. Qed.

Example year_leading_zeros : year_of_filename "heat-0042b.csv" = VInt 42.
Proof. by vm_compute. Qed.

(** [str] of floats: 1.005, 12.001, 2000.0, -2.5, 0.0001, 1e-05,
    1.2345e-05, 1e+16 and 1.2345678901234568e+17. *)
Example str_of_floats :
  py_str <$> [VFloat 1005 3; VFloat 12001 3; VFloat 2000 0; VFloat (-25) 1;
              VFloat 1 4; VFloat 1 5; VFloat 12345 9; VFloat (10 ^ 16) 0;
              VFloat 123456789012345680 0]
  = ["1.005"; "12.001"; "2000.0"; "-2.5"; "0.0001"; "1e-05"; "1.2345e-05";
     "1e+16"; "1.2345678901234568e+17"].
Proof. by vm_compute. Qed.

(** A float cell keeps its value unless [str] writes it with an exponent:
    the letter and the plus sign are stripped, so 1e-05 reads ['1-05'] and
    is lost, and 1e+16 reads ['116']. *)
Example coerce_float_cells :
  coerce_numeric <$> [VFloat 1005 3; VFloat 1 5; VFloat (10 ^ 16) 0]
  = [VFloat 1005 3; VNaN; VInt 116].
Proof. by vm_compute. Qed.

Example coerce_negative :
  coerce_numeric <$> [VStr "-5"; VStr "- 0.5 pts"; VStr "-"; VStr "."; VStr "5."]
  = [VInt (-5); VFloat (-5) 1; VNaN; VNaN; VFloat 5 0].
Proof. by vm_compute. Qed.

(** The writer takes the type of a column from its first cell that is not
    missing. *)
Example to_parquet_mixed :
  to_parquet (mkDF ["a"] [[VNaN]; [VInt 5]; [VStr "y"]]) = Raise ArrowInvalid
  /\ to_parquet (mkDF ["a"] [[VStr "y"]; [VNone]; [VInt 5]]) = Raise ArrowTypeError
  /\ to_parquet (mkDF ["a"; "a"] [[VInt 5; VStr "y"]]) = Raise ValueError
  /\ to_parquet (mkDF ["a"; "b"] [[VInt 5; VStr "y"]; [VFloat 5 1; VNone]])
     = Ok (mkDF ["a"; "b"] [[VInt 5; VStr "y"]; [VFloat 5 1; VNone]]).
Proof. repeat split; by vm_compute. Qed.

Example coerce_decimal : coerce_numeric (VStr "12.50 %") = VFloat 1250 2.
Proof. by vm_compute. Qed.

Example coerce_two_signs : coerce_numeric (VStr "1-2") = VNaN.
Proof. by vm_compute. Qed.

Example coerce_float_cell : coerce_numeric (VFloat 1250 2) = VFloat 125 1.
Proof. by vm_compute. Qed.

Example integer_equals_float : code_of (VInt 2000) = code_of (VFloat 20000 1).
Proof. by vm_compute. Qed.

(** The scenario of one fact file and one reference file: a second run
    leaves the three tables as the first wrote them. *)
Example second_run_changes_nothing :
  let fs := first_run reference_csv [("results_2000.csv", results_2000)] in
  (run_pipeline (run_pipeline fs).1).1 = (run_pipeline fs).1
  /\ (run_pipeline (run_pipeline fs).1).2 = (run_pipeline fs).2
  /\ (olympics <$> Some (ok_or (mkArtifacts empty_frame empty_frame empty_frame)
                               (run_pipeline fs).2))
     = Some (mkDF ["country"; "gold"; "total"; "source_file"; "year"; "country_id"]
                  [[VStr "France"; VInt 13; VInt 38; VStr "results_2000.csv";
                    VInt 2000; VStr "e165d4f2174b66a7d1a95cb204d296eb"]]).
Proof. by vm_compute. Qed.

(** ** Keeping the last element per key *)

Section keep_last.
Context {A K : Type} `{EqDecision K} (key : A -> K).

Lemma keep_last_elem_of x l : x ∈ keep_last key l -> x ∈ l.
Proof.
  induction l as [|y l IH]; simpl; [done|].
  destruct (decide (key y ∈ key <$> l)); rewrite ?elem_of_cons; intuition.
Qed.

Lemma keep_last_keys k l : k ∈ key <$> keep_last key l <-> k ∈ key <$> l.
Proof.
  induction l as [|y l IH]; simpl; [done|].
  destruct (decide (key y ∈ key <$> l)) as [Hin|Hin]; simpl;
    rewrite ?elem_of_cons, IH; [|done].
  split; [auto|]. intros [->|?]; auto.
Qed.

Lemma keep_last_NoDup l : NoDup (key <$> keep_last key l).
Proof.
  induction l as [|y l IH]; simpl; [constructor|].
  destruct (decide (key y ∈ key <$> l)) as [Hin|Hin]; [done|].
  simpl. constructor; [|done]. by rewrite keep_last_keys.
Qed.

Lemma keep_last_id l : NoDup (key <$> l) -> keep_last key l = l.
Proof.
  induction l as [|y l IH]; simpl; [done|].
  intros [Hy Hl]%NoDup_cons. rewrite decide_False by done. by rewrite IH.
Qed.

Lemma keep_last_app l1 l2 :
  keep_last key (l1 ++ l2)
  = filter (fun x => key x ∉ key <$> l2) (keep_last key l1) ++ keep_last key l2.
Proof.
  induction l1 as [|y l1 IH]; simpl; [done|].
  rewrite fmap_app.
  destruct (decide (key y ∈ key <$> l1)) as [Hin|Hin].
  - rewrite decide_True by (rewrite elem_of_app; auto). done.
  - destruct (decide (key y ∈ key <$> l2)) as [Hin2|Hin2].
    + rewrite decide_True by (rewrite elem_of_app; auto).
      rewrite filter_cons_False by auto. done.
    + rewrite decide_False by (rewrite elem_of_app; intuition).
      rewrite filter_cons_True by done. simpl. by rewrite IH.
Qed.

Lemma filter_none (P : A -> Prop) `{!forall x, Decision (P x)} (l : list A) :
  (forall x, x ∈ l -> ~ P x) -> filter P l = [].
Proof.
  induction l as [|y l IH]; [done|]. intros Hl.
  rewrite filter_cons_False by (apply Hl; left).
  apply IH. intros x Hx. apply Hl. by right.
Qed.

Lemma filter_all (P : A -> Prop) `{!forall x, Decision (P x)} (l : list A) :
  (forall x, x ∈ l -> P x) -> filter P l = l.
Proof.
  induction l as [|y l IH]; [done|]. intros Hl.
  rewrite filter_cons_True by (apply Hl; left).
  f_equal. apply IH. intros x Hx. apply Hl. by right.
Qed.

(** Merging the same batch into its own result changes nothing. *)
Lemma keep_last_again l1 l2 :
  keep_last key (keep_last key (l1 ++ l2) ++ l2) = keep_last key (l1 ++ l2).
Proof.
  rewrite (keep_last_app (keep_last key (l1 ++ l2)) l2).
  rewrite (keep_last_id (keep_last key (l1 ++ l2))) by apply keep_last_NoDup.
  rewrite (keep_last_app l1 l2) at 1. rewrite filter_app.
  rewrite (filter_none _ (keep_last key l2)).
  - rewrite app_nil_r, list_filter_filter.
    rewrite keep_last_app. f_equal. apply list_filter_iff. tauto.
  - intros x Hx Hn. apply Hn, keep_last_keys. by apply list_elem_of_fmap_2.
Qed.

(** The rows left with the key of [x], when [x] is the last with its key. *)
Lemma keep_last_select l1 x l2 :
  key x ∉ key <$> l2 ->
  filter (fun y => key y = key x) (keep_last key (l1 ++ x :: l2)) = [x].
Proof.
  intros Hx. rewrite keep_last_app, filter_app. simpl.
  rewrite decide_False by done.
  rewrite filter_cons_True by done.
  rewrite (filter_none _ (keep_last key l2)).
  - rewrite list_filter_filter, filter_none; [done|].
    intros y _ [Hy Hn]. apply Hn. rewrite Hy. simpl. left.
  - intros y Hy Hk. apply Hx. rewrite <- Hk.
    apply list_elem_of_fmap_2. by apply keep_last_elem_of in Hy.
Qed.

(** Only the equalities between keys matter. *)
Lemma keep_last_ext {K' : Type} `{EqDecision K'} (key' : A -> K') l :
  (forall x y, x ∈ l -> y ∈ l -> key x = key y <-> key' x = key' y) ->
  keep_last key l = keep_last key' l.
Proof.
  induction l as [|y l IH]; intros Hl; simpl; [done|].
  assert (key y ∈ key <$> l <-> key' y ∈ key' <$> l) as Hiff.
  { rewrite !list_elem_of_fmap. split; intros (z & Hz & Hin); exists z;
      (split; [|done]); apply (Hl y z); (by left) || (by right) || done. }
  rewrite IH by (intros; apply Hl; by right).
  destruct (decide (key y ∈ key <$> l)), (decide (key' y ∈ key' <$> l)); tauto || done.
Qed.

End keep_last.

(** ** Cells, reindexing and keys *)

Lemma cell_absent cols r c : c ∉ cols -> cell cols r c = VNaN.
Proof.
  revert r. induction cols as [|l cols IH]; intros r Hc; [done|].
  destruct r as [|v r]; [done|]. simpl.
  rewrite not_elem_of_cons in Hc. destruct Hc as [Hne Hc].
  rewrite decide_False by done. by apply IH.
Qed.

Lemma cell_reindex new old r c :
  c ∈ new -> cell new (reindex new old r) c = cell old r c.
Proof.
  unfold reindex. induction new as [|l new IH]; intros Hc.
  - by apply elem_of_nil in Hc.
  - simpl. destruct (decide (l = c)) as [->|Hne]; [done|].
    apply elem_of_cons in Hc as [->|Hc]; [done|]. by apply IH.
Qed.

Lemma length_reindex new old r : length (reindex new old r) = length new.
Proof. unfold reindex. by rewrite length_fmap. Qed.

Lemma row_key_reindex new old keys r :
  old ⊆ new -> row_key new keys (reindex new old r) = row_key old keys r.
Proof.
  intros Hsub. unfold row_key. apply list_fmap_ext. intros _ c _.
  destruct (decide (c ∈ new)) as [Hin|Hin].
  - by rewrite cell_reindex.
  - rewrite !cell_absent; [done| |done]. intros Hc. by apply Hin, Hsub.
Qed.

Lemma reindex_id cols r :
  NoDup cols -> length r = length cols -> reindex cols cols r = r.
Proof.
  unfold reindex. revert r.
  induction cols as [|l cols IH]; intros [|v r] Hnd Hlen; try done.
  apply NoDup_cons in Hnd as [Hl Hnd]. simpl in *.
  rewrite decide_True by done. f_equal.
  transitivity (cell cols r <$> cols); [|apply IH; done || lia].
  apply list_fmap_ext. intros _ c Hc%list_elem_of_lookup_2.
  rewrite decide_False; [done|]. by intros ->.
Qed.

Lemma reindex_id_all cols (rs : list row) :
  NoDup cols -> Forall (fun r => length r = length cols) rs ->
  reindex cols cols <$> rs = rs.
Proof.
  intros Hnd Hrs. induction Hrs as [|r rs Hr _ IH]; [done|].
  by rewrite fmap_cons, IH, reindex_id.
Qed.

Lemma key_of_cells cols keys r :
  NoDup cols -> length r = length cols ->
  key_of cols keys r
  = (fun c => code_of (cell cols r c)) <$> filter (fun c => c ∈ keys) cols.
Proof.
  revert r. induction cols as [|l cols IH]; intros [|v r] Hnd Hlen; try done.
  apply NoDup_cons in Hnd as [Hl Hnd]. simpl in *.
  assert ((fun c => code_of (cell cols r c)) <$> filter (fun c => c ∈ keys) cols
          = (fun c => code_of (if decide (l = c) then v else cell cols r c))
              <$> filter (fun c => c ∈ keys) cols) as Heq.
  { apply list_fmap_ext. intros _ c Hc%list_elem_of_lookup_2.
    apply list_elem_of_filter in Hc as [_ Hc].
    rewrite decide_False; [done|]. by intros ->. }
  destruct (decide (l ∈ keys)) as [Hk|Hk].
  - rewrite filter_cons_True by done. simpl.
    rewrite decide_True by done. f_equal. rewrite IH by (done || lia). done.
  - rewrite filter_cons_False by done. rewrite IH by (done || lia). done.
Qed.

(** On a frame whose labels are not repeated and include the key columns,
    two rows have the same pandas key exactly when they agree under every
    key column. *)
Lemma key_of_row_key cols keys r r' :
  NoDup cols -> keys ⊆ cols ->
  length r = length cols -> length r' = length cols ->
  key_of cols keys r = key_of cols keys r'
  <-> row_key cols keys r = row_key cols keys r'.
Proof.
  intros Hnd Hsub Hr Hr'. rewrite !key_of_cells by done. unfold row_key.
  split; intros Heq; apply list_fmap_ext; intros i c Hc%list_elem_of_lookup_2.
  - assert (c ∈ filter (fun c => c ∈ keys) cols) as Hin
      by (apply list_elem_of_filter; auto).
    apply list_elem_of_lookup in Hin as [j Hj].
    apply (f_equal (fun l => l !! j)) in Heq.
    rewrite !list_lookup_fmap, Hj in Heq. simpl in Heq. congruence.
  - apply list_elem_of_filter in Hc as [Hc _].
    apply list_elem_of_lookup in Hc as [j Hj].
    apply (f_equal (fun l => l !! j)) in Heq.
    rewrite !list_lookup_fmap, Hj in Heq. simpl in Heq. congruence.
Qed.

(** ** Labels in order of first appearance *)

Lemma unique_labels_elem_of c l : c ∈ unique_labels l <-> c ∈ l.
Proof.
  induction l as [|x l IH]; simpl; [done|].
  rewrite !elem_of_cons, list_elem_of_filter, IH.
  destruct (decide (c = x)); intuition.
Qed.

Lemma unique_labels_NoDup l : NoDup (unique_labels l).
Proof.
  induction l as [|x l IH]; simpl; constructor.
  - rewrite list_elem_of_filter. tauto.
  - by apply NoDup_filter.
Qed.

Lemma unique_labels_id l : NoDup l -> unique_labels l = l.
Proof.
  induction l as [|x l IH]; simpl; [done|].
  intros [Hx Hl]%NoDup_cons. rewrite IH by done. f_equal.
  apply filter_all. intros y Hy ->. done.
Qed.

Lemma unique_labels_app a b :
  NoDup a -> b ⊆ a -> unique_labels (a ++ b) = a.
Proof.
  induction a as [|x a IH] in b |- *; intros Hnd Hsub.
  - destruct b as [|y b]; [done|]. specialize (Hsub y). 
    exfalso. eapply not_elem_of_nil, Hsub. left.
  - simpl. f_equal. apply NoDup_cons in Hnd as [Hx Hnd].
    assert (forall l, filter (fun y => y <> x) (unique_labels l)
                      = unique_labels (filter (fun y => y <> x) l)) as Hcomm.
    { induction l as [|z l IHl]; simpl; [done|].
      destruct (decide (z = x)) as [->|Hz].
      - rewrite !filter_cons_False by tauto.
        rewrite <- IHl, list_filter_filter. apply list_filter_iff. tauto.
      - rewrite !filter_cons_True by done. simpl. f_equal.
        rewrite <- IHl, !list_filter_filter. apply list_filter_iff. tauto. }
    rewrite Hcomm, filter_app, (filter_all _ a) by (intros y Hy ->; done).
    apply IH; [done|]. intros y [Hy Hin]%list_elem_of_filter.
    apply Hsub, elem_of_cons in Hin as [->|?]; done.
Qed.

(** ** Concatenation *)

Lemma bind_Ok {A B : Type} (m : result A) (k : A -> result B) b :
  (x ← m; k x) = Ok b <-> exists a, m = Ok a /\ k a = Ok b.
Proof.
  destruct m as [a|e]; simpl; split.
  - intros Hk. by exists a.
  - by intros (a' & [= ->] & Hk).
  - done.
  - by intros (a' & ? & _).
Qed.

Lemma is_empty_true df : is_empty df = true <-> columns df = [] \/ rows df = [].
Proof.
  unfold is_empty.
  destruct (columns df), (rows df); simpl; split; intros H; try done; auto;
    destruct H; done.
Qed.

Lemma concat_columns_pair a b :
  concat_columns [a; b]
  = if decide (columns b = columns a) then columns a
    else unique_labels (columns a ++ columns b).
Proof.
  unfold concat_columns. simpl. rewrite bool_decide_eq_true_2 by done. simpl.
  rewrite app_nil_r, andb_true_r.
  destruct (decide (columns b = columns a)) as [Heq|Hne].
  - by rewrite bool_decide_eq_true_2.
  - by rewrite bool_decide_eq_false_2.
Qed.

Lemma concat_columns_pair_elem_of a b c :
  c ∈ concat_columns [a; b] <-> c ∈ columns a \/ c ∈ columns b.
Proof.
  rewrite concat_columns_pair. destruct (decide (columns b = columns a)) as [->|_].
  - tauto.
  - by rewrite unique_labels_elem_of, elem_of_app.
Qed.

Lemma concat_columns_pair_NoDup a b :
  NoDup (columns a) -> NoDup (concat_columns [a; b]).
Proof.
  intros Ha. rewrite concat_columns_pair. destruct (decide _); [done|].
  apply unique_labels_NoDup.
Qed.

(** Concatenating a frame that brings no new label keeps the labels. *)
Lemma concat_columns_absorb a b :
  NoDup (columns a) -> columns b ⊆ columns a ->
  concat_columns [a; b] = columns a.
Proof.
  intros Ha Hsub. rewrite concat_columns_pair. destruct (decide _); [done|].
  by apply unique_labels_app.
Qed.

Lemma concat_rows_Ok target f rs :
  concat_rows target f = Ok rs
  <-> rs = stacked target f /\ (columns f = target \/ NoDup (columns f)).
Proof.
  unfold concat_rows, stacked. destruct (decide (columns f = target)).
  - split; [intros [= <-]; auto | intros [-> _]; done].
  - destruct (decide (NoDup (columns f))).
    + split; [intros [= <-]; auto | intros [-> _]; done].
    + split; [done | intros [_ [?|?]]; done].
Qed.

Lemma stacked_reindex target f :
  NoDup target -> rectangular f ->
  stacked target f = reindex target (columns f) <$> rows f.
Proof.
  intros Hnd Hrect. unfold stacked. destruct (decide _) as [Heq|]; [|done].
  rewrite <- Heq in *. by rewrite reindex_id_all.
Qed.

Lemma pd_concat_pair_Ok a b c :
  pd_concat [a; b] = Ok c
  <-> c = mkDF (concat_columns [a; b])
               (stacked (concat_columns [a; b]) a ++ stacked (concat_columns [a; b]) b)
      /\ (columns a = concat_columns [a; b] \/ NoDup (columns a))
      /\ (columns b = concat_columns [a; b] \/ NoDup (columns b)).
Proof.
  unfold pd_concat. set (U := concat_columns [a; b]). simpl.
  rewrite bind_Ok. split.
  - intros (rs & Hrs & [= <-]).
    apply bind_Ok in Hrs as (ra & Ha & Hrs).
    apply bind_Ok in Hrs as (rb & Hb & [= <-]).
    simpl in Hb. apply bind_Ok in Hb as (rb' & Hb & [= <-]).
    apply concat_rows_Ok in Ha as [-> Ha], Hb as [-> Hb].
    simpl. by rewrite app_nil_r.
  - intros (-> & Ha & Hb).
    exists [stacked U a; stacked U b]. split; [|simpl; by rewrite app_nil_r].
    apply bind_Ok. exists (stacked U a). split; [by apply concat_rows_Ok|].
    apply bind_Ok. exists [stacked U b]. split; [|done].
    simpl. apply bind_Ok. exists (stacked U b). split; [by apply concat_rows_Ok|done].
Qed.

Lemma drop_duplicates_Ok keys df d :
  drop_duplicates keys df = Ok d
  <-> (is_empty df = true /\ d = df)
      \/ (is_empty df = false /\ keys ⊆ columns df
          /\ d = mkDF (columns df) (keep_last (key_of (columns df) keys) (rows df))).
Proof.
  unfold drop_duplicates. destruct (is_empty df).
  - split; [intros [= <-]; auto | intros [[_ ->]|[? _]]; done].
  - destruct (forallb _ keys) eqn:Hall.
    + rewrite forallb_forall in Hall.
      split; [intros [= <-]; right | intros [[? _]|(_ & _ & ->)]; done].
      split; [done|]. split; [|done].
      intros c Hc%list_elem_of_In. apply Hall in Hc.
      unfold has_column in Hc. by apply bool_decide_eq_true in Hc.
    + split; [done|]. intros [[? _]|(_ & Hsub & _)]; [done|].
      exfalso. apply not_true_iff_false in Hall. apply Hall, forallb_forall.
      intros c Hc%list_elem_of_In. unfold has_column.
      by apply bool_decide_eq_true, Hsub.
Qed.

Lemma existsb_Exists {A : Type} (f : A -> bool) l :
  existsb f l = true <-> Exists (fun x => f x = true) l.
Proof.
  rewrite existsb_exists, Exists_exists.
  split; intros (x & Hx & Hf); exists x; split; try done; by apply list_elem_of_In.
Qed.

Lemma arrow_check_None cells : arrow_check cells = None <-> ~ mixed cells.
Proof.
  unfold mixed. induction cells as [|v cells IH]; simpl.
  - split; [|done]. intros _ [H _]. by apply Exists_nil in H.
  - rewrite !Exists_cons.
    destruct (is_number v) eqn:Hn, (is_text v) eqn:Ht;
      try (by destruct v).
    + destruct (existsb is_text cells) eqn:He.
      * apply existsb_Exists in He. split; [done|]. intros []. auto.
      * apply not_true_iff_false in He. rewrite existsb_Exists in He.
        split; [|done]. intros _ [[?|?] _]; done.
    + destruct (existsb is_number cells) eqn:He.
      * apply existsb_Exists in He. split; [done|]. intros []. auto.
      * apply not_true_iff_false in He. rewrite existsb_Exists in He.
        split; [|done]. intros _ [_ [?|?]]; done.
    + rewrite IH. split; intros H; [intros [[?|?] [?|?]]|intros []]; try done; apply H; auto.
Qed.

Lemma first_error_None checks :
  first_error checks = None <-> Forall (fun x => x = None) checks.
Proof.
  induction checks as [|[e|] checks IH]; simpl.
  - split; [constructor|done].
  - split; [done|]. by intros [? _]%Forall_cons.
  - rewrite IH, Forall_cons. tauto.
Qed.

Lemma to_parquet_Ok df d :
  to_parquet df = Ok d <-> d = df /\ NoDup (columns df) /\ one_type df.
Proof.
  unfold to_parquet, one_type. destruct (decide (NoDup (columns df))) as [Hnd|Hnd].
  - destruct (first_error _) as [e|] eqn:He.
    + split; [done|]. intros (_ & _ & Hall). exfalso.
      assert (first_error ((fun c => arrow_check (column_cells df c)) <$> columns df)
              = None) as Hn; [|congruence].
      apply first_error_None, Forall_fmap. eapply Forall_impl; [exact Hall|].
      intros c Hc. simpl. by apply arrow_check_None.
    + apply first_error_None, Forall_fmap in He. split.
      * intros [= <-]. split; [done|]. split; [done|].
        eapply Forall_impl; [exact He|]. intros c Hc. by apply arrow_check_None.
      * by intros (-> & _).
  - split; [done|]. by intros (_ & ? & _).
Qed.

Lemma to_parquet_same df d : to_parquet df = Ok d -> d = df.
Proof. by intros (-> & _)%to_parquet_Ok. Qed.

(** Rows drawn from the prior table and the batch, laid out over the
    labels of their concatenation, can be written when no label mixes text
    and numbers over the two. *)
Lemma one_type_combined S T (rs : list row) :
  same_types S T ->
  (forall r, r ∈ rs -> r ∈ (reindex (concat_columns [S; T]) (columns S) <$> rows S)
                            ++ (reindex (concat_columns [S; T]) (columns T) <$> rows T)) ->
  one_type (mkDF (concat_columns [S; T]) rs).
Proof.
  intros Hty Hrs. unfold one_type, same_types in *. simpl.
  set (U := concat_columns [S; T]) in *.
  rewrite Forall_forall in Hty. apply Forall_forall. intros c Hc.
  assert (c ∈ columns S ++ columns T) as Hc'.
  { apply elem_of_app. by apply concat_columns_pair_elem_of. }
  specialize (Hty c Hc'). intros [Ht Hn]. apply Hty.
  assert (forall P : value -> Prop,
            Exists P (column_cells (mkDF U rs) c) ->
            Exists P (column_cells S c ++ column_cells T c)) as Hlift.
  { intros P (v & Hv & HP)%Exists_exists. apply Exists_exists. exists v. split; [|done].
    unfold column_cells in Hv |- *. simpl in Hv.
    apply list_elem_of_fmap in Hv as (r & -> & Hr).
    apply Hrs, elem_of_app in Hr as [Hr|Hr];
      apply list_elem_of_fmap in Hr as (r0 & -> & Hr0);
      rewrite cell_reindex by done; apply elem_of_app; [left|right];
      apply list_elem_of_fmap; by exists r0. }
  split; by apply Hlift.
Qed.

(** ** The upsert store *)

Lemma upsert_existing_Ok S T keys R :
  upsert_parquet (Some S) T keys = Ok R
  <-> let U := concat_columns [S; T] in
      let all := stacked U S ++ stacked U T in
      NoDup (columns S) /\ NoDup (columns T) /\ one_type R
      /\ (((U = [] \/ all = []) /\ R = mkDF U all)
          \/ (U <> [] /\ all <> [] /\ keys ⊆ U
              /\ R = mkDF U (keep_last (key_of U keys) all))).
Proof.
  unfold upsert_parquet. simpl. rewrite bind_Ok.
  set (U := concat_columns [S; T]). set (all := stacked U S ++ stacked U T).
  assert (forall D, columns D = U -> NoDup (columns D) ->
            (columns S = U \/ NoDup (columns S)) ->
            (columns T = U \/ NoDup (columns T)) ->
            NoDup (columns S) /\ NoDup (columns T)) as Hcols.
  { intros D HD Hnd [HS|HS] [HT|HT]; rewrite ?HS, ?HT, <- ?HD; auto. }
  split.
  - intros (D & HD & HR). apply to_parquet_Ok in HR as (-> & Hnd & Hty).
    apply bind_Ok in HD as (C & HC & HD).
    apply pd_concat_pair_Ok in HC as (-> & HS & HT). fold U all in HD, HS, HT.
    apply drop_duplicates_Ok in HD as [[He ->]|(He & Hsub & ->)]; simpl in *.
    + apply is_empty_true in He. simpl in He.
      destruct (Hcols (mkDF U all)) as [? ?]; auto.
      split; [done|]. split; [done|]. split; [done|]. left. auto.
    + destruct (Hcols (mkDF U all)) as [? ?]; auto.
      split; [done|]. split; [done|]. split; [done|]. right.
      assert (~ (U = [] \/ all = [])) as Hne.
      { intros Hemp. apply (is_empty_true (mkDF U all)) in Hemp. congruence. }
      repeat split; try done; intros ->; apply Hne; auto.
  - intros (HS & HT & Hty & HR).
    assert (pd_concat [S; T] = Ok (mkDF U all)) as HC
      by (apply pd_concat_pair_Ok; auto).
    assert (NoDup U) as HU by by apply concat_columns_pair_NoDup.
    destruct HR as [[He ->]|(HneU & Hne & Hsub & ->)].
    + exists (mkDF U all). split; [|by apply to_parquet_Ok].
      apply bind_Ok. exists (mkDF U all). split; [done|].
      apply drop_duplicates_Ok. left. split; [|done]. by apply is_empty_true.
    + eexists. split; [|by apply to_parquet_Ok].
      apply bind_Ok. exists (mkDF U all). split; [done|].
      apply drop_duplicates_Ok. right. split; [|done].
      apply not_true_iff_false. rewrite is_empty_true. simpl. tauto.
Qed.

Lemma combined_rows_nil S T :
  well_formed S -> well_formed T ->
  concat_columns [S; T] = [] -> combined_rows S T = [].
Proof.
  intros [_ HS] [_ HT] HU. unfold combined_rows.
  assert (forall c, ~ (c ∈ columns S \/ c ∈ columns T)) as Hno.
  { intros c Hc%concat_columns_pair_elem_of. rewrite HU in Hc.
    by apply elem_of_nil in Hc. }
  rewrite HS, HT; [done| |].
  - destruct (columns T) as [|c ?]; [done|]. destruct (Hno c). right. left.
  - destruct (columns S) as [|c ?]; [done|]. destruct (Hno c). left. left.
Qed.

(** What an upsert into an existing table returns and writes. *)
Lemma upsert_existing_wf S T keys R :
  well_formed S -> well_formed T ->
  upsert_parquet (Some S) T keys = Ok R
  <-> NoDup (columns S) /\ NoDup (columns T) /\ one_type R
      /\ (combined_rows S T = [] \/ keys ⊆ concat_columns [S; T])
      /\ R = mkDF (concat_columns [S; T])
                  (keep_last (key_of (concat_columns [S; T]) keys) (combined_rows S T)).
Proof.
  intros HS HT. rewrite upsert_existing_Ok. simpl.
  set (U := concat_columns [S; T]).
  split.
  - intros (HndS & HndT & Hty & HR).
    assert (NoDup U) as HU by by apply concat_columns_pair_NoDup.
    assert (stacked U S ++ stacked U T = combined_rows S T) as Hall.
    { unfold combined_rows. fold U.
      rewrite !stacked_reindex; try done; [apply HT | apply HS]. }
    rewrite Hall in HR. split; [done|]. split; [done|]. split; [done|].
    destruct HR as [[[HU0|Hnil] ->]|(_ & _ & Hsub & ->)].
    + rewrite (combined_rows_nil S T); auto.
    + rewrite Hnil. auto.
    + auto.
  - intros (HndS & HndT & Hty & Hk & ->). split; [done|]. split; [done|].
    split; [done|].
    assert (NoDup U) as HU by by apply concat_columns_pair_NoDup.
    assert (stacked U S ++ stacked U T = combined_rows S T) as Hall.
    { unfold combined_rows. fold U.
      rewrite !stacked_reindex; try done; [apply HT | apply HS]. }
    rewrite Hall.
    destruct (decide (combined_rows S T = [])) as [Hnil|Hne].
    { left. rewrite Hnil. auto. }
    destruct Hk as [?|Hsub]; [done|]. right.
    split; [|done]. intros HU0. apply Hne. by apply combined_rows_nil.
Qed.

Lemma keep_last_nil {A K : Type} `{EqDecision K} (key : A -> K) l :
  keep_last key l = [] -> l = [].
Proof.
  induction l as [|x l IH]; simpl; [done|].
  destruct (decide (key x ∈ key <$> l)) as [Hin|]; [|done].
  intros Hl. rewrite (IH Hl) in Hin. by apply elem_of_nil in Hin.
Qed.

Lemma stacked_same U f : columns f = U -> stacked U f = rows f.
Proof. intros H. unfold stacked. by rewrite decide_True. Qed.

Lemma stacked_no_rows U f : rows f = [] -> stacked U f = [].
Proof. intros H. unfold stacked. rewrite H. by destruct (decide _). Qed.

(** C2. Upsert idempotence: merging the batch [T] into the table that
    merging [T] into the prior table [S] produced returns, and writes, that
    same table. A batch without columns is taken to have no rows, as every
    batch the pipeline assembles. *)
Theorem upsert_idempotent (S T : DataFrame) (keys : list string) (R : DataFrame) :
  (columns T = [] -> rows T = []) ->
  upsert_parquet (Some S) T keys = Ok R ->
  upsert_parquet (Some R) T keys = Ok R.
Proof.
  intros HT0 HR. apply upsert_existing_Ok in HR. simpl in HR.
  set (U := concat_columns [S; T]) in *.
  destruct HR as (HndS & HndT & Hty & HR).
  assert (NoDup U) as HU by by apply concat_columns_pair_NoDup.
  assert (columns T ⊆ U) as HTU.
  { intros c Hc. apply concat_columns_pair_elem_of. auto. }
  assert (columns R = U) as HRU by (destruct HR as [[_ ->]|(_ & _ & _ & ->)]; done).
  assert (concat_columns [R; T] = U) as HU'.
  { rewrite <- HRU. apply concat_columns_absorb; by rewrite HRU. }
  apply upsert_existing_Ok. simpl. rewrite HU', (stacked_same U R) by done.
  split; [by rewrite HRU|]. split; [done|]. split; [done|].
  destruct HR as [[[HU0|Hnil] ->]|(HneU & Hne & Hsub & ->)]; simpl.
  - left. split; [auto|]. f_equal.
    rewrite (stacked_no_rows U T), !app_nil_r; [done|].
    apply HT0. destruct (columns T) as [|c ?]; [done|].
    specialize (HTU c). rewrite HU0 in HTU.
    exfalso. eapply not_elem_of_nil, HTU. left.
  - apply app_eq_nil in Hnil as [HnS HnT]. rewrite HnS, HnT. simpl. auto.
  - right. split; [done|]. split.
    + intros Hnil. apply app_eq_nil in Hnil as [Hnil _].
      by apply keep_last_nil in Hnil.
    + split; [done|]. f_equal. symmetry. apply keep_last_again.
Qed.

Lemma combined_rows_length S T r :
  r ∈ combined_rows S T -> length r = length (concat_columns [S; T]).
Proof.
  unfold combined_rows. rewrite elem_of_app, !list_elem_of_fmap.
  intros [(r0 & -> & _)|(r0 & -> & _)]; apply length_reindex.
Qed.

(** On the combined rows pandas' duplicate test is agreement under the key
    columns. *)
Lemma keep_last_combined S T keys :
  NoDup (columns S) ->
  combined_rows S T = [] \/ keys ⊆ concat_columns [S; T] ->
  keep_last (key_of (concat_columns [S; T]) keys) (combined_rows S T)
  = keep_last (row_key (concat_columns [S; T]) keys) (combined_rows S T).
Proof.
  intros HS [Hnil|Hsub]; [by rewrite Hnil|].
  apply keep_last_ext. intros x y Hx Hy.
  apply key_of_row_key; auto using combined_rows_length.
  by apply concat_columns_pair_NoDup.
Qed.

Lemma concat_columns_pair_sub_l S T : columns S ⊆ concat_columns [S; T].
Proof. intros c Hc. apply concat_columns_pair_elem_of. auto. Qed.

Lemma concat_columns_pair_sub_r S T : columns T ⊆ concat_columns [S; T].
Proof. intros c Hc. apply concat_columns_pair_elem_of. auto. Qed.

(** C1, as the code has it. Last write wins: when the prior table holds a
    row with key [k] and the batch holds two rows with key [k], [r2] and
    after it [r3], no later row of the batch having that key, and no label
    holds text in one row and a number in another over the two frames, the
    upsert returns and writes a table with exactly one row of key [k], and
    that row is [r3] (over the columns of the merged table). *)
Theorem upsert_last_write_wins (S T : DataFrame) (keys : list string)
    (k : list key_code) (r1 r2 r3 : row) (A B C : list row) :
  well_formed S -> well_formed T ->
  NoDup (columns S) -> NoDup (columns T) ->
  same_types S T ->
  (forall c, c ∈ keys -> c ∈ columns S \/ c ∈ columns T) ->
  r1 ∈ rows S -> row_key (columns S) keys r1 = k ->
  rows T = A ++ r2 :: B ++ r3 :: C ->
  row_key (columns T) keys r2 = k ->
  row_key (columns T) keys r3 = k ->
  (forall r, r ∈ C -> row_key (columns T) keys r <> k) ->
  exists R,
    upsert_parquet (Some S) T keys = Ok R
    /\ filter (fun r => row_key (columns R) keys r = k) (rows R)
       = [reindex (columns R) (columns T) r3].
Proof.
  intros HS HT HndS HndT Hty Hkeys _ _ HrowsT _ Hk3 HC.
  assert (keys ⊆ concat_columns [S; T]) as Hsub.
  { intros c Hc. apply concat_columns_pair_elem_of. auto. }
  eexists. split.
  { apply upsert_existing_wf; [done..|].
    split; [done|]. split; [done|]. split; [|split; [by right|reflexivity]].
    apply one_type_combined; [done|]. intros r Hr. by apply keep_last_elem_of in Hr. }
  simpl.
  rewrite keep_last_combined by auto.
  unfold combined_rows. set (U := concat_columns [S; T]). rewrite HrowsT.
  rewrite fmap_app, fmap_cons, fmap_app, fmap_cons.
  set (x := reindex U (columns T) r3).
  assert (columns T ⊆ U) as HTU by apply concat_columns_pair_sub_r.
  assert (row_key U keys x = k) as Hx
    by (unfold x; rewrite row_key_reindex; done).
  rewrite (list_filter_iff _ (fun r => row_key U keys r = row_key U keys x))
    by (intros r; by rewrite Hx).
  match goal with
  | |- context [keep_last _ (?s ++ ?a ++ ?y :: ?b ++ x :: ?c)] =>
      replace (s ++ a ++ y :: b ++ x :: c) with ((s ++ a ++ y :: b) ++ x :: c)
        by (by rewrite <- !app_assoc)
  end.
  apply keep_last_select.
  rewrite Hx. intros (r' & Hr' & (r & -> & Hr)%list_elem_of_fmap)%list_elem_of_fmap.
  rewrite row_key_reindex in Hr' by done.
  by apply (HC r).
Qed.

(** X1. Where key uniqueness does hold: after an upsert no two rows of the
    persisted table agree under the key columns, provided a prior table
    existed; on the first run the batch is persisted as it is, so the same
    holds only for a batch that is itself free of repeated keys. *)
Theorem upsert_unique_keys (existing : option DataFrame) (T : DataFrame)
    (keys : list string) (R : DataFrame) :
  well_formed T ->
  match existing with
  | Some prior => well_formed prior
  | None => NoDup (row_key (columns T) keys <$> rows T)
  end ->
  upsert_parquet existing T keys = Ok R ->
  NoDup (row_key (columns R) keys <$> rows R).
Proof.
  intros HT Hex HR. destruct existing as [S|].
  - apply upsert_existing_wf in HR as (HndS & HndT & _ & Hk & ->); [|done..].
    simpl. rewrite keep_last_combined by auto. apply keep_last_NoDup.
  - unfold upsert_parquet in HR. simpl in HR.
    apply to_parquet_same in HR as ->. done.
Qed.

(** C7, as the code has it. Upserting the empty batch, which is what
    [read_olympics_files] returns when the directory is missing or holds no
    file, into a prior table without repeated keys returns and writes that
    table unchanged, and raises nothing. The prior table is one read back
    from a parquet file: its labels are not repeated and none of its
    columns holds both text and numbers. *)
Theorem upsert_empty_batch (S : DataFrame) (keys : list string) :
  well_formed S -> NoDup (columns S) -> one_type S ->
  rows S = [] \/ keys ⊆ columns S ->
  NoDup (row_key (columns S) keys <$> rows S) ->
  read_olympics_files None = Ok empty_frame
  /\ read_olympics_files (Some []) = Ok empty_frame
  /\ upsert_parquet (Some S) empty_frame keys = Ok S.
Proof.
  intros HS HndS Hty Hk Huniq. split; [done|]. split; [done|].
  assert (concat_columns [S; empty_frame] = columns S) as HU.
  { apply concat_columns_absorb; [done|]. intros c Hc. by apply elem_of_nil in Hc. }
  assert (combined_rows S empty_frame = rows S) as Hall.
  { unfold combined_rows. rewrite HU. simpl. rewrite app_nil_r.
    destruct HS as [Hrect _]. by apply reindex_id_all. }
  apply upsert_existing_wf; [done|split; [constructor|done]|].
  split; [done|]. split; [constructor|]. split; [done|].
  assert (combined_rows S empty_frame = [] \/ keys ⊆ concat_columns [S; empty_frame])
    as Hk' by (rewrite HU, Hall; done).
  split; [done|].
  rewrite keep_last_combined, HU, Hall by done.
  rewrite keep_last_id by done. by destruct S.
Qed.

(** ** File names in order *)

Lemma string_compare_trans_le a b c :
  String.compare a b <> Gt -> String.compare b c <> Gt -> String.compare a c <> Gt.
Proof.
  revert b c. induction a as [|x a IH]; intros [|y b] [|z c]; simpl; try done.
  unfold Ascii.compare.
  destruct (N.compare_spec (N_of_ascii x) (N_of_ascii y)) as [Hxy|Hxy|Hxy];
    destruct (N.compare_spec (N_of_ascii y) (N_of_ascii z)) as [Hyz|Hyz|Hyz];
    try done; intros Hab Hbc.
  - rewrite Hxy, Hyz, N.compare_refl. by apply (IH b).
  - rewrite Hxy. by apply N.compare_lt_iff in Hyz as ->.
  - rewrite <- Hyz. by apply N.compare_lt_iff in Hxy as ->.
  - assert (N_of_ascii x < N_of_ascii z)%N as Hxz by lia.
    by apply N.compare_lt_iff in Hxz as ->.
Qed.

Lemma string_leb_trans a b c :
  String.leb a b = true -> String.leb b c = true -> String.leb a c = true.
Proof.
  unfold String.leb. intros Hab Hbc.
  pose proof (string_compare_trans_le a b c) as H.
  destruct (String.compare a b), (String.compare b c), (String.compare a c);
    try done; exfalso; by apply H.
Qed.

Lemma string_ltb_leb a b : String.ltb a b = true -> String.leb a b = true.
Proof. unfold String.ltb, String.leb. by destruct (String.compare a b). Qed.

Lemma string_ltb_leb_ne a b c :
  String.ltb a b = true -> String.leb b c = true -> a <> c.
Proof.
  intros Hab Hbc ->. pose proof (string_ltb_leb _ _ Hab) as Hle.
  pose proof (String.leb_antisym _ _ Hle Hbc) as ->.
  unfold String.ltb in Hab. pose proof (String.compare_antisym b b) as Hanti.
  by destruct (String.compare b b).
Qed.

Lemma insert_file_elem_of x f l : x ∈ insert_file f l <-> x = f \/ x ∈ l.
Proof.
  induction l as [|g l IH]; simpl; [by rewrite elem_of_cons|].
  destruct (String.leb f.1 g.1); rewrite !elem_of_cons, ?IH; tauto.
Qed.

Lemma sorted_elem_of x l : x ∈ sorted l <-> x ∈ l.
Proof.
  unfold sorted. induction l as [|f l IH]; simpl; [done|].
  by rewrite insert_file_elem_of, elem_of_cons, IH.
Qed.

Lemma insert_file_sorted f l :
  StronglySorted file_le l -> StronglySorted file_le (insert_file f l).
Proof.
  induction 1 as [|g l Hl IH Hg]; simpl; [repeat constructor|].
  destruct (String.leb f.1 g.1) eqn:Hfg.
  - constructor; [by constructor|]. constructor; [done|].
    eapply Forall_impl; [exact Hg|]. intros h Hgh.
    by apply (string_leb_trans _ g.1).
  - constructor; [done|]. apply Forall_forall.
    intros h [->|Hh]%insert_file_elem_of.
    + unfold file_le. destruct (String.leb_total f.1 g.1); congruence.
    + rewrite Forall_forall in Hg. by apply Hg.
Qed.

Lemma sorted_StronglySorted l : StronglySorted file_le (sorted l).
Proof.
  unfold sorted. induction l as [|f l IH]; simpl; [constructor|].
  by apply insert_file_sorted.
Qed.

Lemma StronglySorted_suffix {A : Type} (R : A -> A -> Prop) l1 x l2 :
  StronglySorted R (l1 ++ x :: l2) -> Forall (R x) l2.
Proof.
  induction l1 as [|y l1 IH]; simpl; intros Hs.
  - by apply StronglySorted_inv in Hs as [_ ?].
  - apply StronglySorted_inv in Hs as [Hs _]. by apply IH.
Qed.

(** ** Steps on a frame *)

Lemma preserves_refl c df : preserves c df df.
Proof. by intros ?. Qed.

Lemma preserves_trans c df1 df2 df3 :
  preserves c df1 df2 -> preserves c df2 df3 -> preserves c df1 df3.
Proof.
  intros H12 H23 H1. destruct (H12 H1) as (H2 & Hl2 & Hc2).
  destruct (H23 H2) as (H3 & Hl3 & Hc3). split; [done|]. split; [lia|]. auto.
Qed.

Lemma length_set_cells cols r c v : length (set_cells cols r c v) = length r.
Proof.
  revert r. induction cols as [|l cols IH]; intros [|x r]; simpl; try done.
  by rewrite IH.
Qed.

Lemma cell_set_cells_ne cols r c v c' :
  c' <> c -> cell cols (set_cells cols r c v) c' = cell cols r c'.
Proof.
  intros Hne. revert r. induction cols as [|l cols IH]; intros [|x r]; simpl; try done.
  destruct (decide (l = c')) as [->|Hl]; [by rewrite decide_False|]. apply IH.
Qed.

Lemma cell_set_cells_eq cols r c v :
  c ∈ cols -> length r = length cols -> cell cols (set_cells cols r c v) c = v.
Proof.
  revert r. induction cols as [|l cols IH]; intros [|x r] Hc Hlen; simpl in *;
    try done.
  - by apply elem_of_nil in Hc.
  - destruct (decide (l = c)) as [->|Hl]; [done|].
    apply elem_of_cons in Hc as [->|Hc]; [done|]. apply IH; [done|lia].
Qed.

Lemma cell_app_old cols r c x c' :
  c' ∈ cols -> length r = length cols ->
  cell (cols ++ [c]) (r ++ [x]) c' = cell cols r c'.
Proof.
  revert r. induction cols as [|l cols IH]; intros [|y r] Hc Hlen; simpl in *;
    try done.
  - by apply elem_of_nil in Hc.
  - destruct (decide (l = c')) as [->|Hl]; [done|].
    apply elem_of_cons in Hc as [->|Hc]; [done|]. apply IH; [done|lia].
Qed.

Lemma cell_app_new cols r c x :
  c ∉ cols -> length r = length cols -> cell (cols ++ [c]) (r ++ [x]) c = x.
Proof.
  revert r. induction cols as [|l cols IH]; intros [|y r] Hc Hlen; simpl in *;
    try done.
  - by rewrite decide_True.
  - apply not_elem_of_cons in Hc as [Hne Hc]. rewrite decide_False by done.
    apply IH; [done|lia].
Qed.

Lemma has_column_true c df : has_column c df = true <-> c ∈ columns df.
Proof. unfold has_column. apply bool_decide_eq_true. Qed.

Lemma has_column_false c df : has_column c df = false <-> c ∉ columns df.
Proof. unfold has_column. apply bool_decide_eq_false. Qed.

Lemma assign_columns c f df :
  columns (assign c f df)
  = if has_column c df then columns df else columns df ++ [c].
Proof. unfold assign. by destruct (has_column c df). Qed.

Lemma assign_length c f df : length (rows (assign c f df)) = length (rows df).
Proof. unfold assign. destruct (has_column c df); simpl; by rewrite length_fmap. Qed.

Lemma assign_rectangular c f df : rectangular df -> rectangular (assign c f df).
Proof.
  unfold rectangular, assign. intros Hr.
  destruct (has_column c df); simpl; apply Forall_fmap;
    (eapply Forall_impl; [exact Hr|]); simpl; intros r Hlen.
  - by rewrite length_set_cells.
  - rewrite !length_app. simpl. lia.
Qed.

(** After [df[c] = f(row)] every row holds its value of [f] under [c]. *)
Lemma assign_cell c f df i r :
  rectangular df -> rows df !! i = Some r ->
  exists r', rows (assign c f df) !! i = Some r'
    /\ cell (columns (assign c f df)) r' c = f r
    /\ forall c', c' <> c ->
         cell (columns (assign c f df)) r' c' = cell (columns df) r c'.
Proof.
  intros Hrect Hi.
  assert (length r = length (columns df)) as Hlen.
  { unfold rectangular in Hrect. rewrite Forall_forall in Hrect.
    apply Hrect. by eapply list_elem_of_lookup_2. }
  unfold assign. destruct (has_column c df) eqn:Hc; simpl.
  - apply has_column_true in Hc.
    exists (set_cells (columns df) r c (f r)).
    rewrite list_lookup_fmap, Hi. split; [done|].
    split; [by apply cell_set_cells_eq|]. intros c' Hne. by apply cell_set_cells_ne.
  - apply has_column_false in Hc.
    exists (r ++ [f r]). rewrite list_lookup_fmap, Hi. split; [done|].
    split; [by apply cell_app_new|]. intros c' Hne.
    destruct (decide (c' ∈ columns df)) as [Hin|Hin]; [by apply cell_app_old|].
    rewrite !cell_absent; [done|done|].
    rewrite elem_of_app, list_elem_of_singleton. tauto.
Qed.

Lemma assign_elem_of c f df r' :
  r' ∈ rows (assign c f df) -> exists i r, rows df !! i = Some r
    /\ rows (assign c f df) !! i = Some r'.
Proof.
  intros [i Hi]%list_elem_of_lookup. exists i.
  assert (i < length (rows df))%nat as Hlt.
  { rewrite <- (assign_length c f df). by eapply lookup_lt_Some. }
  apply lookup_lt_is_Some in Hlt as [r Hr]. by exists r.
Qed.

Lemma assign_column_is c v df :
  rectangular df -> column_is c v (assign c (fun _ => v) df).
Proof.
  intros Hrect. split.
  - rewrite assign_columns. destruct (has_column c df) eqn:Hc.
    + by apply has_column_true.
    + rewrite elem_of_app, list_elem_of_singleton. auto.
  - intros r' (i & r & Hr & Hr')%assign_elem_of.
    destruct (assign_cell c (fun _ => v) df i r) as (r'' & Hr'' & Hcell & _);
      [done..|]. congruence.
Qed.

Lemma assign_preserves c f df c' : c' <> c -> preserves c' df (assign c f df).
Proof.
  intros Hne Hrect. split; [by apply assign_rectangular|].
  split; [apply assign_length|]. intros v [Hin Hv]. split.
  - rewrite assign_columns. destruct (has_column c df); [done|].
    rewrite elem_of_app. auto.
  - intros r' (i & r & Hr & Hr')%assign_elem_of.
    destruct (assign_cell c f df i r) as (r'' & Hr'' & _ & Hcell); [done..|].
    assert (r'' = r') as -> by congruence.
    rewrite Hcell by done. apply Hv. by eapply list_elem_of_lookup_2.
Qed.

Lemma cell_rename (g : string -> string) cols r c :
  (forall l, l ∈ cols -> g l = c <-> l = c) ->
  cell (g <$> cols) r c = cell cols r c.
Proof.
  revert r. induction cols as [|l cols IH]; intros [|x r] Hg; simpl; try done.
  rewrite IH by (intros; apply Hg; by right).
  destruct (decide (l = c)) as [->|Hl].
  - rewrite decide_True; [done|]. apply Hg; [left|done].
  - rewrite decide_False; [done|]. intros Hgl. apply Hl, Hg; [left|done].
Qed.

Lemma rename_preserves g df c :
  (forall l, l ∈ columns df -> g l = c <-> l = c) -> preserves c df (rename g df).
Proof.
  intros Hg Hrect. unfold rename. split.
  - unfold rectangular in *. simpl. by rewrite length_fmap.
  - split; [done|]. intros v [Hin Hv]. split; simpl.
    + apply list_elem_of_fmap. exists c. split; [|done]. symmetry. by apply Hg.
    + intros r Hr. rewrite cell_rename by done. by apply Hv.
Qed.

Lemma rename_first_alias_preserves aliases df c :
  c ∉ aliases -> c <> "country" -> preserves c df (rename_first_alias aliases df).
Proof.
  intros Hc Hne. induction aliases as [|a aliases IH]; simpl.
  - apply preserves_refl.
  - apply not_elem_of_cons in Hc as [Hca Hc]. destruct (has_column a df).
    + apply rename_preserves. intros l _.
      destruct (decide (l = a)) as [->|?]; split; congruence.
    + by apply IH.
Qed.

Lemma ensure_country_preserves df c :
  c <> "country" -> preserves c df (ensure_country df).
Proof.
  intros Hne. unfold ensure_country. destruct (has_column "country" df).
  - apply preserves_refl.
  - by apply assign_preserves.
Qed.

Lemma coerce_column_Ok c df out :
  coerce_column c df = Ok out
  <-> label_count c df = 1%nat
      /\ out = assign c (fun r => coerce_numeric (cell (columns df) r c)) df.
Proof.
  unfold coerce_column. destruct (label_count c df =? 1)%nat eqn:Hn.
  - apply Nat.eqb_eq in Hn. split; [intros [= <-]; auto | intros [_ ->]; done].
  - apply Nat.eqb_neq in Hn. split; [done | intros [? _]; done].
Qed.

Lemma coerce_column_preserves c df out c' :
  c' <> c -> coerce_column c df = Ok out -> preserves c' df out.
Proof. intros Hne [_ ->]%coerce_column_Ok. by apply assign_preserves. Qed.

Lemma coerce_medals_preserves ms df out c :
  c ∉ ms -> coerce_medals ms df = Ok out -> preserves c df out.
Proof.
  revert df. induction ms as [|m ms IH]; intros df Hc; simpl.
  - intros [= <-]. apply preserves_refl.
  - apply not_elem_of_cons in Hc as [Hcm Hc]. destruct (has_column m df).
    + intros (df' & Hdf' & Hout)%bind_Ok.
      eapply preserves_trans; [by eapply coerce_column_preserves|by apply IH].
    + by apply IH.
Qed.

Lemma assign_country_id_Ok df out :
  assign_country_id df = Ok out
  <-> label_count "country" df = 1%nat
      /\ out = assign "country_id"
                 (fun r => VStr (country_id_from_name
                                   (VStr (py_str (cell (columns df) r "country")))))
                 df.
Proof.
  unfold assign_country_id. destruct (label_count "country" df =? 1)%nat eqn:Hn.
  - apply Nat.eqb_eq in Hn. split; [intros [= <-]; auto | intros [_ ->]; done].
  - apply Nat.eqb_neq in Hn. split; [done | intros [? _]; done].
Qed.

Lemma assign_country_id_preserves df out c :
  c <> "country_id" -> assign_country_id df = Ok out -> preserves c df out.
Proof. intros Hne [_ ->]%assign_country_id_Ok. by apply assign_preserves. Qed.

Lemma normalize_columns_rectangular df :
  rectangular df -> rectangular (normalize_columns df).
Proof. unfold rectangular, normalize_columns, rename. simpl. by rewrite length_fmap. Qed.

(** What the loop body of [read_olympics_files] leaves in a frame: a row per
    row of the file, each stamped with the file name and the period of the
    file name. *)
Lemma olympics_frame_spec name df F :
  rectangular df -> olympics_frame name df = Ok F ->
  rectangular F /\ length (rows F) = length (rows df)
  /\ column_is "source_file" (VStr name) F
  /\ column_is "year" (year_of_filename name) F.
Proof.
  intros Hrect. unfold olympics_frame.
  set (d1 := normalize_columns df).
  set (d2 := assign "source_file" (fun _ => VStr name) d1).
  set (d3 := assign "year" (fun _ => year_of_filename name) d2).
  set (d4 := rename_first_alias ["nation"; "country"; "team"] d3).
  set (d5 := ensure_country d4).
  intros (d6 & H6 & H7)%bind_Ok.
  assert (rectangular d1) as R1 by by apply normalize_columns_rectangular.
  assert (rectangular d2) as R2 by by apply assign_rectangular.
  assert (rectangular d3) as R3 by by apply assign_rectangular.
  assert (length (rows d3) = length (rows df)) as L3.
  { unfold d3, d2. by rewrite !assign_length. }
  assert (column_is "year" (year_of_filename name) d3) as Y3
    by by apply assign_column_is.
  assert (column_is "source_file" (VStr name) d3) as S3.
  { apply (assign_preserves "year" _ d2 "source_file"); [done|done|].
    by apply assign_column_is. }
  assert (forall c, c ∉ ["nation"; "country"; "team"] -> c <> "country" ->
            c ∉ medals -> c <> "country_id" -> preserves c d3 F) as Hp.
  { intros c Ha Hc Hm Hid.
    apply (preserves_trans c d3 d4); [by apply rename_first_alias_preserves|].
    apply (preserves_trans c d4 d5); [by apply ensure_country_preserves|].
    apply (preserves_trans c d5 d6); [by apply (coerce_medals_preserves medals)|].
    by apply assign_country_id_preserves. }
  assert (forall c : string, c ∉ ["nation"; "country"; "team"] <-> 
            c <> "nation" /\ c <> "country" /\ c <> "team") as Hal.
  { intros c. rewrite !not_elem_of_cons. pose proof (not_elem_of_nil c). tauto. }
  assert (forall c : string, c ∉ medals <->
            c <> "gold" /\ c <> "silver" /\ c <> "bronze" /\ c <> "total"
            /\ c <> "rank") as Hme.
  { intros c. unfold medals. rewrite !not_elem_of_cons.
    pose proof (not_elem_of_nil c). tauto. }
  destruct (Hp "year") as (RF & LF & YF); [by apply Hal|done|by apply Hme|done|done|].
  destruct (Hp "source_file") as (_ & _ & SF);
    [by apply Hal|done|by apply Hme|done|done|].
  split; [done|]. split; [lia|]. auto.
Qed.

(** ** The period in a file name *)

Lemma match_d4_Some s d : match_d4 s = Some d <-> four_digits_at s 0 d.
Proof.
  unfold four_digits_at.
  destruct s as [|a [|b [|c [|e s]]]]; simpl;
    try (split; [done|intros (<- & ? & _); done]).
  replace (substring 0 0 s) with EmptyString by (by destruct s).
  destruct (isdigit a) eqn:Ha, (isdigit b) eqn:Hb, (isdigit c) eqn:Hc,
    (isdigit e) eqn:He; simpl;
    try (split; [done|]; intros (<- & _ & Hd); simpl in Hd;
         repeat (apply Forall_cons in Hd as [? Hd]); congruence).
  split.
  - intros [= <-]. split; [done|]. split; [done|]. simpl. by repeat constructor.
  - by intros (<- & _ & _).
Qed.

Lemma four_digits_at_S c s i d :
  four_digits_at (String c s) (S i) d <-> four_digits_at s i d.
Proof. done. Qed.

Lemma re_search_d4_Some s d :
  re_search_d4 s = Some d
  <-> exists i, four_digits_at s i d
        /\ forall j d', (j < i)%nat -> ~ four_digits_at s j d'.
Proof.
  revert d. induction s as [|c s IH]; intros d.
  - simpl. split; [done|]. intros (i & (<- & Hlen & _) & _). by destruct i.
  - cbn [re_search_d4]. destruct (match_d4 (String c s)) as [m|] eqn:Hm.
    + apply match_d4_Some in Hm. split.
      * intros [= <-]. exists 0%nat. split; [done|]. intros; lia.
      * intros (i & Hi & Hmin). destruct i as [|i].
        -- destruct Hm as (Hm & _), Hi as (Hi & _). congruence.
        -- destruct (Hmin 0%nat m); [lia|done].
    + rewrite IH. split.
      * intros (i & Hi & Hmin). exists (S i). split; [done|].
        intros [|j] d' Hj.
        -- intros Hd%match_d4_Some. congruence.
        -- rewrite four_digits_at_S. apply Hmin. lia.
      * intros ([|i] & Hi & Hmin).
        -- apply match_d4_Some in Hi. congruence.
        -- exists i. split; [done|]. intros j d' Hj.
           rewrite <- (four_digits_at_S c). apply Hmin. lia.
Qed.

Lemma re_search_d4_None s :
  re_search_d4 s = None <-> forall i d, ~ four_digits_at s i d.
Proof.
  split.
  - intros Hn i. induction i as [i IHi] using lt_wf_ind. intros d Hd.
    assert (exists i' d', four_digits_at s i' d'
              /\ forall j d'', (j < i')%nat -> ~ four_digits_at s j d'')
      as (i' & d' & Hd' & Hmin).
    { exists i, d. split; [done|]. intros j d'' Hj. by apply IHi. }
    assert (re_search_d4 s = Some d') as Hs by (apply re_search_d4_Some; eauto).
    congruence.
  - intros Hno. destruct (re_search_d4 s) as [d|] eqn:Hs; [|done].
    apply re_search_d4_Some in Hs as (i & Hi & _). by destruct (Hno i d).
Qed.

(** C9. Period provenance: the frame built from a file has a row for each
    row of the file; when the file name holds four consecutive digits,
    every row carries under [year] the integer that the leftmost such run
    writes in base ten (thousands, hundreds, tens and units, each digit
    taken by its character code), and when the name holds none every row
    carries [None]. *)
Theorem period_provenance (name : string) (df F : DataFrame) :
  rectangular df ->
  olympics_frame name df = Ok F ->
  length (rows F) = length (rows df)
  /\ (forall i a b c e,
        four_digits_at name i (String a (String b (String c (String e EmptyString)))) ->
        (forall j d', (j < i)%nat -> ~ four_digits_at name j d') ->
        forall r, r ∈ rows F ->
          cell (columns F) r "year"
          = VInt (1000 * (Z.of_nat (nat_of_ascii a) - 48)
                  + 100 * (Z.of_nat (nat_of_ascii b) - 48)
                  + 10 * (Z.of_nat (nat_of_ascii c) - 48)
                  + (Z.of_nat (nat_of_ascii e) - 48)))
  /\ ((forall i d, ~ four_digits_at name i d) ->
      forall r, r ∈ rows F -> cell (columns F) r "year" = VNone).
Proof.
  intros Hrect HF.
  destruct (olympics_frame_spec name df F Hrect HF) as (_ & Hlen & _ & _ & Hyear).
  split; [done|]. unfold year_of_filename in Hyear. split.
  - intros i a b c e Hd Hmin r Hr.
    assert (re_search_d4 name
            = Some (String a (String b (String c (String e EmptyString))))) as Hs
      by (apply re_search_d4_Some; eauto).
    rewrite Hs in Hyear. rewrite (Hyear r Hr).
    unfold int_of_digits, digit_value. simpl. f_equal. lia.
  - intros Hno r Hr. apply re_search_d4_None in Hno.
    rewrite Hno in Hyear. by apply Hyear.
Qed.

(** ** The batch assembler *)

Lemma traverse_Ok {A B : Type} (f : A -> result B) l ys :
  traverse f l = Ok ys <-> Forall2 (fun x y => f x = Ok y) l ys.
Proof.
  revert ys. induction l as [|x l IH]; intros ys; simpl.
  - split; [intros [= <-]; constructor | by intros ->%Forall2_nil_inv_l].
  - rewrite bind_Ok. split.
    + intros (y & Hy & (ys' & Hys & [= <-])%bind_Ok). constructor; [done|by apply IH].
    + intros (y & ys' & Hy & Hys & ->)%Forall2_cons_inv_l.
      exists y. split; [done|]. apply bind_Ok. exists ys'. split; [by apply IH|done].
Qed.

Lemma concat_columns_sub frames f :
  f ∈ frames -> columns f ⊆ concat_columns frames.
Proof.
  intros Hf c Hc. unfold concat_columns. destruct frames as [|f0 frames'] eqn:Hfr.
  { by apply elem_of_nil in Hf. }
  rewrite <- Hfr in *. destruct (forallb _ frames) eqn:Hall.
  - rewrite forallb_forall in Hall. apply list_elem_of_In, Hall in Hf.
    apply bool_decide_eq_true in Hf. by rewrite <- Hf.
  - apply unique_labels_elem_of, list_elem_of_In, in_concat.
    exists (columns f). split; apply list_elem_of_In; [|done].
    by apply list_elem_of_fmap_2.
Qed.

Lemma pd_concat_Ok frames T :
  pd_concat frames = Ok T ->
  frames <> []
  /\ columns T = concat_columns frames
  /\ rows T = concat (stacked (columns T) <$> frames)
  /\ Forall (fun f => columns f = columns T \/ NoDup (columns f)) frames.
Proof.
  unfold pd_concat. destruct frames as [|f0 frames'] eqn:Hfr; [done|].
  rewrite <- Hfr. intros (rs & Hrs & [= <-])%bind_Ok. simpl.
  split; [by rewrite Hfr|]. split; [done|].
  apply traverse_Ok in Hrs. clear Hfr. 
  set (U := concat_columns frames) in *. clearbody U.
  induction Hrs as [|f r fs rs Hf _ IH]; simpl; [by split|].
  apply concat_rows_Ok in Hf as [-> Hf]. destruct IH as [-> IH].
  split; [done|]. by constructor.
Qed.

(** The last element with a given key lies in any suffix holding that
    key. *)
Lemma keep_last_select_suffix {A K : Type} `{EqDecision K} (key : A -> K) P Q k :
  k ∈ key <$> Q ->
  exists y, y ∈ Q /\ key y = k
    /\ filter (fun x => key x = k) (keep_last key (P ++ Q)) = [y].
Proof.
  revert P. induction Q as [|q Q IH]; intros P Hk.
  - by apply elem_of_nil in Hk.
  - destruct (decide (k ∈ key <$> Q)) as [Hin|Hnin].
    + destruct (IH (P ++ [q]) Hin) as (y & Hy & Hky & Hf).
      exists y. split; [by right|]. split; [done|].
      by rewrite <- app_assoc in Hf.
    + rewrite fmap_cons in Hk. apply elem_of_cons in Hk as [->|Hk]; [|done].
      exists q. split; [left|]. split; [done|]. by apply keep_last_select.
Qed.

Lemma olympics_frames_spec (L : list (string * DataFrame)) Fs :
  Forall (fun f => rectangular f.2) L ->
  Forall2 (fun f F => olympics_frame f.1 f.2 = Ok F) L Fs ->
  Forall2 (fun f F => olympics_frame f.1 f.2 = Ok F /\ rectangular F
                      /\ column_is "source_file" (VStr f.1) F) L Fs.
Proof.
  intros HL HFs. induction HFs as [|f F L Fs HF _ IH]; [constructor|].
  apply Forall_cons in HL as [Hf HL]. constructor; [|by apply IH].
  destruct (olympics_frame_spec _ _ _ Hf HF) as (? & _ & ? & _). done.
Qed.

Lemma concat_stacked_elem_of U (Fs : list DataFrame) r :
  NoDup U -> Forall rectangular Fs ->
  r ∈ concat (stacked U <$> Fs) ->
  exists F r0, F ∈ Fs /\ r0 ∈ rows F /\ r = reindex U (columns F) r0.
Proof.
  intros HU HFs Hr. apply list_elem_of_In, in_concat in Hr as (rs & Hrs & Hr).
  apply list_elem_of_In, list_elem_of_fmap in Hrs as (F & -> & HF).
  rewrite Forall_forall in HFs. rewrite stacked_reindex in Hr by auto.
  apply list_elem_of_In, list_elem_of_fmap in Hr as (r0 & -> & Hr0). eauto.
Qed.

Lemma string_leb_refl s : String.leb s s = true.
Proof. by destruct (String.leb_total s s). Qed.

(** X6. Where the tie-break by file name does hold: when the fact table
    already exists, of the rows that the files of one run contribute under
    one (identity token, period) key exactly one survives the upsert, and
    it comes from a file whose name is not before that of any file
    contributing the key: for two such files it is never the row of the one
    earlier in name order. *)
Theorem later_file_wins (files : list (string * DataFrame)) (S T R : DataFrame)
    (n1 n2 : string) (d1 d2 F1 F2 : DataFrame) (r1 r2 : row) (k : list key_code) :
  Forall (fun f => rectangular f.2) files ->
  well_formed S ->
  read_olympics_files (Some files) = Ok T ->
  upsert_parquet (Some S) T ["country_id"; "year"] = Ok R ->
  (n1, d1) ∈ files -> (n2, d2) ∈ files -> String.ltb n1 n2 = true ->
  olympics_frame n1 d1 = Ok F1 -> olympics_frame n2 d2 = Ok F2 ->
  r1 ∈ rows F1 -> r2 ∈ rows F2 ->
  row_key (columns F1) ["country_id"; "year"] r1 = k ->
  row_key (columns F2) ["country_id"; "year"] r2 = k ->
  exists r n,
    filter (fun r => row_key (columns R) ["country_id"; "year"] r = k) (rows R) = [r]
    /\ cell (columns R) r "source_file" = VStr n
    /\ String.leb n2 n = true /\ n <> n1.
Proof.
  intros Hfiles HS Hread Hup _ Hf2 Hlt _ HF2 _ Hr2 _ Hk2.
  set (keys := ["country_id"; "year"]) in *.
  unfold read_olympics_files in Hread.
  apply bind_Ok in Hread as (Fs & HFs & HT). apply traverse_Ok in HFs.
  assert (Forall (fun f => rectangular f.2) (sorted files)) as Hsorted_rect.
  { rewrite Forall_forall in Hfiles. apply Forall_forall.
    intros f Hf. apply (proj1 (sorted_elem_of _ _)) in Hf. by apply Hfiles. }
  pose proof (olympics_frames_spec _ _ Hsorted_rect HFs) as Hspec. clear HFs.
  pose proof (sorted_StronglySorted files) as Hsort.
  apply (proj2 (sorted_elem_of _ _)), list_elem_of_split in Hf2 as (L1 & L2 & HL).
  rewrite HL in Hspec, Hsort. apply StronglySorted_suffix in Hsort.
  assert (Forall (fun F => rectangular F) Fs) as Hrect.
  { apply Forall_forall. intros F [i HF]%list_elem_of_lookup.
    destruct (Forall2_lookup_r _ _ _ _ _ Hspec HF) as (f & _ & _ & ? & _). done. }
  apply Forall2_app_inv_l in Hspec as (Fs1 & Fs' & _ & Hspec & ->).
  apply Forall2_cons_inv_l in Hspec as (G & Fs2 & (HG & _ & HsfG) & Hspec & ->).
  simpl in HG, HsfG. assert (G = F2) as -> by congruence.
  assert (pd_concat (Fs1 ++ F2 :: Fs2) = Ok T) as HT' by (by destruct Fs1).
  clear HT. apply pd_concat_Ok in HT' as (_ & HcT & HrT & _).
  pose proof Hup as (_ & HndT & _)%upsert_existing_Ok.
  assert (forall F, F ∈ F2 :: Fs2 -> columns F ⊆ columns T) as Hsub.
  { intros F HF. rewrite HcT. apply concat_columns_sub.
    rewrite elem_of_app. by right. }
  assert ("source_file" ∈ columns T) as HsfT.
  { apply (Hsub F2); [left|]. by destruct HsfG. }
  assert (well_formed T) as HwfT.
  { split.
    - apply Forall_forall. intros r Hr. rewrite HrT in Hr.
      apply concat_stacked_elem_of in Hr as (F & r0 & _ & _ & ->); [|done..].
      apply length_reindex.
    - intros Hnil. rewrite Hnil in HsfT. by apply elem_of_nil in HsfT. }
  apply upsert_existing_wf in Hup as (HndS & _ & _ & Hkeys & ->); [|done..].
  simpl. rewrite keep_last_combined by done.
  set (U := concat_columns [S; T]) in *.
  assert (columns T ⊆ U) as HTU by apply concat_columns_pair_sub_r.
  unfold combined_rows. fold U.
  rewrite HrT, fmap_app, concat_app, fmap_app, app_assoc.
  set (Q := reindex U (columns T) <$> concat (stacked (columns T) <$> F2 :: Fs2)).
  match goal with |- context [keep_last _ (?p ++ Q)] => set (P := p) end.
  apply Forall_app in Hrect as [_ Hrect].
  assert (k ∈ row_key U keys <$> Q) as HkQ.
  { apply list_elem_of_fmap.
    exists (reindex U (columns T) (reindex (columns T) (columns F2) r2)). split.
    - rewrite !row_key_reindex; [done| |done]. apply Hsub. left.
    - unfold Q. apply list_elem_of_fmap_2. rewrite fmap_cons. simpl.
      apply elem_of_app. left. rewrite stacked_reindex.
      + by apply list_elem_of_fmap_2.
      + done.
      + by apply Forall_cons in Hrect as [? _]. }
  destruct (keep_last_select_suffix (row_key U keys) P Q k HkQ)
    as (y & Hy & Hky & Hfilter).
  unfold Q in Hy. apply list_elem_of_fmap in Hy as (y0 & -> & Hy0).
  apply concat_stacked_elem_of in Hy0 as (F & r0 & HF & Hr0 & ->); [|done..].
  assert (exists n, column_is "source_file" (VStr n) F /\ String.leb n2 n = true)
    as (n & [HsfF HcellF] & Hle).
  { apply elem_of_cons in HF as [->|HF].
    - exists n2. split; [done|apply string_leb_refl].
    - apply list_elem_of_lookup in HF as [i HF].
      destruct (Forall2_lookup_r _ _ _ _ _ Hspec HF) as (f & Hf & _ & _ & Hcol).
      exists f.1. split; [done|]. rewrite Forall_forall in Hsort.
      apply (Hsort f). by eapply list_elem_of_lookup_2. }
  eexists _, n. split; [exact Hfilter|].
  split; [|split; [done|]].
  - rewrite !cell_reindex; auto.
  - intros ->. by eapply string_ltb_leb_ne.
Qed.

(** ** The denormalisation join *)

Lemma filter_unique_key {A K : Type} `{EqDecision K} (f : A -> K) (l : list A) k :
  NoDup (f <$> l) ->
  filter (fun x => f x = k) l = [] \/ exists x, filter (fun x => f x = k) l = [x].
Proof.
  induction l as [|a l IH]; [by left|].
  rewrite fmap_cons. intros [Ha Hl]%NoDup_cons.
  destruct (decide (f a = k)) as [Hk|Hk].
  - right. exists a. rewrite filter_cons_True by done. f_equal.
    apply filter_none. intros x Hx Hfx. apply Ha. rewrite Hk, <- Hfx.
    by apply list_elem_of_fmap_2.
  - rewrite filter_cons_False by done. by apply IH.
Qed.

Lemma merge_row_unique left right on lr :
  NoDup ((fun rr => code_of (cell (columns right) rr on)) <$> rows right) ->
  merge_row left right on lr = [lr ++ reference_side left right on lr].
Proof.
  intros Hnd. unfold merge_row, reference_side.
  destruct (filter_unique_key (fun rr => code_of (cell (columns right) rr on))
              (rows right) (code_of (cell (columns left) lr on)) Hnd)
    as [->|[rr ->]]; done.
Qed.

Lemma length_merge_row left right on lr :
  length (merge_row left right on lr)
  = Nat.max 1 (length (filter (fun rr => code_of (cell (columns right) rr on)
                                         = code_of (cell (columns left) lr on))
                              (rows right))).
Proof.
  unfold merge_row. destruct (filter _ (rows right)) as [|rr ms]; [done|].
  rewrite length_fmap. simpl. lia.
Qed.

Lemma merge_row_prefix left right on lr r :
  r ∈ merge_row left right on lr -> take (length lr) r = lr.
Proof.
  unfold merge_row. destruct (filter _ (rows right)) as [|rr ms].
  - intros ->%list_elem_of_singleton. apply take_app_length.
  - intros (x & -> & _)%list_elem_of_fmap. apply take_app_length.
Qed.

Lemma length_flat_map_merge_row left right on (l : list row) :
  length (flat_map (merge_row left right on) l)
  = sum_list ((fun lr =>
                 Nat.max 1 (length (filter
                    (fun rr => code_of (cell (columns right) rr on)
                               = code_of (cell (columns left) lr on)) (rows right))))
              <$> l).
Proof.
  induction l as [|lr l IH]; [done|].
  rewrite fmap_cons. cbn [flat_map sum_list foldr].
  rewrite length_app, length_merge_row, IH. done.
Qed.

Lemma sum_list_max_1 {A : Type} (f : A -> nat) (l : list A) :
  (length l <= sum_list ((fun x => Nat.max 1 (f x)) <$> l))%nat.
Proof. induction l as [|x l IH]; [done|]. rewrite fmap_cons. simpl. lia. Qed.

(** C3, as the code has it. The join needs the token column in both tables
    (KeyError otherwise) and labels that are distinct once the suffixes are
    applied (MergeError otherwise). It then has, for each fact row, one row
    per reference row carrying the same token, and one row when there is
    none, every output row beginning with the cells of a fact row. So when
    no two rows of the reference table share a token, the join has exactly
    one row per fact row, in order, beginning with the cells of that fact
    row; a fact row whose token no reference row carries is completed with
    [nan]. *)
Theorem join_complete (fact ref : DataFrame) (on ls rs : string) :
  rectangular fact ->
  (has_column on fact = false \/ has_column on ref = false ->
   merge_left fact ref on ls rs = Raise KeyError)
  /\ (has_column on fact = true -> has_column on ref = true ->
      ~ (NoDup (merge_labels_left (columns fact) (columns ref) on ls)
         /\ NoDup (merge_labels_right (columns fact) (columns ref) on rs)) ->
      merge_left fact ref on ls rs = Raise MergeError)
  /\ (has_column on fact = true -> has_column on ref = true ->
      NoDup (merge_labels_left (columns fact) (columns ref) on ls) ->
      NoDup (merge_labels_right (columns fact) (columns ref) on rs) ->
      exists out,
        merge_left fact ref on ls rs = Ok out
        /\ length (rows out)
           = sum_list ((fun lr =>
                          Nat.max 1 (length (filter
                             (fun rr => code_of (cell (columns ref) rr on)
                                        = code_of (cell (columns fact) lr on))
                             (rows ref))))
                       <$> rows fact)
        /\ (forall r, r ∈ rows out -> take (length (columns fact)) r ∈ rows fact)
        /\ (NoDup ((fun rr => code_of (cell (columns ref) rr on)) <$> rows ref) ->
            length (rows out) = length (rows fact)
            /\ take (length (columns fact)) <$> rows out = rows fact
            /\ forall i lr,
                 rows fact !! i = Some lr ->
                 (forall rr, rr ∈ rows ref ->
                    code_of (cell (columns ref) rr on)
                    <> code_of (cell (columns fact) lr on)) ->
                 rows out !! i
                 = Some (lr ++ ((fun _ => VNaN)
                                  <$> filter (fun l => l <> on) (columns ref))))).
Proof.
  intros Hrect. unfold merge_left. split; [|split].
  - intros [->| ->]; [done|]. by rewrite andb_false_r.
  - intros -> -> Hno. simpl. by rewrite decide_False.
  - intros -> -> Hll Hrl. simpl. rewrite decide_True by done.
    eexists. split; [done|]. simpl.
    split; [apply length_flat_map_merge_row|]. split.
    { unfold rectangular in Hrect. rewrite Forall_forall in Hrect.
      intros r Hr. apply list_elem_of_In, in_flat_map in Hr as (lr & Hlr & Hr).
      apply list_elem_of_In in Hlr, Hr. rewrite <- (Hrect lr Hlr).
      by rewrite (merge_row_prefix _ _ _ _ _ Hr). }
    intros Hnd.
    assert (flat_map (merge_row fact ref on) (rows fact)
            = (fun lr => lr ++ reference_side fact ref on lr) <$> rows fact) as ->.
    { induction (rows fact) as [|lr l IH]; [done|].
      simpl. by rewrite merge_row_unique, IH. }
    split; [by rewrite length_fmap|]. split.
    + unfold rectangular in Hrect.
      induction Hrect as [|lr l Hlr _ IH]; [done|].
      rewrite !fmap_cons, IH. f_equal. rewrite <- Hlr. apply take_app_length.
    + intros i lr Hi Hno. rewrite list_lookup_fmap, Hi. simpl. do 2 f_equal.
      unfold reference_side. rewrite filter_none; [done|].
      intros rr Hrr. by apply Hno.
Qed.

(** ** Numeric coercion *)

Lemma isdigit_decimal c : isdigit c = true <-> decimal_digit c.
Proof.
  unfold isdigit, decimal_digit.
  by rewrite andb_true_iff, !Nat.leb_le.
Qed.

Lemma numeric_char_symbol c : numeric_char c = true <-> numeric_symbol c.
Proof.
  unfold numeric_char, numeric_symbol. rewrite !orb_true_iff, isdigit_decimal.
  destruct (ascii_dec c "."), (ascii_dec c "-"); intuition congruence.
Qed.

Lemma strip_non_numeric_symbols s :
  strip_non_numeric s
  = string_of_list_ascii (filter numeric_symbol (list_ascii_of_string s)).
Proof.
  induction s as [|c s IH]; simpl; [done|].
  destruct (numeric_char c) eqn:Hc.
  - apply numeric_char_symbol in Hc. rewrite filter_cons_True by done.
    simpl. by rewrite IH.
  - rewrite filter_cons_False; [done|].
    intros Hs%numeric_char_symbol. congruence.
Qed.

Lemma place_value_app ds fs :
  place_value (ds ++ fs)
  = place_value ds * 10 ^ Z.of_nat (length fs) + place_value fs.
Proof.
  induction ds as [|c ds IH]; simpl; [lia|].
  rewrite IH, length_app, Nat2Z.inj_add, Z.pow_add_r by lia. lia.
Qed.

(** A string is digits followed by a rest that does not begin with a
    digit, and [scan_digits] reads exactly those digits. *)
Lemma scan_digits_app ds r acc n :
  Forall decimal_digit ds ->
  match r with
  | [] => True
  | c :: _ => ~ decimal_digit c
  end ->
  scan_digits (string_of_list_ascii (ds ++ r)) acc n
  = (acc * 10 ^ Z.of_nat (length ds) + place_value ds, (n + length ds)%nat,
     string_of_list_ascii r).
Proof.
  intros Hds Hr. revert acc n.
  induction Hds as [|c ds Hc _ IH]; intros acc n.
  - simpl. rewrite Z.mul_1_r, Z.add_0_r, Nat.add_0_r.
    destruct r as [|c r]; [done|]. simpl.
    destruct (isdigit c) eqn:Hc; [|done]. by apply isdigit_decimal in Hc.
  - simpl. rewrite (proj2 (isdigit_decimal c) Hc), IH. unfold digit_value.
    f_equal. f_equal; [|lia].
    rewrite Nat2Z.inj_succ, Z.pow_succ_r by lia. lia.
Qed.

Lemma scan_digits_split s :
  exists ds r,
    s = string_of_list_ascii (ds ++ r)
    /\ Forall decimal_digit ds
    /\ match r with
       | [] => True
       | c :: _ => ~ decimal_digit c
       end.
Proof.
  induction s as [|c s (ds & r & -> & Hds & Hr)].
  - by exists [], [].
  - destruct (decide (decimal_digit c)) as [Hc|Hc].
    + exists (c :: ds), r. split; [done|]. split; [by constructor|done].
    + exists [], (c :: ds ++ r). split; [done|]. split; [constructor|done].
Qed.

Lemma decimal_digit_symbol c :
  decimal_digit c -> c <> "-"%char /\ c <> "."%char.
Proof.
  unfold decimal_digit. intros Hc. split; intros ->.
  - change (nat_of_ascii "-") with 45%nat in Hc. lia.
  - change (nat_of_ascii ".") with 46%nat in Hc. lia.
Qed.

Lemma parse_unsigned_numeral t :
  match parse_unsigned t with
  | Some v => numeral t v
  | None => True
  end.
Proof.
  unfold parse_unsigned.
  destruct (scan_digits_split t) as (ds & r & -> & Hds & Hr).
  rewrite scan_digits_app by done. simpl.
  destruct r as [|c r]; simpl.
  - destruct ds as [|d ds]; [done|]. simpl length. cbn [Nat.eqb].
    rewrite app_nil_r.
    replace (0 * 10 ^ Z.of_nat (S (length ds)) + place_value (d :: ds))
      with (1 * place_value (d :: ds)) by lia.
    by apply (numeral_int false).
  - destruct (ascii_dec c ".") as [->|_]; [|done].
    destruct (scan_digits_split (string_of_list_ascii r))
      as (fs & r' & Heq & Hfs & Hr').
    rewrite Heq, scan_digits_app by done.
    destruct r' as [|c' r']; simpl; [|done].
    destruct (_ =? 0)%nat eqn:Hz; [done|].
    apply Nat.eqb_neq in Hz.
    assert (r = fs) as ->.
    { rewrite app_nil_r in Heq.
      by rewrite <- (list_ascii_of_string_of_list_ascii r), Heq,
        list_ascii_of_string_of_list_ascii. }
    replace ((0 * 10 ^ Z.of_nat (length ds) + place_value ds)
             * 10 ^ Z.of_nat (length fs) + place_value fs)
      with (1 * place_value (ds ++ fs)) by (rewrite place_value_app; lia).
    apply (numeral_float false); [|done..].
    intros [-> ->]%app_eq_nil. simpl in Hz. lia.
Qed.

Lemma numeral_negate t v :
  numeral t v ->
  match t with
  | String c _ => c <> "-"%char
  | EmptyString => True
  end ->
  numeral (String "-"%char t) (negate v).
Proof.
  intros [neg ds Hne Hds|neg ds fs Hne Hds Hfs]; destruct neg; simpl; try done.
  - intros _. rewrite Z.mul_1_l.
    replace (- place_value ds) with (-1 * place_value ds) by lia.
    by apply (numeral_int true).
  - intros _. rewrite Z.mul_1_l.
    replace (- place_value (ds ++ fs)) with (-1 * place_value (ds ++ fs)) by lia.
    by apply (numeral_float true).
Qed.

(** What the parser returns is a missing value or the number the text
    denotes. *)
Lemma to_numeric_numeral t : to_numeric t = VNaN \/ numeral t (to_numeric t).
Proof.
  unfold to_numeric. destruct t as [|c t]; [by left|].
  destruct (ascii_dec c "-") as [->|Hc].
  - pose proof (parse_unsigned_numeral t) as Hp.
    destruct (parse_unsigned t) as [v|] eqn:Hv; [|by left]. right. simpl.
    apply numeral_negate; [done|].
    destruct t as [|c t]; [done|]. intros ->.
    unfold parse_unsigned in Hv. simpl in Hv. done.
  - pose proof (parse_unsigned_numeral (String c t)) as Hp.
    destruct (parse_unsigned (String c t)) as [v|]; [by right|by left].
Qed.

(** A numeral is read as the number it denotes. *)
Lemma numeral_to_numeric t v : numeral t v -> to_numeric t = v.
Proof.
  assert (forall ds, ds <> [] -> Forall decimal_digit ds ->
            parse_unsigned (string_of_list_ascii ds) = Some (VInt (place_value ds)))
    as Hint.
  { intros ds Hne Hds. unfold parse_unsigned.
    rewrite <- (app_nil_r ds) at 1. rewrite scan_digits_app by done. simpl.
    destruct ds; [done|]. simpl. done. }
  assert (forall ds fs, ds ++ fs <> [] -> Forall decimal_digit ds ->
            Forall decimal_digit fs ->
            parse_unsigned (string_of_list_ascii (ds ++ "."%char :: fs))
            = Some (VFloat (place_value (ds ++ fs)) (length fs))) as Hfloat.
  { intros ds fs Hne Hds Hfs. unfold parse_unsigned.
    rewrite scan_digits_app; [|done|]; last first.
    { unfold decimal_digit. change (nat_of_ascii ".") with 46%nat. lia. }
    simpl. rewrite <- (app_nil_r fs) at 1. rewrite scan_digits_app by done. simpl.
    destruct (_ =? 0)%nat eqn:Hz.
    { apply Nat.eqb_eq in Hz. destruct ds, fs; simpl in *; try done; lia. }
    do 2 f_equal. rewrite place_value_app. lia. }
  assert (forall ds, ds <> [] -> Forall decimal_digit ds ->
            match string_of_list_ascii ds with
            | String c _ => c <> "-"%char
            | EmptyString => False
            end) as Hfirst.
  { intros ds Hne Hds. destruct Hds as [|d ds Hd _]; [done|]. simpl.
    by apply decimal_digit_symbol. }
  intros [neg ds Hne Hds|neg ds fs Hne Hds Hfs]; destruct neg; simpl.
  - unfold to_numeric. simpl. rewrite Hint by done. simpl. f_equal; lia.
  - unfold to_numeric. specialize (Hfirst ds Hne Hds).
    pose proof (Hint ds Hne Hds) as Hp. revert Hp.
    destruct (string_of_list_ascii ds) as [|c t0]; [done|]. intros Hp.
    destruct (ascii_dec c "-"); [done|]. rewrite Hp. simpl. f_equal; lia.
  - unfold to_numeric. simpl. rewrite Hfloat by done. simpl. f_equal; lia.
  - unfold to_numeric. pose proof (Hfloat ds fs Hne Hds Hfs) as Hp. revert Hp.
    destruct (string_of_list_ascii (ds ++ "."%char :: fs)) as [|c t0] eqn:Heq.
    { destruct ds; done. }
    intros Hp.
    assert (c <> "-"%char) as Hc.
    { destruct Hds as [|d ds Hd _]; simpl in Heq; injection Heq as <- _; [done|].
      by apply decimal_digit_symbol. }
    destruct (ascii_dec c "-"); [done|]. rewrite Hp. simpl. f_equal; lia.
Qed.

Lemma to_numeric_spec t :
  (exists v, numeral t v /\ to_numeric t = v)
  \/ ((forall v, ~ numeral t v) /\ to_numeric t = VNaN).
Proof.
  destruct (to_numeric_numeral t) as [Hnan|Hnum].
  - right. split; [|done]. intros v Hv.
    pose proof (numeral_to_numeric t v Hv) as Heq. rewrite Hnan in Heq. subst v.
    by inversion Hv.
  - left. by exists (to_numeric t).
Qed.

(** C6, as the code has it. Numeric coercion tolerance: coercing a column
    whose label is not repeated raises nothing and keeps every row; each
    cell of the column becomes the number denoted by its text once all
    characters other than digits, point and minus are removed, or a missing
    value when what remains is no numeral; the other cells are untouched;
    ["1,234 kg"] becomes 1234 and ["N/A"] a missing value. *)
Theorem numeric_coercion_tolerant (c : string) (df : DataFrame) :
  rectangular df ->
  label_count c df = 1%nat ->
  exists out,
    coerce_column c df = Ok out
    /\ columns out = columns df
    /\ length (rows out) = length (rows df)
    /\ (forall i r,
          rows df !! i = Some r ->
          exists r',
            rows out !! i = Some r'
            /\ (let t := string_of_list_ascii
                           (filter numeric_symbol
                              (list_ascii_of_string (py_str (cell (columns df) r c)))) in
                (exists v, numeral t v /\ cell (columns df) r' c = v)
                \/ ((forall v, ~ numeral t v) /\ cell (columns df) r' c = VNaN))
            /\ forall c', c' <> c -> cell (columns df) r' c' = cell (columns df) r c')
    /\ coerce_numeric (VStr "1,234 kg") = VInt 1234
    /\ coerce_numeric (VStr "N/A") = VNaN.
Proof.
  intros Hrect Hcount. eexists. split; [by apply coerce_column_Ok|].
  assert (has_column c df = true) as Hc.
  { apply has_column_true. unfold label_count in Hcount.
    destruct (filter (fun l => l = c) (columns df)) as [|x ?] eqn:Hf; [done|].
    assert (x ∈ filter (fun l => l = c) (columns df)) as Hx by (rewrite Hf; left).
    by apply list_elem_of_filter in Hx as [-> ?]. }
  assert (columns (assign c (fun r => coerce_numeric (cell (columns df) r c)) df)
          = columns df) as Hcols by (by rewrite assign_columns, Hc).
  split; [done|]. split; [apply assign_length|]. split; [|done].
  intros i r Hi.
  destruct (assign_cell c (fun r => coerce_numeric (cell (columns df) r c)) df i r)
    as (r' & Hr' & Hcell & Hother); [done..|].
  exists r'. rewrite Hcols in Hcell, Hother. split; [done|]. split; [|done].
  rewrite Hcell. unfold coerce_numeric. rewrite strip_non_numeric_symbols.
  apply to_numeric_spec.
Qed.

(** ** Alias unification *)

Lemma rename_first_alias_none aliases df :
  (forall a, a ∈ aliases -> a ∉ columns df) -> rename_first_alias aliases df = df.
Proof.
  induction aliases as [|a aliases IH]; intros Hno; simpl; [done|].
  rewrite (proj2 (has_column_false a df)) by (apply Hno; left).
  apply IH. intros b Hb. apply Hno. by right.
Qed.

Lemma rename_first_alias_found pre a post df :
  (forall b, b ∈ pre -> b ∉ columns df) -> a ∈ columns df ->
  rename_first_alias (pre ++ a :: post) df
  = rename (fun l => if decide (l = a) then "country" else l) df.
Proof.
  intros Hpre Ha. induction pre as [|b pre IH]; simpl.
  - by rewrite (proj2 (has_column_true a df)).
  - rewrite (proj2 (has_column_false b df)) by (apply Hpre; left).
    apply IH. intros b' Hb'. apply Hpre. by right.
Qed.

Lemma first_alias_cases aliases (cols : list string) :
  (forall a, a ∈ aliases -> a ∉ cols)
  \/ exists pre a post, aliases = pre ++ a :: post /\ a ∈ cols
       /\ forall b, b ∈ pre -> b ∉ cols.
Proof.
  induction aliases as [|a aliases IH].
  - left. intros a Ha. by apply elem_of_nil in Ha.
  - destruct (decide (a ∈ cols)) as [Ha|Ha].
    + right. exists [], a, aliases. split; [done|]. split; [done|].
      intros b Hb. by apply elem_of_nil in Hb.
    + destruct IH as [Hno|(pre & b & post & -> & Hb & Hpre)].
      * left. intros b [->|Hb]%elem_of_cons; auto.
      * right. exists (a :: pre), b, post. split; [done|]. split; [done|].
        intros b' [->|Hb']%elem_of_cons; auto.
Qed.

(** C8, as the code has it. The first alias, in priority order, that labels
    a column is replaced by ['country'] wherever it labels one; every other
    label, other aliases included, and every cell stay as they are. When no
    alias labels a column, a last column ['country'] holding [None] is
    added. Either way the frame has a column ['country']. *)
Theorem alias_unification (aliases : list string) (df : DataFrame) :
  "country" ∈ aliases ->
  "country" ∈ columns (ensure_country (rename_first_alias aliases df))
  /\ (forall pre a post,
        aliases = pre ++ a :: post ->
        a ∈ columns df ->
        (forall b, b ∈ pre -> b ∉ columns df) ->
        ensure_country (rename_first_alias aliases df)
        = mkDF ((fun l => if decide (l = a) then "country" else l) <$> columns df)
               (rows df))
  /\ ((forall a, a ∈ aliases -> a ∉ columns df) ->
      ensure_country (rename_first_alias aliases df)
      = mkDF (columns df ++ ["country"]) ((fun r => r ++ [VNone]) <$> rows df)).
Proof.
  intros Hcountry.
  assert (forall pre a post,
            aliases = pre ++ a :: post -> a ∈ columns df ->
            (forall b, b ∈ pre -> b ∉ columns df) ->
            ensure_country (rename_first_alias aliases df)
            = mkDF ((fun l => if decide (l = a) then "country" else l) <$> columns df)
                   (rows df)) as Hfound.
  { intros pre a post -> Ha Hpre. rewrite rename_first_alias_found by done.
    unfold ensure_country. rewrite (proj2 (has_column_true _ _)); [done|].
    simpl. apply list_elem_of_fmap. exists a. by rewrite decide_True. }
  assert ((forall a, a ∈ aliases -> a ∉ columns df) ->
          ensure_country (rename_first_alias aliases df)
          = mkDF (columns df ++ ["country"]) ((fun r => r ++ [VNone]) <$> rows df))
    as Hnone.
  { intros Hno. rewrite rename_first_alias_none by done.
    unfold ensure_country, assign.
    by rewrite !(proj2 (has_column_false "country" df)) by auto. }
  split; [|by split].
  destruct (first_alias_cases aliases (columns df))
    as [Hno|(pre & a & post & Heq & Ha & Hpre)].
  - rewrite Hnone by done. simpl. rewrite elem_of_app, list_elem_of_singleton. auto.
  - rewrite (Hfound pre a post) by done. simpl.
    apply list_elem_of_fmap. exists a. by rewrite decide_True.
Qed.

(** ** The loop body raises nothing on well-labelled files *)

Lemma label_count_NoDup c df :
  NoDup (columns df) -> c ∈ columns df -> label_count c df = 1%nat.
Proof.
  unfold label_count. induction (columns df) as [|l cols IH]; intros Hnd Hc.
  - by apply elem_of_nil in Hc.
  - apply NoDup_cons in Hnd as [Hl Hnd]. destruct (decide (l = c)) as [->|Hne].
    + rewrite filter_cons_True by done. simpl. f_equal.
      rewrite filter_none; [done|]. by intros x Hx ->.
    + rewrite filter_cons_False by done. apply IH; [done|].
      apply elem_of_cons in Hc as [->|?]; done.
Qed.

Lemma assign_NoDup c f df : NoDup (columns df) -> NoDup (columns (assign c f df)).
Proof.
  intros Hnd. rewrite assign_columns. destruct (has_column c df) eqn:Hc; [done|].
  apply has_column_false in Hc. apply NoDup_app. split; [done|].
  split; [|apply NoDup_singleton].
  intros x Hx ->%list_elem_of_singleton. done.
Qed.

Lemma coerce_medals_succeeds ms df :
  NoDup (columns df) ->
  exists out, coerce_medals ms df = Ok out /\ columns out = columns df.
Proof.
  revert df. induction ms as [|m ms IH]; intros df Hnd; simpl; [by exists df|].
  destruct (has_column m df) eqn:Hm; [|by apply IH].
  apply has_column_true in Hm.
  set (df' := assign m (fun r => coerce_numeric (cell (columns df) r m)) df).
  assert (columns df' = columns df) as Hcols.
  { unfold df'. by rewrite assign_columns, (proj2 (has_column_true m df)). }
  destruct (IH df') as (out & Hout & Hc); [by rewrite Hcols|].
  exists out. split; [|congruence].
  apply bind_Ok. exists df'. split; [|done].
  apply coerce_column_Ok. split; [by apply label_count_NoDup|done].
Qed.

(** X7. The loop body raises nothing on a file whose normalised labels are all
    different and do not include both ['nation'] and ['country']. *)
Lemma olympics_frame_succeeds name df :
  NoDup (columns (normalize_columns df)) ->
  ~ ("nation" ∈ columns (normalize_columns df)
     /\ "country" ∈ columns (normalize_columns df)) ->
  exists F, olympics_frame name df = Ok F.
Proof.
  intros Hnd Hboth. unfold olympics_frame.
  set (d1 := normalize_columns df) in *.
  set (d2 := assign "source_file" (fun _ => VStr name) d1).
  set (d3 := assign "year" (fun _ => year_of_filename name) d2).
  set (d4 := rename_first_alias ["nation"; "country"; "team"] d3).
  set (d5 := ensure_country d4).
  assert (NoDup (columns d3)) as Hnd3 by (by do 2 apply assign_NoDup).
  assert (forall c : string, c <> "source_file" -> c <> "year" ->
            c ∈ columns d3 -> c ∈ columns d1) as Hback.
  { intros c Hs Hy. unfold d3, d2. rewrite !assign_columns.
    destruct (has_column "source_file" d1);
      destruct (has_column "year" _); simpl;
      rewrite ?elem_of_app, ?list_elem_of_singleton; tauto. }
  assert (NoDup (columns d4)) as Hnd4.
  { unfold d4.
    destruct (first_alias_cases ["nation"; "country"; "team"] (columns d3))
      as [Hno|(pre & a & post & Heq & Ha & Hpre)].
    - by rewrite rename_first_alias_none.
    - rewrite Heq, rename_first_alias_found by done. simpl.
      assert (a = "country" \/ "country" ∉ columns d3) as Hcase.
      { destruct pre as [|p1 [|p2 [|p3 pre]]]; simplify_eq/=.
        - right. intros Hc. apply Hboth. split; by apply Hback.
        - by left.
        - right. apply Hpre. right. left.
        - by destruct pre. }
      apply NoDup_fmap_2_strong; [|done].
      intros x y Hx Hy. destruct Hcase as [->|Hc].
      + by repeat case_decide; simplify_eq.
      + repeat case_decide; intros Hxy; simplify_eq; try done; by destruct Hc. }
  assert (NoDup (columns d5) /\ "country" ∈ columns d5) as [Hnd5 Hc5].
  { unfold d5, ensure_country. destruct (has_column "country" d4) eqn:Hc.
    - split; [done|by apply has_column_true].
    - split; [by apply assign_NoDup|]. rewrite assign_columns, Hc.
      rewrite elem_of_app, list_elem_of_singleton. auto. }
  destruct (coerce_medals_succeeds medals d5 Hnd5) as (d6 & H6 & Hc6).
  eexists. apply bind_Ok. exists d6. split; [done|].
  apply assign_country_id_Ok. split; [|done].
  apply label_count_NoDup; by rewrite Hc6.
Qed.

(** ** The identity deriver *)

(** A missing name gets the token of the empty string. *)
Lemma country_id_missing v :
  isna v = true -> country_id_from_name v = country_id_from_name (VStr EmptyString).
Proof. unfold country_id_from_name. by intros ->. Qed.

(** Names equal after whitespace collapse, trimming and lower-casing get
    the same token. *)
Lemma country_id_normalized a b :
  lower (strip (re_sub_ws " " a)) = lower (strip (re_sub_ws " " b)) ->
  country_id_from_name (VStr a) = country_id_from_name (VStr b).
Proof. unfold country_id_from_name. simpl. by intros ->. Qed.

(** C5, at the failing input. A file without a name column gets a column
    ['country'] of [None], and [astype(str)] hands the text ['None'] to
    [country_id_from_name]: the token assigned is the digest of ['none'],
    not that of the empty string, which the function gives for a missing
    name. An empty name cell, [nan], gets the digest of ['nan']. *)
Theorem missing_name_token :
  olympics_frame "results_2000.csv" (mkDF ["Gold"] [[VInt 3]])
  = Ok (mkDF ["gold"; "source_file"; "year"; "country"; "country_id"]
             [[VInt 3; VStr "results_2000.csv"; VInt 2000; VNone;
               VStr "334c4a4c42fdb79d7ebc3e73b517e6f8"]])
  /\ olympics_frame "results_2000.csv" (mkDF ["Team"; "Gold"] [[VNaN; VInt 3]])
     = Ok (mkDF ["country"; "gold"; "source_file"; "year"; "country_id"]
                [[VNaN; VInt 3; VStr "results_2000.csv"; VInt 2000;
                  VStr "a3d2de7675556553a5f08e4c88d2c228"]])
  /\ country_id_from_name VNone = "d41d8cd98f00b204e9800998ecf8427e"
  /\ country_id_from_name VNaN = "d41d8cd98f00b204e9800998ecf8427e"
  /\ country_id_from_name (VStr EmptyString) = "d41d8cd98f00b204e9800998ecf8427e".
Proof. vm_compute. repeat split. Qed.

Ltac by_computation := apply (bool_decide_unpack _); vm_compute; exact I.

(** *** Counterexamples *)

(** C4, at the failing input. On the first run nothing is persisted yet;
    the two files of one year both list France, and the table written
    holds two rows with the key (France, 2000). The branch of
    [upsert_parquet] for an existing table removes the repetition: the same
    batch upserted again leaves one row. *)
Theorem first_run_keeps_repeated_keys :
  exists T R R',
    read_olympics_files (Some two_files) = Ok T
    /\ upsert_parquet None T fact_keys = Ok R
    /\ ~ NoDup (row_key (columns R) fact_keys <$> rows R)
    /\ upsert_parquet (Some R) T fact_keys = Ok R'
    /\ length (rows R) = 2%nat /\ length (rows R') = 1%nat.
Proof.
  exists two_files_batch, two_files_batch. eexists.
  split; [by vm_compute|]. split; [by vm_compute|]. split.
  - vm_compute. intros [Hin _]%NoDup_cons. apply Hin. left.
  - split; [by vm_compute|]. by split.
Qed.

(** C10, at the failing input. On the first run the row of
    [medals_2000.csv], the earlier name, survives beside that of
    [results_2000.csv], which has the same (identity token, period) key. *)
Theorem first_run_keeps_earlier_file :
  exists a,
    (run_pipeline (first_run reference_csv two_files)).2 = Ok a
    /\ (fun r => cell (columns (olympics a)) r "source_file")
         <$> filter (fun r => row_key (columns (olympics a)) fact_keys r = france_2000)
                    (rows (olympics a))
       = [VStr "medals_2000.csv"; VStr "results_2000.csv"].
Proof.
  exists (ok_or (mkArtifacts empty_frame empty_frame empty_frame)
                (run_pipeline (first_run reference_csv two_files)).2).
  vm_compute. repeat split.
Qed.

(** C7 as stated fails for a table persisted by such a first run: a later
    run that finds no file upserts the empty batch, and the fact table
    loses a row. *)
Lemma empty_batch_drops_row :
  exists T R,
    olympics_parquet after_first_run = Some T
    /\ read_olympics_files (olympics_dir (directory_emptied after_first_run))
       = Ok empty_frame
    /\ upsert_parquet (Some T) empty_frame fact_keys = Ok R
    /\ length (rows T) = 2%nat /\ length (rows R) = 1%nat
    /\ olympics_parquet (run_pipeline (directory_emptied after_first_run)).1 = Some R.
Proof. eexists _, _. repeat split; by vm_compute. Qed.

(** C1 as stated fails when the merged rows hold a number and text under
    one label: the prior table has a row of key (fr, 2000) and the batch two,
    yet the parquet writer raises and no merged table is produced. *)
Lemma mixed_column_is_not_written :
  rows prior_notes !! 1%nat = Some [VStr "fr"; VInt 2000; VInt 1]
  /\ row_key (columns prior_notes) fact_keys [VStr "fr"; VInt 2000; VInt 1]
     = [KStr "fr"; KNum 2000 0]
  /\ row_key (columns batch_notes) fact_keys <$> rows batch_notes
     = [[KStr "fr"; KNum 2000 0]; [KStr "fr"; KNum 2000 0]]
  /\ upsert_parquet (Some prior_notes) batch_notes fact_keys = Raise ArrowInvalid.
Proof. repeat split; by vm_compute. Qed.

(** C6 as stated fails for a medal column whose label is repeated once the
    labels are normalised: the coercion is an error. *)
Lemma repeated_label_is_an_error :
  coerce_column "gold"
    (normalize_columns (mkDF ["Gold"; "gold"] [[VInt 1; VStr "2"]]))
  = Raise AttributeError
  /\ olympics_frame "games_2000.csv"
       (mkDF ["Nation"; "Gold"; "gold"] [[VStr "France"; VInt 1; VStr "2"]])
     = Raise AttributeError.
Proof. split; by vm_compute. Qed.

(** C3 as stated fails on a first run whose reference file lists a country
    twice: each fact row comes out once per reference row. *)
Lemma join_repeats_fact_rows :
  exists a,
    (run_pipeline (first_run reference_twice two_files)).2 = Ok a
    /\ length (rows (olympics a)) = 2%nat
    /\ length (rows (merged a)) = 4%nat.
Proof.
  exists (ok_or (mkArtifacts empty_frame empty_frame empty_frame)
                (run_pipeline (first_run reference_twice two_files)).2).
  vm_compute. repeat split.
Qed.

(** C8 as stated fails when two aliases label columns: the lower-priority
    alias keeps its column, and a ['country'] column next to ['nation']
    gives two columns labelled ['country'], on which the identity step
    raises. *)
Lemma other_aliases_are_kept :
  columns (ensure_country
             (rename_first_alias ["nation"; "country"; "team"]
                (normalize_columns (mkDF ["Nation"; "Team"] [[VStr "France"; VStr "FRA"]]))))
  = ["country"; "team"]
  /\ columns (ensure_country
                (rename_first_alias ["country"; "name"; "country_name"]
                   (normalize_columns
                      (mkDF ["Name"; "Country Name"] [[VStr "FRA"; VStr "France"]]))))
     = ["country"; "country_name"]
  /\ columns (ensure_country
                (rename_first_alias ["nation"; "country"; "team"]
                   (normalize_columns
                      (mkDF ["Nation"; "Country"] [[VStr "FRA"; VStr "France"]]))))
     = ["country"; "country"]
  /\ olympics_frame "results_2000.csv"
                    (mkDF ["Nation"; "Country"] [[VStr "FRA"; VStr "France"]])
     = Raise ValueError.
Proof. repeat split; by vm_compute. Qed.

(** *** Instances *)

Lemma upsert_last_write_wins_witness :
  exists R,
    upsert_parquet (Some prior_fact) batch_fact fact_keys = Ok R
    /\ filter (fun r => row_key (columns R) fact_keys r = [KStr "fr"; KNum 2000 0])
              (rows R)
       = [reindex (columns R) (columns batch_fact) [VStr "fr"; VInt 2000; VInt 3]].
Proof.
  apply (upsert_last_write_wins prior_fact batch_fact fact_keys
           [KStr "fr"; KNum 2000 0]
           [VStr "fr"; VInt 2000; VInt 1]
           [VStr "fr"; VInt 2000; VInt 2]
           [VStr "fr"; VInt 2000; VInt 3] [] [] []).
  - by_computation.
  - by_computation.
  - by_computation.
  - by_computation.
  - by_computation.
  - intros c Hc. left. revert c Hc. apply Forall_forall. by_computation.
  - by_computation.
  - reflexivity.
  - reflexivity.
  - reflexivity.
  - reflexivity.
  - intros r Hr. by apply elem_of_nil in Hr.
Defined.

Lemma upsert_idempotent_witness :
  upsert_parquet (Some merged_fact) batch_fact fact_keys = Ok merged_fact.
Proof.
  apply (upsert_idempotent prior_fact batch_fact fact_keys merged_fact).
  - vm_compute. intros H. discriminate H.
  - vm_compute. reflexivity.
Defined.

Lemma upsert_unique_keys_witness :
  NoDup (row_key (columns two_files_merged) fact_keys <$> rows two_files_merged).
Proof.
  apply (upsert_unique_keys (Some earlier_fact) two_files_batch fact_keys
           two_files_merged).
  - by_computation.
  - by_computation.
  - vm_compute. reflexivity.
Defined.

Lemma upsert_empty_batch_witness :
  read_olympics_files None = Ok empty_frame
  /\ read_olympics_files (Some []) = Ok empty_frame
  /\ upsert_parquet (Some two_files_merged) empty_frame fact_keys = Ok two_files_merged.
Proof.
  apply (upsert_empty_batch two_files_merged fact_keys).
  - by_computation.
  - by_computation.
  - by_computation.
  - right. by_computation.
  - by_computation.
Defined.

Lemma join_complete_witness :
  exists out,
    merge_left two_files_merged (mkDF ["country"; "country_id"] [[VStr "Spain"; VStr "es"]])
               "country_id" "_olymp" "_country" = Ok out
    /\ length (rows out) = length (rows two_files_merged)
    /\ take (length (columns two_files_merged)) <$> rows out = rows two_files_merged.
Proof.
  destruct (join_complete two_files_merged
              (mkDF ["country"; "country_id"] [[VStr "Spain"; VStr "es"]])
              "country_id" "_olymp" "_country") as (_ & _ & Hjoin).
  - by_computation.
  - destruct Hjoin as (out & Hout & _ & _ & Huniq);
      [reflexivity | reflexivity | by_computation | by_computation |].
    exists out. split; [exact Hout|].
    destruct Huniq as (Hlen & Htake & _); [by_computation|].
    split; [exact Hlen | exact Htake].
Defined.

Lemma numeric_coercion_tolerant_witness :
  exists out,
    coerce_column "gold" (mkDF ["country"; "gold"] [[VStr "France"; VStr "1,234 kg"];
                                                    [VStr "Spain"; VStr "N/A"]]) = Ok out
    /\ rows out = [[VStr "France"; VInt 1234]; [VStr "Spain"; VNaN]].
Proof.
  destruct (numeric_coercion_tolerant "gold"
              (mkDF ["country"; "gold"] [[VStr "France"; VStr "1,234 kg"];
                                         [VStr "Spain"; VStr "N/A"]]))
    as (out & Hout & _).
  - by_computation.
  - reflexivity.
  - exists out. split; [exact Hout|].
    vm_compute in Hout. by injection Hout as <-.
Defined.

Lemma alias_unification_witness :
  "country" ∈ columns (ensure_country
                         (rename_first_alias ["nation"; "country"; "team"]
                            (mkDF ["team"; "gold"] [[VStr "France"; VInt 3]]))).
Proof.
  apply (alias_unification ["nation"; "country"; "team"]
           (mkDF ["team"; "gold"] [[VStr "France"; VInt 3]])).
  by_computation.
Defined.

Lemma period_provenance_witness :
  length (rows athens_frame) = length (rows athens_1896)
  /\ Forall (fun r => cell (columns athens_frame) r "year" = VInt 1896)
            (rows athens_frame).
Proof.
  destruct (period_provenance "athens_1896.csv" athens_1896 athens_frame)
    as (Hlen & Hyear & _).
  - by_computation.
  - vm_compute. reflexivity.
  - split; [exact Hlen|]. apply Forall_forall.
    destruct (proj1 (re_search_d4_Some "athens_1896.csv" "1896"))
      as (i & Hi & Hmin); [vm_compute; reflexivity|].
    exact (Hyear i "1"%char "8"%char "9"%char "6"%char Hi Hmin).
Defined.

Lemma later_file_wins_witness :
  exists r n,
    filter (fun r => row_key (columns two_files_merged) ["country_id"; "year"] r
                     = france_2000) (rows two_files_merged) = [r]
    /\ cell (columns two_files_merged) r "source_file" = VStr n
    /\ String.leb "results_2000.csv" n = true /\ n <> "medals_2000.csv".
Proof.
  apply (later_file_wins two_files earlier_fact two_files_batch two_files_merged
           "medals_2000.csv" "results_2000.csv" medals_2000 results_2000
           medals_frame results_frame
           [VStr "France"; VInt 13; VStr "medals_2000.csv"; VInt 2000;
            VStr "e165d4f2174b66a7d1a95cb204d296eb"]
           [VStr "France"; VInt 13; VInt 38; VStr "results_2000.csv"; VInt 2000;
            VStr "e165d4f2174b66a7d1a95cb204d296eb"]
           france_2000);
    try by_computation; by vm_compute.
Defined.

(** * Further properties of the code *)

(** ** More on the upsert store *)

Lemma unique_labels_union a b :
  NoDup a -> NoDup b ->
  unique_labels (a ++ b) = a ++ filter (fun c => c ∉ a) b.
Proof.
  intros Ha Hb. induction a as [|x a IH] in b, Ha, Hb |- *; simpl.
  - rewrite unique_labels_id by done. symmetry. apply filter_all.
    intros c _. apply not_elem_of_nil.
  - apply NoDup_cons in Ha as [Hx Ha]. f_equal.
    assert (forall l, filter (fun y => y <> x) (unique_labels l)
                      = unique_labels (filter (fun y => y <> x) l)) as Hcomm.
    { induction l as [|z l IHl]; simpl; [done|].
      destruct (decide (z = x)) as [->|Hz].
      - rewrite !filter_cons_False by tauto.
        rewrite <- IHl, list_filter_filter. apply list_filter_iff. tauto.
      - rewrite !filter_cons_True by done. simpl. f_equal.
        rewrite <- IHl, !list_filter_filter. apply list_filter_iff. tauto. }
    rewrite Hcomm, filter_app, (filter_all _ a) by (intros y Hy ->; done).
    rewrite IH by (done || by apply NoDup_filter).
    f_equal. rewrite list_filter_filter. apply list_filter_iff.
    intros c. rewrite not_elem_of_cons. tauto.
Qed.

(** X2. The labels of the merged table are those of the prior table followed by
    the labels only the batch has; every merged row is a prior row or a
    batch row laid out over these labels, holding its own cells under its
    own labels and [nan] under the labels only the other frame has. *)
Theorem upsert_schema (S T : DataFrame) (keys : list string) (R : DataFrame) :
  well_formed S -> well_formed T ->
  upsert_parquet (Some S) T keys = Ok R ->
  columns R = columns S ++ filter (fun c => c ∉ columns S) (columns T)
  /\ (forall r', r' ∈ rows R ->
        exists old r,
          ((old = columns S /\ r ∈ rows S) \/ (old = columns T /\ r ∈ rows T))
          /\ r' = reindex (columns R) old r
          /\ forall c, c ∈ columns R ->
               cell (columns R) r' c = (if decide (c ∈ old) then cell old r c else VNaN)).
Proof.
  intros HS HT HR.
  apply upsert_existing_wf in HR as (HndS & HndT & _ & _ & ->); [|done..]. simpl.
  split.
  - rewrite concat_columns_pair. destruct (decide _) as [Heq|_].
    + rewrite Heq, filter_none, app_nil_r; [done|]. intros c Hc Hn. done.
    + by apply unique_labels_union.
  - intros r' Hr'%keep_last_elem_of. unfold combined_rows in Hr'.
    apply elem_of_app in Hr' as [Hr'|Hr'];
      apply list_elem_of_fmap in Hr' as (r & -> & Hr).
    + exists (columns S), r. split; [auto|]. split; [done|].
      intros c Hc. rewrite cell_reindex by done.
      destruct (decide (c ∈ columns S)); [done|by apply cell_absent].
    + exists (columns T), r. split; [auto|]. split; [done|].
      intros c Hc. rewrite cell_reindex by done.
      destruct (decide (c ∈ columns T)); [done|by apply cell_absent].
Qed.

(** X3. An upsert loses no key and invents none: a key occurs in the merged
    table exactly when it occurs in the prior table or in the batch. *)
Theorem upsert_keeps_every_key (S T : DataFrame) (keys : list string)
    (R : DataFrame) (k : list key_code) :
  well_formed S -> well_formed T ->
  upsert_parquet (Some S) T keys = Ok R ->
  k ∈ row_key (columns R) keys <$> rows R
  <-> k ∈ row_key (columns S) keys <$> rows S
      \/ k ∈ row_key (columns T) keys <$> rows T.
Proof.
  intros HS HT HR.
  apply upsert_existing_wf in HR as (HndS & HndT & _ & Hk & ->); [|done..]. simpl.
  rewrite keep_last_combined, keep_last_keys by done.
  unfold combined_rows. rewrite fmap_app, elem_of_app, <- !list_fmap_compose.
  assert (forall old (rs : list row), old ⊆ concat_columns [S; T] ->
            (row_key (concat_columns [S; T]) keys ∘ reindex (concat_columns [S; T]) old)
              <$> rs = row_key old keys <$> rs) as Heq.
  { intros old rs Hsub. apply list_fmap_ext. intros _ r _. simpl.
    by apply row_key_reindex. }
  rewrite !Heq by auto using concat_columns_pair_sub_l, concat_columns_pair_sub_r.
  done.
Qed.

(** X4. The merged table is the prior rows that are last with their key among
    the prior rows and whose key no batch row has, followed by the batch
    rows that are last with their key in the batch. *)
Theorem upsert_prior_then_batch (S T : DataFrame) (keys : list string)
    (R : DataFrame) :
  well_formed S -> well_formed T ->
  upsert_parquet (Some S) T keys = Ok R ->
  rows R
  = filter (fun r => row_key (columns R) keys r ∉ row_key (columns T) keys <$> rows T)
      (keep_last (row_key (columns R) keys) (reindex (columns R) (columns S) <$> rows S))
    ++ keep_last (row_key (columns R) keys) (reindex (columns R) (columns T) <$> rows T).
Proof.
  intros HS HT HR.
  apply upsert_existing_wf in HR as (HndS & HndT & _ & Hk & ->); [|done..]. simpl.
  rewrite keep_last_combined by done. unfold combined_rows.
  rewrite keep_last_app. f_equal. apply list_filter_iff. intros r.
  rewrite <- list_fmap_compose.
  replace ((row_key (concat_columns [S; T]) keys
              ∘ reindex (concat_columns [S; T]) (columns T)) <$> rows T)
    with (row_key (columns T) keys <$> rows T); [done|].
  apply list_fmap_ext. intros _ r0 _. simpl. symmetry.
  apply row_key_reindex, concat_columns_pair_sub_r.
Qed.

(** X5. A key column that neither frame has is a KeyError as soon as there is
    a row to compare; nothing is written. *)
Theorem upsert_missing_key_column (S T : DataFrame) (keys : list string) (c : string) :
  well_formed S -> well_formed T ->
  NoDup (columns S) -> NoDup (columns T) ->
  rows S <> [] \/ rows T <> [] ->
  c ∈ keys -> c ∉ columns S -> c ∉ columns T ->
  upsert_parquet (Some S) T keys = Raise KeyError.
Proof.
  intros HS HT HndS HndT Hrows Hc HcS HcT.
  set (U := concat_columns [S; T]).
  assert (pd_concat [S; T]
          = Ok (mkDF U (stacked U S ++ stacked U T))) as Hcat
    by (apply pd_concat_pair_Ok; auto).
  unfold upsert_parquet. rewrite Hcat. simpl.
  unfold drop_duplicates.
  assert (is_empty (mkDF U (stacked U S ++ stacked U T)) = false) as ->.
  { apply not_true_iff_false. rewrite is_empty_true. simpl.
    assert (NoDup U) as HU by by apply concat_columns_pair_NoDup.
    rewrite !stacked_reindex by (done || apply HS || apply HT).
    intros [HU0|Hnil].
    - pose proof (combined_rows_nil S T HS HT HU0) as Hcomb.
      unfold combined_rows in Hcomb. fold U in Hcomb.
      apply app_eq_nil in Hcomb as [H1 H2].
      apply fmap_nil_inv in H1, H2. tauto.
    - apply app_eq_nil in Hnil as [H1 H2].
      apply fmap_nil_inv in H1, H2. tauto. }
  assert (forallb (fun c0 => has_column c0 (mkDF U (stacked U S ++ stacked U T))) keys
          = false) as ->; [|done].
  apply not_true_iff_false. rewrite forallb_forall. intros Hall.
  apply list_elem_of_In, Hall, has_column_true in Hc. simpl in Hc.
  apply concat_columns_pair_elem_of in Hc. tauto.
Qed.

(** ** More on the join *)

(** X12. Whatever the reference table holds, the left join loses no fact row:
    each fact row comes out once per reference row with its token, and once
    when there is none, so the output has at least as many rows as the
    fact table, each output row beginning with the cells of its fact
    row. *)
Theorem join_never_drops (fact ref : DataFrame) (on ls rs : string) (out : DataFrame) :
  rectangular fact ->
  merge_left fact ref on ls rs = Ok out ->
  length (rows out)
  = sum_list ((fun lr =>
                 Nat.max 1 (length (filter
                    (fun rr => code_of (cell (columns ref) rr on)
                               = code_of (cell (columns fact) lr on)) (rows ref))))
              <$> rows fact)
  /\ (length (rows fact) <= length (rows out))%nat
  /\ (forall lr, lr ∈ rows fact ->
        exists r, r ∈ rows out /\ take (length (columns fact)) r = lr)
  /\ (forall r, r ∈ rows out -> take (length (columns fact)) r ∈ rows fact).
Proof.
  intros Hrect. unfold merge_left.
  destruct (negb _); [done|]. destruct (decide _); [|done]. intros [= <-]. simpl.
  unfold rectangular in Hrect. rewrite Forall_forall in Hrect.
  rewrite length_flat_map_merge_row.
  split; [done|]. split; [apply sum_list_max_1|]. split.
  - intros lr Hlr.
    assert (exists r, r ∈ merge_row fact ref on lr) as [r Hr].
    { unfold merge_row. destruct (filter _ (rows ref)) as [|rr ms].
      - eexists. apply list_elem_of_singleton. done.
      - eexists. rewrite fmap_cons. left. }
    exists r. split.
    + apply list_elem_of_In, in_flat_map. exists lr.
      split; by apply list_elem_of_In.
    + rewrite <- (Hrect lr Hlr). by eapply merge_row_prefix.
  - intros r Hr. apply list_elem_of_In, in_flat_map in Hr as (lr & Hlr & Hr).
    apply list_elem_of_In in Hlr, Hr.
    rewrite <- (Hrect lr Hlr), (merge_row_prefix _ _ _ _ _ Hr). done.
Qed.

(** ** Whole runs *)

Arguments upsert_parquet : simpl never.
Arguments build_countries_table : simpl never.
Arguments read_olympics_files : simpl never.
Arguments merge_left : simpl never.
Arguments to_parquet : simpl never.

Lemma coerce_numeric_like_columns cols df out :
  coerce_numeric_like cols df = Ok out ->
  columns out = columns df /\ length (rows out) = length (rows df).
Proof.
  revert df. induction cols as [|c cols IH]; intros df; simpl.
  - by intros [= <-].
  - destruct (numeric_like c); [|by apply IH].
    intros (df' & [Hn ->]%coerce_column_Ok & Hout)%bind_Ok.
    apply IH in Hout as [-> ->]. rewrite assign_columns, assign_length.
    assert (has_column c df = true) as ->; [|done].
    apply has_column_true. unfold label_count in Hn.
    destruct (filter (fun l => l = c) (columns df)) as [|x ?] eqn:Hf; [done|].
    assert (x ∈ filter (fun l => l = c) (columns df)) as Hx by (rewrite Hf; left).
    by apply list_elem_of_filter in Hx as [-> ?].
Qed.

Lemma assign_country_id_column df out :
  assign_country_id df = Ok out -> "country_id" ∈ columns out.
Proof.
  intros [_ ->]%assign_country_id_Ok. rewrite assign_columns.
  destruct (has_column "country_id" df) eqn:Hc.
  - by apply has_column_true.
  - rewrite elem_of_app, list_elem_of_singleton. auto.
Qed.

Lemma build_countries_table_columns csv c :
  build_countries_table csv = Ok c -> columns c = [] -> rows c = [].
Proof.
  unfold build_countries_table. destruct csv as [df|]; [|by intros [= <-]].
  intros (d & Hd & Hc)%bind_Ok. apply assign_country_id_column in Hd.
  apply coerce_numeric_like_columns in Hc as [-> _].
  intros Hnil. rewrite Hnil in Hd. by apply elem_of_nil in Hd.
Qed.

Lemma olympics_frame_country_id name df F :
  olympics_frame name df = Ok F -> "country_id" ∈ columns F.
Proof.
  unfold olympics_frame. intros (d & _ & Hd)%bind_Ok.
  by apply assign_country_id_column in Hd.
Qed.

Lemma read_olympics_files_columns dir o :
  read_olympics_files dir = Ok o -> columns o = [] -> rows o = [].
Proof.
  unfold read_olympics_files. destruct dir as [fl|]; [|by intros [= <-]].
  intros (Fs & HFs & Ho)%bind_Ok. destruct Fs as [|F Fs]; [by injection Ho as <-|].
  apply traverse_Ok in HFs.
  apply Forall2_cons_inv_r in HFs as (f & L & HF & _ & _).
  apply olympics_frame_country_id in HF.
  apply pd_concat_Ok in Ho as (_ & Hcols & _).
  intros Hnil. exfalso.
  assert ("country_id" ∈ columns o) as Hin.
  { rewrite Hcols. apply (concat_columns_sub _ F); [left|done]. }
  rewrite Hnil in Hin. by apply elem_of_nil in Hin.
Qed.

(** Upserting once more the batch that produced a table leaves it. *)
Lemma upsert_settled S T keys R :
  (columns T = [] -> rows T = []) ->
  upsert_parquet (Some S) T keys = Ok R ->
  upsert_parquet (Some R) T keys = Ok R.
Proof.
  intros HT0 (HndS & HndT & Hty & HR)%upsert_existing_Ok. simpl in HR.
  set (U := concat_columns [S; T]) in *.
  assert (NoDup U) as HU by by apply concat_columns_pair_NoDup.
  pose proof (concat_columns_pair_sub_r S T) as HTU. fold U in HTU.
  assert (columns R = U) as HRU by (destruct HR as [[_ ->]|(_ & _ & _ & ->)]; done).
  assert (concat_columns [R; T] = U) as HU'
    by (rewrite <- HRU; apply concat_columns_absorb; by rewrite HRU).
  apply upsert_existing_Ok. simpl. rewrite HU', (stacked_same U R) by done.
  split; [by rewrite HRU|]. split; [done|]. split; [done|].
  destruct HR as [[[HU0|Hnil] ->]|(HneU & Hne & Hsub & ->)]; simpl.
  - left. split; [auto|]. f_equal.
    rewrite (stacked_no_rows U T), !app_nil_r; [done|].
    apply HT0. destruct (columns T) as [|c ?]; [done|].
    specialize (HTU c). rewrite HU0 in HTU.
    exfalso. eapply not_elem_of_nil, HTU. left.
  - apply app_eq_nil in Hnil as [-> ->]. simpl. auto.
  - right. split; [done|]. split.
    + intros [Hnil _]%app_eq_nil. by apply keep_last_nil in Hnil.
    + split; [done|]. f_equal. symmetry. apply keep_last_again.
Qed.

(** X13. Once both tables exist the pipeline is stable: a run that succeeds,
    started again on the files it left, writes the same three tables and
    returns the same artifacts. *)
Theorem second_run_stable (fs fs1 : files) (a : artifacts) :
  countries_parquet fs <> None -> olympics_parquet fs <> None ->
  run_pipeline fs = (fs1, Ok a) ->
  run_pipeline fs1 = (fs1, Ok a).
Proof.
  destruct fs as [csv dir [cp|] [op|] dp]; try done. intros _ _.
  unfold run_pipeline, build_olympics_table. simpl.
  destruct (build_countries_table csv) as [c|e] eqn:Hc; simpl; [|done].
  destruct (upsert_parquet (Some cp) c ["country_id"]) as [cw|e] eqn:Hcw; simpl;
    [|done].
  destruct (read_olympics_files dir) as [o|e] eqn:Ho; simpl; [|done].
  destruct (upsert_parquet (Some op) o ["country_id"; "year"]) as [ow|e] eqn:How;
    simpl; [|done].
  destruct (merge_left ow cw "country_id" "_olymp" "_country") as [m|e] eqn:Hm;
    simpl; [|done].
  destruct (to_parquet m) as [m'|e] eqn:Hm'; simpl; [|done].
  intros [= <- <-]. simpl. rewrite Hc, Ho. simpl.
  rewrite (upsert_settled cp c _ cw), (upsert_settled op o _ ow);
    eauto using build_countries_table_columns, read_olympics_files_columns.
  simpl. rewrite Hm. simpl. rewrite Hm'. done.
Qed.

(** X14. With no fact source (no directory, or no file in it) and no fact table
    persisted yet, the run raises: the empty batch has no ['country_id']
    column to join on. The denormalised artifact is not written. *)
Theorem run_without_fact_source (fs : files) :
  olympics_dir fs = None \/ olympics_dir fs = Some [] ->
  olympics_parquet fs = None ->
  exists e,
    (run_pipeline fs).2 = Raise e
    /\ denormalized_parquet (run_pipeline fs).1 = denormalized_parquet fs.
Proof.
  destruct fs as [csv dir cp op dp]. simpl. intros Hdir ->.
  unfold run_pipeline, build_olympics_table. simpl.
  destruct (c ← build_countries_table csv; upsert_parquet cp c ["country_id"])
    as [cw|e]; simpl; [|by exists e].
  assert (read_olympics_files dir = Ok empty_frame) as ->
    by (by destruct Hdir as [-> | ->]).
  by exists KeyError.
Qed.

(** ** The identity token *)

Lemma le_bytes_bounds n x b : In b (Hashlib.le_bytes n x) -> 0 <= b < 256.
Proof.
  unfold Hashlib.le_bytes. intros (i & <- & _)%in_map_iff.
  change 255 with (Z.ones 8). rewrite Z.land_ones by lia.
  apply Z.mod_pos_bound. lia.
Qed.

Lemma digest_bytes msg :
  length (Hashlib.digest msg) = 16%nat
  /\ forall b, In b (Hashlib.digest msg) -> 0 <= b < 256.
Proof.
  unfold Hashlib.digest. destruct (fold_left _ _ _) as [a b c d]. split.
  - rewrite !length_app. unfold Hashlib.le_bytes. by rewrite !length_map, !length_seq.
  - intros x Hx. repeat (apply in_app_or in Hx as [Hx|Hx]);
      by eapply le_bytes_bounds.
Qed.

Lemma hex_digit_is_hex n : 0 <= n < 16 -> is_hex_char (Hashlib.hex_digit n) = true.
Proof.
  intros Hn.
  assert (Forall (fun k => is_hex_char (Hashlib.hex_digit k) = true) (seqZ 0 16))
    as Hall by (vm_compute; repeat constructor).
  rewrite Forall_forall in Hall. apply Hall, elem_of_seqZ. lia.
Qed.

Lemma hex_bytes_spec (bs : list Z) :
  (forall b, In b bs -> 0 <= b < 256) ->
  length (concat (map Hashlib.hex_byte bs)) = (2 * length bs)%nat
  /\ Forall (fun c => is_hex_char c = true) (concat (map Hashlib.hex_byte bs)).
Proof.
  induction bs as [|b bs IH]; intros Hbs; [by split|].
  destruct IH as [IHl IHf]; [intros; apply Hbs; by right|].
  assert (0 <= b < 256) as Hb by (apply Hbs; by left).
  simpl. split; [rewrite IHl; lia|].
  repeat constructor; [| |done]; apply hex_digit_is_hex.
  - rewrite Z.shiftr_div_pow2 by lia. change (2 ^ 4) with 16.
    split; [apply Z.div_pos; lia|apply Z.div_lt_upper_bound; lia].
  - change 15 with (Z.ones 4). rewrite Z.land_ones by lia.
    apply Z.mod_pos_bound. lia.
Qed.

Lemma length_string_of_list_ascii l :
  String.length (string_of_list_ascii l) = length l.
Proof. induction l as [|c l IH]; simpl; by rewrite ?IH. Qed.

(** X15. Whatever the name, the token is 32 lower-case hexadecimal digits. *)
Theorem country_id_is_hex (name : value) :
  String.length (country_id_from_name name) = 32%nat
  /\ Forall (fun c => is_hex_char c = true)
            (list_ascii_of_string (country_id_from_name name)).
Proof.
  unfold country_id_from_name, Hashlib.md5.
  match goal with |- context [Hashlib.digest ?m] => set (msg := m) end.
  destruct (digest_bytes msg) as [Hlen Hbytes].
  destruct (hex_bytes_spec (Hashlib.digest msg) Hbytes) as [Hl Hf].
  rewrite length_string_of_list_ascii, list_ascii_of_string_of_list_ascii.
  split; [by rewrite Hl, Hlen|done].
Qed.

(** ** Names and labels in canonical form *)

Lemma isspace_lower_char c : isspace (lower_char c) = isspace c.
Proof. destruct c as [[] [] [] [] [] [] [] []]; reflexivity. Qed.

Lemma lower_char_idem c : lower_char (lower_char c) = lower_char c.
Proof. destruct c as [[] [] [] [] [] [] [] []]; reflexivity. Qed.

Lemma lower_char_not_upper c : is_upper (lower_char c) = false.
Proof. destruct c as [[] [] [] [] [] [] [] []]; reflexivity. Qed.

Lemma lower_char_fixed c : is_upper c = false -> lower_char c = c.
Proof. destruct c as [[] [] [] [] [] [] [] []]; (reflexivity || discriminate). Qed.

Lemma lower_char_space c : isspace c = true -> lower_char c = c.
Proof. destruct c as [[] [] [] [] [] [] [] []]; (reflexivity || discriminate). Qed.

Lemma lower_append a b :
  lower (String.append a b) = String.append (lower a) (lower b).
Proof. induction a as [|c a IH]; simpl; by rewrite ?IH. Qed.

Lemma lower_idem s : lower (lower s) = lower s.
Proof. induction s as [|c s IH]; simpl; by rewrite ?lower_char_idem, ?IH. Qed.

Lemma lower_sub_ws rep b s :
  lower rep = rep ->
  lower (sub_ws_from rep b s) = sub_ws_from rep b (lower s).
Proof.
  intros Hrep. revert b. induction s as [|c s IH]; intros b; simpl; [done|].
  rewrite isspace_lower_char. destruct (isspace c), b; simpl;
    rewrite ?lower_append, ?Hrep, ?IH; done.
Qed.

Lemma lower_lstrip s : lower (lstrip s) = lstrip (lower s).
Proof.
  induction s as [|c s IH]; simpl; [done|].
  rewrite isspace_lower_char. by destruct (isspace c).
Qed.

Lemma lower_rstrip s : lower (rstrip s) = rstrip (lower s).
Proof.
  induction s as [|c s IH]; simpl; [done|].
  rewrite isspace_lower_char, <- IH.
  destruct (rstrip s); simpl; [by destruct (isspace c)|done].
Qed.

Lemma lower_strip s : lower (strip s) = strip (lower s).
Proof. unfold strip. by rewrite lower_rstrip, lower_lstrip. Qed.

(** Letter case does not reach the key. *)
Lemma name_key_lower s : name_key (lower s) = name_key s.
Proof.
  unfold name_key, re_sub_ws.
  by rewrite <- (lower_sub_ws " "), <- lower_strip, lower_idem.
Qed.

Lemma tidy_weaken s : tidy true s = true -> tidy false s = true.
Proof. destruct s as [|c s]; simpl; [done|]. by destruct (isspace c). Qed.

Lemma tidy_sub_ws b s : tidy b (sub_ws_from " " b s) = true.
Proof.
  revert b. induction s as [|c s IH]; intros b; simpl; [done|].
  destruct (isspace c) eqn:Hc.
  - destruct b; [apply IH|]. simpl. apply IH.
  - simpl. rewrite Hc. apply IH.
Qed.

Lemma sub_ws_tidy b s : tidy b s = true -> sub_ws_from " " b s = s.
Proof.
  revert b. induction s as [|c s IH]; intros b; simpl; [done|].
  destruct (isspace c).
  - destruct b; simpl; [done|]. destruct (ascii_dec c " ") as [->|]; [|done].
    simpl. intros Hs. by rewrite IH.
  - intros Hs. by rewrite IH.
Qed.

Lemma tidy_lstrip b s : tidy b s = true -> tidy b (lstrip s) = true.
Proof.
  revert b. induction s as [|c s IH]; intros b; [done|].
  simpl. destruct (isspace c) eqn:Hc.
  - intros (_ & Hs)%andb_true_iff. apply IH in Hs.
    destruct b; [done|by apply tidy_weaken].
  - intros Hs. simpl. by rewrite Hc.
Qed.

Lemma tidy_rstrip b s : tidy b s = true -> tidy b (rstrip s) = true.
Proof.
  revert b. induction s as [|c s IH]; intros b; [done|].
  simpl. destruct (isspace c) eqn:Hc.
  - intros Hall. apply andb_true_iff in Hall as [Hbc Hs]. apply IH in Hs.
    destruct (rstrip s) as [|c' t] eqn:Ht; [done|].
    cbn [tidy]. rewrite Hc, Hbc. exact Hs.
  - intros Hs. apply IH in Hs.
    destruct (rstrip s) as [|c' t] eqn:Ht; [by simpl; rewrite Hc|].
    cbn [tidy]. rewrite Hc. exact Hs.
Qed.

Lemma lstrip_starts_clean s : starts_clean (lstrip s).
Proof.
  induction s as [|c s IH]; simpl; [done|].
  destruct (isspace c) eqn:Hc; [done|]. simpl. done.
Qed.

Lemma lstrip_clean s : starts_clean s -> lstrip s = s.
Proof. destruct s as [|c s]; simpl; [done|]. by intros ->. Qed.

Lemma rstrip_starts_clean s : starts_clean s -> starts_clean (rstrip s).
Proof.
  destruct s as [|c s]; simpl; [done|]. intros Hc.
  destruct (rstrip s); simpl; [by rewrite Hc|done].
Qed.

Lemma rstrip_idem s : rstrip (rstrip s) = rstrip s.
Proof.
  induction s as [|c s IH]; simpl; [done|].
  destruct (rstrip s) as [|c' t] eqn:Ht.
  - destruct (isspace c) eqn:Hc; simpl; [done|]. by rewrite Hc.
  - cbn [rstrip]. cbn [rstrip] in IH. by rewrite IH.
Qed.

Lemma strip_idem s : strip (strip s) = strip s.
Proof.
  unfold strip.
  rewrite (lstrip_clean (rstrip (lstrip s)))
    by apply rstrip_starts_clean, lstrip_starts_clean.
  apply rstrip_idem.
Qed.

(** X16. The key is in canonical form: it has no upper-case letter, no
    whitespace but single blanks between other characters, and computing
    the key of a key changes nothing, so a name and its key get the same
    token. *)
Theorem name_key_canonical (s : string) :
  name_key (name_key s) = name_key s
  /\ country_id_from_name (VStr (name_key s)) = country_id_from_name (VStr s)
  /\ tidy false (name_key s) = true
  /\ starts_clean (name_key s)
  /\ rstrip (name_key s) = name_key s
  /\ no_upper (name_key s).
Proof.
  assert (tidy false (strip (re_sub_ws " " s)) = true) as Htidy.
  { unfold strip, re_sub_ws. apply tidy_rstrip, tidy_lstrip, tidy_sub_ws. }
  assert (name_key (name_key s) = name_key s) as Hidem.
  { unfold name_key, re_sub_ws in *.
    rewrite <- (lower_sub_ws " " false (strip _)) by done.
    rewrite (sub_ws_tidy false _ Htidy), <- lower_strip, strip_idem.
    apply lower_idem. }
  split; [done|]. split.
  { unfold country_id_from_name. simpl. fold (name_key (name_key s)).
    fold (name_key s). by rewrite Hidem. }
  unfold name_key. split.
  { clear Hidem. revert Htidy. generalize (strip (re_sub_ws " " s)). intros y.
    generalize false. induction y as [|c y IH]; intros b; simpl; [done|].
    rewrite isspace_lower_char. destruct (isspace c) eqn:Hc; [|apply IH].
    rewrite (lower_char_space c Hc).
    intros [Hbc Hy]%andb_true_iff. rewrite Hbc. simpl. by apply IH. }
  split.
  { rewrite lower_strip. unfold strip. apply rstrip_starts_clean, lstrip_starts_clean. }
  split.
  { rewrite lower_strip. unfold strip. apply rstrip_idem. }
  unfold no_upper. generalize (strip (re_sub_ws " " s)). intros y.
  induction y as [|c y IH]; simpl; constructor; [apply lower_char_not_upper|done].
Qed.

(** X17. Names that differ only in the case of their letters get the same
    token. *)
Theorem country_id_ignores_case (a b : string) :
  lower a = lower b ->
  country_id_from_name (VStr a) = country_id_from_name (VStr b).
Proof.
  intros Hab. unfold country_id_from_name. simpl.
  fold (name_key a). fold (name_key b).
  by rewrite <- (name_key_lower a), <- (name_key_lower b), Hab.
Qed.
Lemma list_ascii_of_string_append a b :
  list_ascii_of_string (String.append a b)
  = list_ascii_of_string a ++ list_ascii_of_string b.
Proof. induction a as [|c a IH]; simpl; by rewrite ?IH. Qed.

Lemma only_space_cons c x :
  only_space (String c x) <-> isspace c = true /\ only_space x.
Proof. unfold only_space. simpl. apply (Forall_cons (fun c => isspace c = true)). Qed.

Lemma sub_ws_skip rep x t :
  only_space x ->
  sub_ws_from rep true (String.append x t) = sub_ws_from rep true t.
Proof.
  induction x as [|c x IH]; [done|].
  intros [Hc Hx]%only_space_cons. simpl. rewrite Hc. by apply IH.
Qed.

Lemma sub_ws_run rep b a w t :
  only_space w -> w <> EmptyString ->
  sub_ws_from rep b (String.append a (String.append w t))
  = sub_ws_from rep b (String.append a (String " " t)).
Proof.
  intros Hw Hne. revert b. induction a as [|c a IH]; intros b.
  - destruct w as [|c w]; [done|]. apply only_space_cons in Hw as [Hc Hw].
    simpl. rewrite Hc, (sub_ws_skip rep w t Hw). done.
  - simpl. destruct (isspace c), b; by rewrite !IH.
Qed.

Lemma lstrip_sub_ws b s : lstrip (sub_ws_from " " b s) = sub_ws_from " " true s.
Proof.
  revert b. induction s as [|c s IH]; intros b; simpl; [done|].
  destruct (isspace c) eqn:Hc.
  - destruct b; [apply IH|]. simpl. apply IH.
  - simpl. by rewrite Hc.
Qed.

Lemma rstrip_cons c s :
  rstrip (String c s)
  = match rstrip s with
    | EmptyString => if isspace c then EmptyString else String c EmptyString
    | t => String c t
    end.
Proof. done. Qed.

Lemma rstrip_sub_ws_space b x :
  only_space x -> rstrip (sub_ws_from " " b x) = EmptyString.
Proof.
  revert b. induction x as [|c x IH]; intros b; [done|].
  intros [Hc Hx]%only_space_cons. cbn [sub_ws_from]. rewrite Hc.
  destruct b; [by apply IH|].
  change (String.append " " ?t) with (String " " t).
  by rewrite rstrip_cons, IH.
Qed.

Lemma rstrip_sub_ws_pad b s x :
  only_space x ->
  rstrip (sub_ws_from " " b (String.append s x)) = rstrip (sub_ws_from " " b s).
Proof.
  intros Hx. revert b. induction s as [|c s IH]; intros b.
  - simpl. by rewrite rstrip_sub_ws_space.
  - change (String.append (String c s) x) with (String c (String.append s x)).
    cbn [sub_ws_from].
    change (String.append " " ?t) with (String " " t).
    destruct (isspace c), b; rewrite ?rstrip_cons, ?IH; done.
Qed.

Lemma strip_sub_ws s : strip (re_sub_ws " " s) = rstrip (sub_ws_from " " true s).
Proof. unfold strip, re_sub_ws. by rewrite lstrip_sub_ws. Qed.

(** X18. Whitespace around a name, and the length and kind of the whitespace
    runs inside it, do not reach the token. *)
Theorem country_id_ignores_whitespace (x a w t x' : string) :
  only_space x -> only_space x' -> only_space w -> w <> EmptyString ->
  country_id_from_name
    (VStr (String.append x
             (String.append (String.append a (String.append w t)) x')))
  = country_id_from_name (VStr (String.append a (String " " t))).
Proof.
  intros Hx Hx' Hw Hne. unfold country_id_from_name. simpl. do 2 f_equal.
  rewrite !strip_sub_ws, sub_ws_skip, rstrip_sub_ws_pad, sub_ws_run; done.
Qed.

(** *** Column labels *)

Lemma no_space_sub_ws b s : no_space (sub_ws_from "_" b s).
Proof.
  unfold no_space. revert b. induction s as [|c s IH]; intros b; simpl;
    [constructor|].
  destruct (isspace c) eqn:Hc.
  - destruct b; [apply IH|]. simpl. constructor; [done|apply IH].
  - simpl. constructor; [done|apply IH].
Qed.

Lemma no_upper_sub_ws_lower b s : no_upper (sub_ws_from "_" b (lower s)).
Proof.
  unfold no_upper. revert b. induction s as [|c s IH]; intros b; simpl;
    [constructor|].
  destruct (isspace (lower_char c)).
  - destruct b; [apply IH|]. simpl. constructor; [done|apply IH].
  - simpl. constructor; [apply lower_char_not_upper|apply IH].
Qed.

Lemma no_space_cons c s : no_space (String c s) <-> isspace c = false /\ no_space s.
Proof. unfold no_space. simpl. apply (Forall_cons (fun c => isspace c = false)). Qed.

Lemma no_upper_cons c s : no_upper (String c s) <-> is_upper c = false /\ no_upper s.
Proof. unfold no_upper. simpl. apply (Forall_cons (fun c => is_upper c = false)). Qed.

Lemma no_space_strip s : no_space s -> strip s = s.
Proof.
  intros Hs. unfold strip.
  assert (lstrip s = s) as ->.
  { destruct s as [|c s]; [done|]. apply no_space_cons in Hs as [Hc _].
    simpl. by rewrite Hc. }
  induction s as [|c s IH]; [done|].
  apply no_space_cons in Hs as [Hc Hs]. simpl. rewrite IH by done.
  destruct s; [by rewrite Hc|done].
Qed.

Lemma no_space_sub_ws_id rep b s : no_space s -> sub_ws_from rep b s = s.
Proof.
  revert b. induction s as [|c s IH]; intros b Hs; [done|].
  apply no_space_cons in Hs as [Hc Hs]. simpl. by rewrite Hc, IH.
Qed.

Lemma no_upper_lower s : no_upper s -> lower s = s.
Proof.
  induction s as [|c s IH]; [done|].
  intros [Hc Hs]%no_upper_cons. simpl. by rewrite lower_char_fixed, IH.
Qed.

Lemma normalized_label_idem c :
  normalized_label (normalized_label c) = normalized_label c.
Proof.
  unfold normalized_label, re_sub_ws.
  set (y := sub_ws_from "_" false (lower (strip c))).
  assert (no_space y) as Hs by apply no_space_sub_ws.
  assert (no_upper y) as Hu by apply no_upper_sub_ws_lower.
  by rewrite (no_space_strip y), (no_upper_lower y), (no_space_sub_ws_id _ _ y).
Qed.

(** X19. [normalize_columns] leaves the rows alone, gives labels without
    whitespace and without upper-case letters, and applied again changes
    nothing. *)
Theorem normalize_columns_canonical (df : DataFrame) :
  rows (normalize_columns df) = rows df
  /\ length (columns (normalize_columns df)) = length (columns df)
  /\ Forall (fun l => no_space l /\ no_upper l) (columns (normalize_columns df))
  /\ normalize_columns (normalize_columns df) = normalize_columns df.
Proof.
  unfold normalize_columns, rename. simpl. split; [done|].
  split; [by rewrite length_fmap|]. split.
  - apply Forall_fmap, Forall_forall. intros l _. simpl. unfold re_sub_ws.
    split; [apply no_space_sub_ws|apply no_upper_sub_ws_lower].
  - f_equal. rewrite <- list_fmap_compose. apply list_fmap_ext.
    intros _ l _. apply normalized_label_idem.
Qed.

(** ** Coercion of cells that are numbers already *)

(** The value of a digit string read after [a]. *)
Lemma scan_digits_all (ds : string) (a : Z) (k : nat) :
  Forall (fun c => isdigit c = true) (list_ascii_of_string ds) ->
  scan_digits ds a k
  = (fold_left (fun acc c => 10 * acc + digit_value c) (list_ascii_of_string ds) a,
     (k + String.length ds)%nat, EmptyString).
Proof.
  revert a k. induction ds as [|c ds IH]; intros a k Hds; simpl.
  - by rewrite Nat.add_0_r.
  - apply Forall_cons in Hds as [Hc Hds]. rewrite Hc, IH by done.
    by rewrite Nat.add_succ_r.
Qed.

Lemma digit_char d :
  0 <= d < 10 ->
  isdigit (ascii_of_nat (Z.to_nat (48 + d))) = true
  /\ digit_value (ascii_of_nat (Z.to_nat (48 + d))) = d
  /\ numeric_char (ascii_of_nat (Z.to_nat (48 + d))) = true
  /\ ascii_of_nat (Z.to_nat (48 + d)) <> "-"%char.
Proof.
  intros Hd.
  assert (d = 0 \/ d = 1 \/ d = 2 \/ d = 3 \/ d = 4 \/ d = 5 \/ d = 6 \/ d = 7
          \/ d = 8 \/ d = 9) as Hcases by lia.
  repeat (destruct Hcases as [->|Hcases]; [by vm_compute|]). subst. by vm_compute.
Qed.

Lemma append_cons c s t :
  String.append (String c s) t = String c (String.append s t).
Proof. done. Qed.

Lemma append_snoc ds c acc :
  String.append ds (String c acc)
  = String.append (String.append ds (String c EmptyString)) acc.
Proof. induction ds as [|c' ds IH]; [done|]. by rewrite !append_cons, IH. Qed.

Lemma append_empty ds : String.append ds EmptyString = ds.
Proof. induction ds as [|c' ds IH]; [done|]. by rewrite append_cons, IH. Qed.

Lemma length_append_snoc ds c :
  String.length (String.append ds (String c EmptyString)) = S (String.length ds).
Proof.
  induction ds as [|c' ds IH]; [done|]. rewrite append_cons. simpl. by rewrite IH.
Qed.

Lemma digits_of_S fuel n acc :
  digits_of (S fuel) n acc
  = if n / 10 =? 0 then String (ascii_of_nat (Z.to_nat (48 + n mod 10))) acc
    else digits_of fuel (n / 10) (String (ascii_of_nat (Z.to_nat (48 + n mod 10))) acc).
Proof. done. Qed.

(** [digits_of] writes the decimal digits of [n] in front of [acc]. *)
Lemma digits_of_spec (fuel : nat) (n : Z) (acc : string) :
  0 <= n < 2 ^ Z.of_nat (S fuel) ->
  exists ds,
    digits_of (S fuel) n acc = String.append ds acc
    /\ ds <> EmptyString
    /\ Forall (fun c => isdigit c = true /\ numeric_char c = true /\ c <> "-"%char)
              (list_ascii_of_string ds)
    /\ forall a,
         fold_left (fun acc c => 10 * acc + digit_value c) (list_ascii_of_string ds) a
         = a * 10 ^ Z.of_nat (String.length ds) + n.
Proof.
  revert n acc. induction fuel as [|fuel IH]; intros n acc Hn.
  - assert (n / 10 = 0) as Hq by (apply Z.div_small; change (2 ^ Z.of_nat 1) with 2 in Hn; lia).
    assert (n mod 10 = n) as Hr by (apply Z.mod_small; change (2 ^ Z.of_nat 1) with 2 in Hn; lia).
    destruct (digit_char n) as (Hd & Hv & Hc & Hm);
      [change (2 ^ Z.of_nat 1) with 2 in Hn; lia|].
    exists (String (ascii_of_nat (Z.to_nat (48 + n))) EmptyString).
    rewrite digits_of_S, Hq, Hr. simpl. split; [done|]. split; [done|].
    split; [by repeat constructor|]. intros a. rewrite Hv. lia.
  - rewrite digits_of_S.
    assert (0 <= n mod 10 < 10) as Hmod by (apply Z.mod_pos_bound; lia).
    destruct (digit_char (n mod 10) Hmod) as (Hd & Hv & Hc & Hm).
    destruct (n / 10 =? 0) eqn:Hq.
    + apply Z.eqb_eq in Hq.
      exists (String (ascii_of_nat (Z.to_nat (48 + n mod 10))) EmptyString).
      split; [done|]. split; [done|]. split; [by repeat constructor|].
      intros a. simpl. rewrite Hv.
      pose proof (Z.div_mod n 10). lia.
    + apply Z.eqb_neq in Hq.
      destruct (IH (n / 10)
                  (String (ascii_of_nat (Z.to_nat (48 + n mod 10))) acc))
        as (ds & Heq & Hne & Hds & Hval).
      { split; [apply Z.div_pos; lia|].
        apply Z.div_lt_upper_bound; [lia|].
        rewrite (Nat2Z.inj_succ (S fuel)), Z.pow_succ_r in Hn by lia. lia. }
      exists (String.append ds
                (String (ascii_of_nat (Z.to_nat (48 + n mod 10))) EmptyString)).
      split.
      { rewrite Heq. apply append_snoc. }
      split; [by destruct ds|]. split.
      { rewrite list_ascii_of_string_append. apply Forall_app. split; [done|].
        by repeat constructor. }
      intros a. rewrite list_ascii_of_string_append, fold_left_app, Hval. simpl.
      rewrite Hv.
      rewrite length_append_snoc.
      rewrite Nat2Z.inj_succ, Z.pow_succ_r by lia.
      pose proof (Z.div_mod n 10). lia.
Qed.

Lemma str_nat_spec (n : Z) :
  0 <= n ->
  exists ds,
    str_nat n = ds /\ ds <> EmptyString
    /\ Forall (fun c => isdigit c = true /\ numeric_char c = true /\ c <> "-"%char)
              (list_ascii_of_string ds)
    /\ fold_left (fun acc c => 10 * acc + digit_value c) (list_ascii_of_string ds) 0 = n.
Proof.
  intros Hn. unfold str_nat.
  destruct (digits_of_spec (Z.to_nat (Z.log2 n)) n EmptyString)
    as (ds & Heq & Hne & Hds & Hval).
  { split; [done|]. rewrite Nat2Z.inj_succ, Z2Nat.id by apply Z.log2_nonneg.
    destruct (decide (n = 0)) as [->|Hpos]; [done|].
    apply Z.log2_spec. lia. }
  exists ds. split; [by rewrite Heq, append_empty|].
  split; [done|]. split; [done|]. rewrite Hval. lia.
Qed.

Lemma strip_non_numeric_id s :
  Forall (fun c => numeric_char c = true) (list_ascii_of_string s) ->
  strip_non_numeric s = s.
Proof.
  induction s as [|c s IH]; [done|]. simpl.
  intros [Hc Hs]%Forall_cons. by rewrite Hc, IH.
Qed.

Lemma parse_unsigned_digits ds :
  ds <> EmptyString ->
  Forall (fun c => isdigit c = true) (list_ascii_of_string ds) ->
  parse_unsigned ds
  = Some (VInt (fold_left (fun acc c => 10 * acc + digit_value c)
                          (list_ascii_of_string ds) 0)).
Proof.
  intros Hne Hds. unfold parse_unsigned. rewrite scan_digits_all by done.
  simpl. by destruct ds.
Qed.

(** X20. Coercion leaves an integer cell as it is (for an integer in the range
    that a float column holds exactly), turns a missing cell into [nan], and
    never leaves text behind. *)
Theorem coerce_numeric_cells (v : value) :
  (forall z, v = VInt z -> Z.abs z <= 2 ^ 53 -> coerce_numeric v = v)
  /\ (isna v = true -> coerce_numeric v = VNaN)
  /\ match coerce_numeric v with
     | VInt _ | VFloat _ _ | VNaN => True
     | VNone | VStr _ => False
     end.
Proof.
  split; [|split].
  - intros z -> _. unfold coerce_numeric. simpl. unfold str_int.
    destruct (z <? 0) eqn:Hz.
    + apply Z.ltb_lt in Hz.
      destruct (str_nat_spec (- z)) as (ds & -> & Hne & Hds & Hval); [lia|].
      simpl. rewrite strip_non_numeric_id
        by (eapply Forall_impl; [exact Hds|]; simpl; tauto).
      unfold to_numeric. simpl.
      rewrite parse_unsigned_digits
        by (done || (eapply Forall_impl; [exact Hds|]; simpl; tauto)).
      simpl. rewrite Hval. f_equal. lia.
    + apply Z.ltb_ge in Hz.
      destruct (str_nat_spec z Hz) as (ds & -> & Hne & Hds & Hval).
      rewrite strip_non_numeric_id
        by (eapply Forall_impl; [exact Hds|]; simpl; tauto).
      unfold to_numeric. destruct ds as [|c ds]; [done|].
      pose proof Hds as [(_ & _ & Hc) _]%Forall_cons.
      destruct (ascii_dec c "-"); [done|].
      rewrite parse_unsigned_digits
        by (done || (eapply Forall_impl; [exact Hds|]; simpl; tauto)).
      simpl in *. by rewrite Hval.
  - by destruct v.
  - unfold coerce_numeric, to_numeric.
    destruct (strip_non_numeric (py_str v)) as [|c s]; [done|].
    assert (forall t, match default VNaN (parse_unsigned t) with
                      | VInt _ | VFloat _ _ | VNaN => True
                      | _ => False end
                      /\ match default VNaN (negate <$> parse_unsigned t) with
                         | VInt _ | VFloat _ _ | VNaN => True
                         | _ => False end) as Hp.
    { intros t. unfold parse_unsigned.
      destruct (scan_digits t 0 0) as [[ip ni] rest].
      destruct rest as [|c' rest'].
      - by destruct (ni =? 0)%nat.
      - destruct (ascii_dec c' "."); [|done].
        destruct (scan_digits rest' ip 0) as [[m nf] rest''].
        destruct rest''; [|done]. by destruct (ni + nf =? 0)%nat. }
    destruct (ascii_dec c "-"); apply Hp.
Qed.

(** ** More on the batch assembler *)

Lemma insert_file_Permutation f l : insert_file f l ≡ₚ f :: l.
Proof.
  induction l as [|g l IH]; simpl; [done|].
  destruct (String.leb f.1 g.1); [done|]. rewrite IH. apply Permutation_swap.
Qed.

Lemma sorted_Permutation l : sorted l ≡ₚ l.
Proof.
  unfold sorted. induction l as [|f l IH]; simpl; [done|].
  by rewrite insert_file_Permutation, IH.
Qed.

(** Two name-ordered listings of the same files, no two files sharing a
    name, are the same list. *)
Lemma sorted_unique (l1 l2 : list (string * DataFrame)) :
  StronglySorted file_le l1 -> StronglySorted file_le l2 ->
  l1 ≡ₚ l2 -> NoDup (fst <$> l1) -> l1 = l2.
Proof.
  revert l2. induction l1 as [|x l1 IH]; intros l2 H1 H2 Hp Hnd.
  - by apply Permutation_nil_l in Hp.
  - destruct l2 as [|y l2]; [by apply Permutation_nil_r in Hp|].
    apply StronglySorted_inv in H1 as [H1 Hx], H2 as [H2 Hy].
    rewrite fmap_cons in Hnd. apply NoDup_cons in Hnd as [Hx1 Hnd].
    assert (x = y) as <-.
    { destruct (decide (x = y)) as [|Hne]; [done|]. exfalso.
      assert (x ∈ l2) as Hxl2.
      { assert (x ∈ y :: l2) as Hin by (rewrite <- Hp; left).
        apply elem_of_cons in Hin as [?|?]; done. }
      assert (y ∈ l1) as Hyl1.
      { assert (y ∈ x :: l1) as Hin by (rewrite Hp; left).
        apply elem_of_cons in Hin as [?|?]; done. }
      rewrite Forall_forall in Hx, Hy.
      pose proof (String.leb_antisym _ _ (Hx y Hyl1) (Hy x Hxl2)) as Hname.
      apply Hx1. rewrite Hname. by apply list_elem_of_fmap_2. }
    f_equal. apply IH; try done. by apply Permutation_cons_inv in Hp.
Qed.

(** X8. The order in which the directory lists its files does not matter. *)
Theorem read_olympics_files_any_order (files files' : list (string * DataFrame)) :
  files ≡ₚ files' ->
  NoDup (fst <$> files) ->
  read_olympics_files (Some files) = read_olympics_files (Some files').
Proof.
  intros Hp Hnd. unfold read_olympics_files.
  rewrite (sorted_unique (sorted files) (sorted files')); [done|..].
  - apply sorted_StronglySorted.
  - apply sorted_StronglySorted.
  - by rewrite !sorted_Permutation.
  - by rewrite sorted_Permutation.
Qed.

Lemma rename_first_alias_rows aliases df :
  rows (rename_first_alias aliases df) = rows df.
Proof.
  induction aliases as [|a aliases IH]; simpl; [done|].
  by destruct (has_column a df).
Qed.

Lemma coerce_medals_length ms df out :
  coerce_medals ms df = Ok out -> length (rows out) = length (rows df).
Proof.
  revert df. induction ms as [|m ms IH]; intros df; simpl; [by intros [= <-]|].
  destruct (has_column m df); [|by apply IH].
  intros (df' & [_ ->]%coerce_column_Ok & Hout)%bind_Ok.
  apply IH in Hout. by rewrite assign_length in Hout.
Qed.

Lemma olympics_frame_length name df F :
  olympics_frame name df = Ok F -> length (rows F) = length (rows df).
Proof.
  unfold olympics_frame. intros (d & Hd & [_ ->]%assign_country_id_Ok)%bind_Ok.
  apply coerce_medals_length in Hd. rewrite assign_length, Hd.
  unfold ensure_country. destruct (has_column _ _);
    rewrite ?assign_length, rename_first_alias_rows, !assign_length; done.
Qed.

Lemma sum_list_perm (l1 l2 : list nat) : l1 ≡ₚ l2 -> sum_list l1 = sum_list l2.
Proof. induction 1; simpl; lia. Qed.

Lemma length_stacked U f : length (stacked U f) = length (rows f).
Proof. unfold stacked. destruct (decide _); [done|]. by rewrite length_fmap. Qed.

Lemma olympics_frames_total (L : list (string * DataFrame)) Fs :
  Forall2 (fun f F => olympics_frame f.1 f.2 = Ok F) L Fs ->
  sum_list ((fun f => length (rows f.2)) <$> L)
  = sum_list ((fun F => length (rows F)) <$> Fs).
Proof.
  induction 1 as [|f F L Fs HF _ IH]; [done|].
  rewrite !fmap_cons. simpl. by rewrite IH, (olympics_frame_length _ _ _ HF).
Qed.

(** X9. The batch has exactly one row for each row of each file. *)
Theorem read_olympics_files_row_count (files : list (string * DataFrame))
    (T : DataFrame) :
  read_olympics_files (Some files) = Ok T ->
  length (rows T) = sum_list ((fun f => length (rows f.2)) <$> files).
Proof.
  unfold read_olympics_files. intros (Fs & HFs & HT)%bind_Ok.
  apply traverse_Ok in HFs.
  assert (sum_list ((fun f => length (rows f.2)) <$> files)
          = sum_list ((fun F => length (rows F)) <$> Fs)) as ->.
  { transitivity (sum_list ((fun f => length (rows f.2)) <$> sorted files)).
    - apply sum_list_perm, fmap_Permutation. symmetry. apply sorted_Permutation.
    - by apply olympics_frames_total. }
  destruct Fs as [|F0 Fs']; [by injection HT as <-|].
  apply pd_concat_Ok in HT as (_ & _ & -> & _).
  generalize (F0 :: Fs'). intros l. induction l as [|F l IH]; [done|].
  rewrite !fmap_cons. simpl. by rewrite length_app, length_stacked, IH.
Qed.

(** ** What the built tables hold *)

Lemma assign_sat_same P c f df :
  rectangular df -> (forall r, r ∈ rows df -> P (f r)) ->
  column_sat P c (assign c f df).
Proof.
  intros Hrect HP. split.
  - rewrite assign_columns. destruct (has_column c df) eqn:Hc.
    + by apply has_column_true.
    + rewrite elem_of_app, list_elem_of_singleton. auto.
  - intros r' (i & r & Hr & Hr')%assign_elem_of.
    destruct (assign_cell c f df i r) as (r'' & Hr'' & Hcell & _); [done..|].
    assert (r'' = r') as -> by congruence.
    rewrite Hcell. apply HP. by eapply list_elem_of_lookup_2.
Qed.

Lemma assign_sat_other P c f df c' :
  rectangular df -> c' <> c -> column_sat P c' df -> column_sat P c' (assign c f df).
Proof.
  intros Hrect Hne [Hin HP]. split.
  - rewrite assign_columns. destruct (has_column c df); [done|].
    rewrite elem_of_app. auto.
  - intros r' (i & r & Hr & Hr')%assign_elem_of.
    destruct (assign_cell c f df i r) as (r'' & Hr'' & _ & Hcell); [done..|].
    assert (r'' = r') as -> by congruence.
    rewrite Hcell by done. apply HP. by eapply list_elem_of_lookup_2.
Qed.

Lemma coerce_numeric_number v : number_or_nan (coerce_numeric v).
Proof.
  unfold coerce_numeric, to_numeric.
  destruct (strip_non_numeric (py_str v)) as [|c s]; [done|].
  assert (forall t, number_or_nan (default VNaN (parse_unsigned t))
                    /\ number_or_nan (default VNaN (negate <$> parse_unsigned t)))
    as Hp.
  { intros t. unfold parse_unsigned.
    destruct (scan_digits t 0 0) as [[ip ni] rest].
    destruct rest as [|c' rest'].
    - by destruct (ni =? 0)%nat.
    - destruct (ascii_dec c' "."); [|done].
      destruct (scan_digits rest' ip 0) as [[m nf] rest''].
      destruct rest''; [|done]. by destruct (ni + nf =? 0)%nat. }
  destruct (ascii_dec c "-"); apply Hp.
Qed.

Lemma coerce_column_sat c df out :
  rectangular df -> coerce_column c df = Ok out ->
  rectangular out /\ columns out = columns df
  /\ column_sat number_or_nan c out
  /\ forall P c', c' <> c -> column_sat P c' df -> column_sat P c' out.
Proof.
  intros Hrect [Hn ->]%coerce_column_Ok.
  split; [by apply assign_rectangular|]. split.
  - rewrite assign_columns.
    assert (has_column c df = true) as ->; [|done].
    apply has_column_true. unfold label_count in Hn.
    destruct (filter (fun l => l = c) (columns df)) as [|x ?] eqn:Hf; [done|].
    assert (x ∈ filter (fun l => l = c) (columns df)) as Hx by (rewrite Hf; left).
    by apply list_elem_of_filter in Hx as [-> ?].
  - split.
    + apply assign_sat_same; [done|]. intros r _. apply coerce_numeric_number.
    + intros P c' Hne. by apply assign_sat_other.
Qed.

Lemma coerce_medals_sat ms df out :
  rectangular df -> coerce_medals ms df = Ok out ->
  rectangular out /\ columns out = columns df
  /\ (forall m, m ∈ ms -> m ∈ columns df -> column_sat number_or_nan m out)
  /\ forall P c, c ∉ ms -> column_sat P c df -> column_sat P c out.
Proof.
  revert df. induction ms as [|m ms IH]; intros df Hrect; simpl.
  - intros [= <-]. split; [done|]. split; [done|]. split; [|done].
    intros m Hm. by apply elem_of_nil in Hm.
  - destruct (has_column m df) eqn:Hm.
    + intros (df' & Hdf' & Hout)%bind_Ok.
      destruct (coerce_column_sat _ _ _ Hrect Hdf') as (Hr' & Hc' & Hsat & Hoth).
      destruct (IH df' Hr' Hout) as (Hro & Hco & Hms & Hothers).
      split; [done|]. split; [congruence|]. split.
      * intros m' Hm' Hin. destruct (decide (m' ∈ ms)) as [Hrest|Hrest].
        -- apply Hms; [done|]. by rewrite Hc'.
        -- apply elem_of_cons in Hm' as [->|?]; [|done]. by apply Hothers.
      * intros P c [Hne Hc]%not_elem_of_cons Hsat'. apply Hothers; [done|].
        by apply Hoth.
    + intros Hout. destruct (IH df Hrect Hout) as (Hro & Hco & Hms & Hothers).
      split; [done|]. split; [done|]. split.
      * intros m' [->|Hm']%elem_of_cons Hin; [|by apply Hms].
        apply has_column_false in Hm. done.
      * intros P c [Hne Hc]%not_elem_of_cons. by apply Hothers.
Qed.

Lemma assign_country_id_sat df out :
  rectangular df -> assign_country_id df = Ok out ->
  rectangular out
  /\ "country" ∈ columns out /\ "country_id" ∈ columns out
  /\ (forall r, r ∈ rows out ->
        cell (columns out) r "country_id"
        = token_of_cell (cell (columns out) r "country"))
  /\ forall P c, c <> "country_id" -> column_sat P c df -> column_sat P c out.
Proof.
  intros Hrect Hout. pose proof Hout as [Hn ->]%assign_country_id_Ok.
  set (f := fun r => VStr (country_id_from_name
                             (VStr (py_str (cell (columns df) r "country"))))).
  split; [by apply assign_rectangular|].
  assert ("country" ∈ columns df) as Hc.
  { unfold label_count in Hn.
    destruct (filter (fun l => l = "country") (columns df)) as [|x ?] eqn:Hf; [done|].
    assert (x ∈ filter (fun l => l = "country") (columns df)) as Hx
      by (rewrite Hf; left).
    by apply list_elem_of_filter in Hx as [-> ?]. }
  split.
  { rewrite assign_columns. destruct (has_column _ df); [done|].
    rewrite elem_of_app. auto. }
  split; [by eapply assign_country_id_column|]. split.
  - intros r' (i & r & Hr & Hr')%assign_elem_of.
    destruct (assign_cell "country_id" f df i r) as (r'' & Hr'' & Hcell & Hoth);
      [done..|].
    assert (r'' = r') as -> by congruence.
    rewrite Hcell, (Hoth "country") by done. done.
  - intros P c Hne. by apply assign_sat_other.
Qed.

(** X10. Every row of the frame built from a file carries, under
    ['country_id'], the token of the text of its own name cell; the medal
    columns of the file hold numbers or [nan] only. *)
Theorem olympics_frame_cells (name : string) (df F : DataFrame) :
  rectangular df ->
  olympics_frame name df = Ok F ->
  (forall r, r ∈ rows F ->
     cell (columns F) r "country_id" = token_of_cell (cell (columns F) r "country"))
  /\ (forall m, m ∈ medals -> m ∈ columns F -> column_sat number_or_nan m F)
  /\ column_sat (fun v => v = VStr name) "source_file" F.
Proof.
  intros Hrect HF.
  destruct (olympics_frame_spec name df F Hrect HF) as (_ & _ & [Hsf Hsfv] & _).
  revert HF. unfold olympics_frame.
  set (d1 := normalize_columns df).
  set (d2 := assign "source_file" (fun _ => VStr name) d1).
  set (d3 := assign "year" (fun _ => year_of_filename name) d2).
  set (d4 := rename_first_alias ["nation"; "country"; "team"] d3).
  set (d5 := ensure_country d4).
  intros (d6 & H6 & H7)%bind_Ok.
  assert (rectangular d5) as R5.
  { assert (rectangular d3) as R3
      by (do 2 apply assign_rectangular; by apply normalize_columns_rectangular).
    destruct (rename_first_alias_preserves ["nation"; "country"; "team"] d3 "year")
      as (R4 & _); [|done|done|].
    { apply (bool_decide_unpack _). vm_compute. exact I. }
    by destruct (ensure_country_preserves d4 "year") as (? & _). }
  destruct (coerce_medals_sat _ _ _ R5 H6) as (R6 & C6 & Hmed & _).
  destruct (assign_country_id_sat _ _ R6 H7) as (_ & _ & Hcid & Htok & Hoth).
  split; [done|]. split; [|by split].
  intros m Hm Hin. apply Hoth.
  { intros ->. revert Hm. apply (bool_decide_unpack _). vm_compute. exact I. }
  apply Hmed; [done|]. rewrite <- C6.
  pose proof H7 as [_ ->]%assign_country_id_Ok. rewrite assign_columns in Hin.
  destruct (has_column "country_id" d6); [done|].
  apply elem_of_app in Hin as [?|Hin]; [done|].
  apply list_elem_of_singleton in Hin as ->.
  revert Hm. apply (bool_decide_unpack _). vm_compute. exact I.
Qed.

Lemma coerce_column_rows c df out :
  rectangular df -> coerce_column c df = Ok out ->
  rectangular out /\ columns out = columns df
  /\ forall r', r' ∈ rows out -> exists r, r ∈ rows df
       /\ number_or_nan (cell (columns out) r' c)
       /\ forall c', c' <> c -> cell (columns out) r' c' = cell (columns df) r c'.
Proof.
  intros Hrect Hout.
  destruct (coerce_column_sat _ _ _ Hrect Hout) as (Hr & Hc & [_ Hnum] & _).
  split; [done|]. split; [done|].
  intros r' Hr'. pose proof Hout as [_ ->]%coerce_column_Ok.
  pose proof Hr' as (i & r & Hi & Hi')%assign_elem_of.
  exists r. split; [by eapply list_elem_of_lookup_2|]. split; [by apply Hnum|].
  intros c' Hne.
  destruct (assign_cell c (fun r => coerce_numeric (cell (columns df) r c))
              df i r) as (r'' & Hr'' & _ & Hoth); [done..|].
  assert (r'' = r') as -> by congruence. by apply Hoth.
Qed.

Lemma coerce_numeric_like_rows cols df out :
  rectangular df -> coerce_numeric_like cols df = Ok out ->
  forall r', r' ∈ rows out -> exists r, r ∈ rows df
    /\ (forall c, numeric_like c = false ->
          cell (columns out) r' c = cell (columns df) r c)
    /\ (forall c, number_or_nan (cell (columns df) r c) ->
          number_or_nan (cell (columns out) r' c))
    /\ (forall c, c ∈ cols -> numeric_like c = true ->
          number_or_nan (cell (columns out) r' c)).
Proof.
  revert df. induction cols as [|c cols IH]; intros df Hrect; simpl.
  - intros [= <-] r' Hr'. exists r'. repeat split; try done.
    intros c Hc. by apply elem_of_nil in Hc.
  - destruct (numeric_like c) eqn:Hlike.
    + intros (df' & Hdf' & Hout)%bind_Ok r' Hr'.
      destruct (coerce_column_rows _ _ _ Hrect Hdf') as (Hrect' & Hcols & Hrows).
      destruct (IH df' Hrect' Hout r' Hr') as (r1 & Hr1 & Hsame & Hkeep & Hnum).
      destruct (Hrows r1 Hr1) as (r & Hr & Hc & Hoth).
      exists r. split; [done|]. split; [|split].
      * intros c' Hc'. rewrite (Hsame c' Hc'). apply Hoth. congruence.
      * intros c' Hc'. apply Hkeep. destruct (decide (c' = c)) as [->|Hne]; [done|].
        by rewrite Hoth.
      * intros c' [->|Hin]%elem_of_cons Hl; [by apply Hkeep|by apply Hnum].
    + intros Hout r' Hr'.
      destruct (IH df Hrect Hout r' Hr') as (r & Hr & Hsame & Hkeep & Hnum).
      exists r. split; [done|]. split; [done|]. split; [done|].
      intros c' [->|Hin]%elem_of_cons Hl; [congruence|by apply Hnum].
Qed.

(** X11. The reference table has a row per row of the file; each row carries,
    under ['country_id'], the token of the text of its own name cell, and
    every column whose label matches the numeric pattern holds numbers or
    [nan] only. *)
Theorem build_countries_table_cells (df T : DataFrame) :
  rectangular df ->
  build_countries_table (Some df) = Ok T ->
  length (rows T) = length (rows df)
  /\ (forall r, r ∈ rows T ->
        cell (columns T) r "country_id"
        = token_of_cell (cell (columns T) r "country"))
  /\ forall c, c ∈ columns T -> numeric_like c = true ->
       column_sat number_or_nan c T.
Proof.
  intros Hrect. unfold build_countries_table.
  set (d1 := normalize_columns df).
  set (d2 := rename_first_alias ["country"; "name"; "country_name"] d1).
  set (d3 := ensure_country d2).
  intros (d4 & H4 & HT)%bind_Ok.
  assert (rectangular d3 /\ length (rows d3) = length (rows df)) as [R3 L3].
  { assert (rectangular d1) as R1 by by apply normalize_columns_rectangular.
    destruct (rename_first_alias_preserves ["country"; "name"; "country_name"]
                d1 "country_id") as (R2 & L2 & _); [|done|done|].
    { apply (bool_decide_unpack _). vm_compute. exact I. }
    destruct (ensure_country_preserves d2 "country_id") as (? & L & _); [done..|].
    split; [done|]. etrans; [exact L|]. etrans; [exact L2|]. reflexivity. }
  destruct (assign_country_id_sat _ _ R3 H4) as (R4 & _ & _ & Htok & _).
  pose proof (coerce_numeric_like_columns _ _ _ HT) as [HcT HlT].
  pose proof (coerce_numeric_like_rows _ _ _ R4 HT) as Hrows.
  split.
  { rewrite HlT. pose proof H4 as [_ ->]%assign_country_id_Ok.
    by rewrite assign_length. }
  split.
  - intros r' Hr'. destruct (Hrows r' Hr') as (r & Hr & Hsame & _).
    rewrite !Hsame by (vm_compute; reflexivity).
    by apply Htok.
  - intros c Hc Hlike. split; [done|]. intros r' Hr'.
    destruct (Hrows r' Hr') as (r & _ & _ & _ & Hnum).
    apply Hnum; [|done]. by rewrite <- HcT.
Qed.

(** ** Instances of the further properties *)

Lemma olympics_frame_succeeds_witness :
  exists F, olympics_frame "results_2000.csv" results_2000 = Ok F.
Proof.
  apply (olympics_frame_succeeds "results_2000.csv" results_2000); by_computation.
Defined.

Lemma upsert_schema_witness :
  columns merged_with_silver
  = columns prior_fact
    ++ filter (fun c => c ∉ columns prior_fact) (columns batch_with_silver)
  /\ (forall r', r' ∈ rows merged_with_silver ->
        exists old r,
          ((old = columns prior_fact /\ r ∈ rows prior_fact)
           \/ (old = columns batch_with_silver /\ r ∈ rows batch_with_silver))
          /\ r' = reindex (columns merged_with_silver) old r
          /\ forall c, c ∈ columns merged_with_silver ->
               cell (columns merged_with_silver) r' c
               = (if decide (c ∈ old) then cell old r c else VNaN)).
Proof.
  apply (upsert_schema prior_fact batch_with_silver fact_keys merged_with_silver).
  - by_computation.
  - by_computation.
  - vm_compute. reflexivity.
Defined.

Lemma upsert_keeps_every_key_witness :
  [KStr "es"; KNum 2000 0]
    ∈ row_key (columns merged_with_silver) fact_keys <$> rows merged_with_silver
  <-> [KStr "es"; KNum 2000 0]
        ∈ row_key (columns prior_fact) fact_keys <$> rows prior_fact
      \/ [KStr "es"; KNum 2000 0]
           ∈ row_key (columns batch_with_silver) fact_keys <$> rows batch_with_silver.
Proof.
  apply (upsert_keeps_every_key prior_fact batch_with_silver fact_keys
           merged_with_silver [KStr "es"; KNum 2000 0]).
  - by_computation.
  - by_computation.
  - vm_compute. reflexivity.
Defined.

Lemma upsert_prior_then_batch_witness :
  rows merged_with_silver
  = filter (fun r => row_key (columns merged_with_silver) fact_keys r
                     ∉ row_key (columns batch_with_silver) fact_keys
                         <$> rows batch_with_silver)
      (keep_last (row_key (columns merged_with_silver) fact_keys)
         (reindex (columns merged_with_silver) (columns prior_fact) <$> rows prior_fact))
    ++ keep_last (row_key (columns merged_with_silver) fact_keys)
         (reindex (columns merged_with_silver) (columns batch_with_silver)
            <$> rows batch_with_silver).
Proof.
  apply (upsert_prior_then_batch prior_fact batch_with_silver fact_keys
           merged_with_silver).
  - by_computation.
  - by_computation.
  - vm_compute. reflexivity.
Defined.

Lemma upsert_missing_key_column_witness :
  upsert_parquet (Some prior_fact) batch_fact ["country_id"; "period"] = Raise KeyError.
Proof.
  apply (upsert_missing_key_column prior_fact batch_fact ["country_id"; "period"]
           "period").
  - by_computation.
  - by_computation.
  - by_computation.
  - by_computation.
  - left. vm_compute. intros H. discriminate H.
  - by_computation.
  - by_computation.
  - by_computation.
Defined.

Lemma join_never_drops_witness :
  length (rows joined_twice)
  = sum_list ((fun lr =>
                 Nat.max 1 (length (filter
                    (fun rr => code_of (cell (columns reference_table_twice) rr "country_id")
                               = code_of (cell (columns two_files_merged) lr "country_id"))
                    (rows reference_table_twice))))
              <$> rows two_files_merged)
  /\ (length (rows two_files_merged) <= length (rows joined_twice))%nat
  /\ (forall lr, lr ∈ rows two_files_merged ->
        exists r, r ∈ rows joined_twice
                  /\ take (length (columns two_files_merged)) r = lr)
  /\ (forall r, r ∈ rows joined_twice ->
        take (length (columns two_files_merged)) r ∈ rows two_files_merged).
Proof.
  apply (join_never_drops two_files_merged reference_table_twice
           "country_id" "_olymp" "_country" joined_twice).
  - by_computation.
  - vm_compute. reflexivity.
Defined.

Lemma second_run_stable_witness :
  run_pipeline after_second_run = (after_second_run, Ok second_run_artifacts).
Proof.
  apply (second_run_stable after_first_run after_second_run second_run_artifacts).
  - vm_compute. intros H. discriminate H.
  - vm_compute. intros H. discriminate H.
  - vm_compute. reflexivity.
Defined.

Lemma run_without_fact_source_witness :
  exists e,
    (run_pipeline reference_only).2 = Raise e
    /\ denormalized_parquet (run_pipeline reference_only).1
       = denormalized_parquet reference_only.
Proof.
  apply (run_without_fact_source reference_only).
  - left. reflexivity.
  - reflexivity.
Defined.

Lemma country_id_ignores_case_witness :
  country_id_from_name (VStr "FRANCE") = country_id_from_name (VStr "France").
Proof.
  apply (country_id_ignores_case "FRANCE" "France"). vm_compute. reflexivity.
Defined.

Lemma country_id_ignores_whitespace_witness :
  country_id_from_name
    (VStr (String.append " "
             (String.append (String.append "Costa" (String.append "  " "Rica")) " ")))
  = country_id_from_name (VStr (String.append "Costa" (String " " "Rica"))).
Proof.
  apply (country_id_ignores_whitespace " " "Costa" "  " "Rica" " ").
  - unfold only_space. by_computation.
  - unfold only_space. by_computation.
  - unfold only_space. by_computation.
  - intros H. discriminate H.
Defined.

Lemma read_olympics_files_any_order_witness :
  read_olympics_files (Some two_files)
  = read_olympics_files
      (Some [("medals_2000.csv", medals_2000); ("results_2000.csv", results_2000)]).
Proof.
  apply (read_olympics_files_any_order two_files
           [("medals_2000.csv", medals_2000); ("results_2000.csv", results_2000)]).
  - apply perm_swap.
  - by_computation.
Defined.

Lemma read_olympics_files_row_count_witness :
  length (rows two_files_batch)
  = sum_list ((fun f => length (rows f.2)) <$> two_files).
Proof.
  apply (read_olympics_files_row_count two_files two_files_batch).
  vm_compute. reflexivity.
Defined.

Lemma olympics_frame_cells_witness :
  (forall r, r ∈ rows results_frame ->
     cell (columns results_frame) r "country_id"
     = token_of_cell (cell (columns results_frame) r "country"))
  /\ (forall m, m ∈ medals -> m ∈ columns results_frame ->
        column_sat number_or_nan m results_frame)
  /\ column_sat (fun v => v = VStr "results_2000.csv") "source_file" results_frame.
Proof.
  apply (olympics_frame_cells "results_2000.csv" results_2000 results_frame).
  - by_computation.
  - vm_compute. reflexivity.
Defined.

Lemma build_countries_table_cells_witness :
  length (rows reference_table) = length (rows reference_csv)
  /\ (forall r, r ∈ rows reference_table ->
        cell (columns reference_table) r "country_id"
        = token_of_cell (cell (columns reference_table) r "country"))
  /\ forall c, c ∈ columns reference_table -> numeric_like c = true ->
       column_sat number_or_nan c reference_table.
Proof.
  apply (build_countries_table_cells reference_csv reference_table).
  - by_computation.
  - vm_compute. reflexivity.
Defined.
